(** * qgrep: the archive builder of [src/build.cpp]

    A shallow embedding of [build.cpp]: the project-description parser
    ([trim], [extractSuffix], [parseInput]), the chunk layout encoder
    ([Builder::prepareChunkData]), the codec adapter
    ([Builder::compressData]), the builder itself ([start], [appendFile],
    [flushChunk], [writeChunk], [flush]) and the file selection of
    [buildProject] ([constructOrRE], [isFileAcceptable], sort and unique).

    Conventions.
    - [size_t] and [uint64_t] are 64-bit: values are [Z] in [0, 2^64) and
      every addition and multiplication is wrapped by [wrap].
    - [std::string] is [string]; [std::vector<char>] is [list byte].
    - [assert] failure and [fatal] end the process, a division by zero is
      undefined and a loop may never end: functions that can reach one of
      these return a [result].
    - Declarations of [format.hpp], [constants.hpp], [lz4.h], [re2.h] and
      [fileutil.hpp] are not part of [build.cpp]; they are the fields of the
      classes [Format], [Codec], [Regex] and of the record [FileSystem].
    - The text sent to the terminal ([printf], [error]) is left out; of
      [printStatistics] the static [lastResultSize], the values printed and
      the division are kept.

    The definitions come first: the program, then the notions the
    statements use, then instances on which the program can be run.  The
    lemmas and theorems follow, by component. *)

From Stdlib Require Import ZArith Lia Bool Ascii String.
From Stdlib Require Import Init.Byte.
From stdpp Require Import base tactics option list list_numbers sorting strings.

Open Scope Z_scope.

(* ===================================================================== *)
(** * Machine integers *)
(* ===================================================================== *)

Definition size_max : Z := 2 ^ 64.

(** Reduction modulo [2^64]: the value of an unsigned 64-bit expression. *)
Definition wrap (z : Z) : Z := z mod size_max.

Definition size_add (a b : Z) : Z := wrap (a + b).
Definition size_mul (a b : Z) : Z := wrap (a * b).

(** [v.size()] of a vector or string. *)
Definition size {A} (l : list A) : Z := Z.of_nat (length l).
Definition ssize (s : string) : Z := Z.of_nat (String.length s).

Definition INT_MAX : Z := 2 ^ 31 - 1.

(** Conversion of an unsigned value to [int] (two's complement). *)
Definition to_int (z : Z) : Z := (z + 2 ^ 31) mod 2 ^ 32 - 2 ^ 31.

(** Conversion of an [int] to [size_t]. *)
Definition to_size_t (z : Z) : Z := wrap z.

(* ===================================================================== *)
(** * Results of functions that can end the process *)
(* ===================================================================== *)

(** [Ok a]: the function returns [a].  [AssertFailed] and [Fatal]: the
    process is ended by [assert] or by [fatal].  [Undefined]: the function
    divides an integer by zero.  [Diverges]: the function never returns. *)
Inductive result (A : Type) : Type :=
| Ok (a : A)
| AssertFailed
| Fatal
| Undefined
| Diverges.
Arguments Ok {A} a.
Arguments AssertFailed {A}.
Arguments Fatal {A}.
Arguments Undefined {A}.
Arguments Diverges {A}.

Definition bind {A B} (r : result A) (k : A -> result B) : result B :=
  match r with
  | Ok a => k a
  | AssertFailed => AssertFailed
  | Fatal => Fatal
  | Undefined => Undefined
  | Diverges => Diverges
  end.

Notation "'do' x <- e ; k" := (bind e (fun x => k))
  (at level 10, x name, e at level 100, k at level 200).

(** [assert(c)] *)
Definition assert (c : bool) : result unit :=
  if c then Ok tt else AssertFailed.

(* ===================================================================== *)
(** * Strings: [trim], [extractSuffix], [parseInput] *)
(* ===================================================================== *)

Open Scope string_scope.

(** Is [c] one of the characters of [set]? *)
Fixpoint char_in (c : ascii) (set : string) : bool :=
  match set with
  | EmptyString => false
  | String d set' => Ascii.eqb c d || char_in c set'
  end.

(** [s.find_first_not_of(set)]; [None] is [npos]. *)
Fixpoint find_first_not_of (set s : string) : option nat :=
  match s with
  | EmptyString => None
  | String c s' =>
      if char_in c set then option_map S (find_first_not_of set s')
      else Some 0%nat
  end.

(** [s.find_last_not_of(set)]; [None] is [npos]. *)
Fixpoint find_last_not_of (set s : string) : option nat :=
  match s with
  | EmptyString => None
  | String c s' =>
      match find_last_not_of set s' with
      | Some i => Some (S i)
      | None => if char_in c set then None else Some 0%nat
      end
  end.

(** [s.substr(pos, count)]: [count] characters from [pos], fewer when the
    string ends first.  The callers below pass [pos <= s.size()], so the
    [out_of_range] exception is not modelled. *)
Definition substr (s : string) (pos count : nat) : string :=
  substring pos count s.

(** [s.substr(pos)] *)
Definition substr_from (s : string) (pos : nat) : string :=
  substring pos (String.length s) s.

Definition tab : ascii := ascii_of_nat 9.

Definition trim (s : string) : string :=
  let pattern := String " " (String tab EmptyString) in
  let b := find_first_not_of pattern s in
  let e := find_last_not_of pattern s in
  match b, e with
  | Some b, Some e => substr s b (e + 1)
  | _, _ => ""
  end.

(** [isspace] in the "C" locale: space, and the controls 9 to 13. *)
Definition isspace (c : ascii) : bool :=
  let n := nat_of_ascii c in
  (n =? 32)%nat || ((9 <=? n)%nat && (n <=? 13)%nat).

(** [str.compare(0, length, prefix) == 0] *)
Definition compare_prefix (str : string) (length : nat) (prefix : string) : bool :=
  String.eqb (substr str 0 length) prefix.

(** [extractSuffix(str, prefix, suffix)]: [Some suffix] when it returns
    true. *)
Definition extractSuffix (str prefix : string) : option string :=
  let length := String.length prefix in
  if compare_prefix str length prefix
     && (length <? String.length str)%nat
     && match String.get length str with
        | Some c => isspace c
        | None => false
        end
  then Some (trim (substr_from str length))
  else None.

Record ProjectInput : Type := {
  paths : list string;
  include : list string;
  exclude : list string;
  files_in : list string;
}.

(** The body of the [getline] loop of [parseInput]. *)
Definition parseLine (acc : ProjectInput) (line : string) : ProjectInput :=
  let line :=
    match index 0 "#" line with
    | Some shp => substr line 0 shp
    | None => line
    end in
  match extractSuffix line "path" with
  | Some suffix =>
      {| paths := paths acc ++ [suffix]; include := include acc;
         exclude := exclude acc; files_in := files_in acc |}
  | None =>
  match extractSuffix line "include" with
  | Some suffix =>
      {| paths := paths acc; include := include acc ++ [suffix];
         exclude := exclude acc; files_in := files_in acc |}
  | None =>
  match extractSuffix line "exclude" with
  | Some suffix =>
      {| paths := paths acc; include := include acc;
         exclude := exclude acc ++ [suffix]; files_in := files_in acc |}
  | None =>
      let file := trim line in
      if String.eqb file "" then acc
      else {| paths := paths acc; include := include acc;
              exclude := exclude acc; files_in := files_in acc ++ [file] |}
  end end end.

(** [parseInput] over the lines [getline] yields. *)
Definition parseInput (lines : list string) : ProjectInput :=
  fold_left parseLine lines
    {| paths := []; include := []; exclude := []; files_in := [] |}.

(* ===================================================================== *)
(** * Data model *)
(* ===================================================================== *)

Open Scope Z_scope.

(** [Builder::File] *)
Module File.
Record t : Type := {
  name : string;
  contents : list byte;
  fileSize : Z;
  timeStamp : Z;
}.
End File.

(** [Builder::Chunk]; [Chunk()] is [Chunk.empty]. *)
Module Chunk.
Record t : Type := {
  files : list File.t;
  totalSize : Z;
}.
Definition empty : t := {| files := []; totalSize := 0 |}.
End Chunk.

(** [Builder::Statistics]; [Statistics()] is [Statistics.zero]. *)
Module Statistics.
Record t : Type := {
  fileCount : Z;
  fileSize : Z;
  resultSize : Z;
}.
Definition zero : t := {| fileCount := 0; fileSize := 0; resultSize := 0 |}.
End Statistics.

(** Modelled from the spec: [ChunkFileHeader] of [format.hpp], which is not
    among the sources.  One entry of the header table records the name
    offset, name length, data offset, data size, original file size and
    timestamp.  A field holds the value the code assigns to it; how wide the
    field is stored is part of the entry's bytes
    ([chunkFileHeaderBytes]). *)
Module ChunkFileHeader.
Record t : Type := {
  nameOffset : Z;
  nameLength : Z;
  dataOffset : Z;
  dataSize : Z;
  fileSize : Z;
  timeStamp : Z;
}.
End ChunkFileHeader.

(** Modelled from the spec: [ChunkHeader] of [format.hpp], which is not
    among the sources.  It records the file count of the chunk, the
    uncompressed body size and the compressed body size. *)
Module ChunkHeader.
Record t : Type := {
  fileCount : Z;
  uncompressedSize : Z;
  compressedSize : Z;
}.
End ChunkHeader.

(** What [format.hpp] and [constants.hpp] fix and [build.cpp] only uses:
    the bytes of a [FileHeader] whose magic is [kFileHeaderMagic], the
    bytes of a [ChunkHeader] and of a [ChunkFileHeader] (their object
    representations, padding zeroed), [sizeof(ChunkFileHeader)] and the
    chunk threshold [kChunkSize]. *)
Class Format : Type := {
  fileHeaderBytes : list byte;
  chunkHeaderBytes : ChunkHeader.t -> list byte;
  sizeofChunkFileHeader : nat;
  chunkFileHeaderBytes : ChunkFileHeader.t -> list byte;
  kChunkSize : Z;
}.

(* ===================================================================== *)
(** * The chunk layout encoder: [Builder::prepareChunkData] *)
(* ===================================================================== *)

(** The characters of a [std::string]. *)
Definition chars (s : string) : list byte := list_byte_of_string s.

(** [std::copy(src.begin(), src.end(), dst.begin() + pos)]: element [k] of
    [src] is stored at [dst[pos + k]].  A store past the end of [dst] is
    undefined in C++ and dropped here; by [prepareLoop_step] every store of
    the encoder falls inside the buffer when the body size fits
    [size_t]. *)
Definition copy_at (src : list byte) (pos : Z) (dst : list byte) : list byte :=
  list_inserts (Z.to_nat pos) src dst.

Definition getChunkNameTotalSize (chunk : Chunk.t) : Z :=
  fold_left (fun result f => size_add result (ssize (File.name f)))
            (Chunk.files chunk) 0.

Definition getChunkDataTotalSize (chunk : Chunk.t) : Z :=
  fold_left (fun result f => size_add result (size (File.contents f)))
            (Chunk.files chunk) 0.

Section Layout.
Context `{Format}.

(** [sizeof(ChunkFileHeader) * chunk.files.size()] *)
Definition headerSizeOf (chunk : Chunk.t) : Z :=
  size_mul (Z.of_nat sizeofChunkFileHeader) (size (Chunk.files chunk)).

(** [headerSize + nameSize + dataSize] *)
Definition totalSizeOf (chunk : Chunk.t) : Z :=
  size_add (size_add (headerSizeOf chunk) (getChunkNameTotalSize chunk))
           (getChunkDataTotalSize chunk).

(** The state of the [for] loop of [prepareChunkData]. *)
Record Walk : Type := {
  nameOffset : Z;
  dataOffset : Z;
  data : list byte;
}.

(** The iterations of the loop from index [i] on, over the files not yet
    visited. *)
Fixpoint prepareLoop (i : nat) (fs : list File.t) (w : Walk) : Walk :=
  match fs with
  | [] => w
  | f :: fs' =>
      let data := copy_at (chars (File.name f)) (nameOffset w) (data w) in
      let data := copy_at (File.contents f) (dataOffset w) data in
      let h := {| ChunkFileHeader.nameOffset := nameOffset w;
                  ChunkFileHeader.nameLength := ssize (File.name f);
                  ChunkFileHeader.dataOffset := dataOffset w;
                  ChunkFileHeader.dataSize := size (File.contents f);
                  ChunkFileHeader.fileSize := File.fileSize f;
                  ChunkFileHeader.timeStamp := File.timeStamp f |} in
      let data :=
        copy_at (chunkFileHeaderBytes h)
                (Z.of_nat (i * sizeofChunkFileHeader)) data in
      prepareLoop (S i) fs'
        {| nameOffset := size_add (nameOffset w) (ssize (File.name f));
           dataOffset := size_add (dataOffset w) (size (File.contents f));
           data := data |}
  end.

(** [prepareChunkData] up to its [assert]: the buffer is allocated zeroed,
    the cursors start at [headerSize] and [headerSize + nameSize], and the
    files are walked once. *)
Definition layoutWalk (chunk : Chunk.t) : Walk :=
  let headerSize := headerSizeOf chunk in
  let nameSize := getChunkNameTotalSize chunk in
  let totalSize := totalSizeOf chunk in
  prepareLoop 0 (Chunk.files chunk)
    {| nameOffset := headerSize;
       dataOffset := size_add headerSize nameSize;
       data := replicate (Z.to_nat totalSize) x00 |}.

Definition prepareChunkData (chunk : Chunk.t) : result (list byte) :=
  let headerSize := headerSizeOf chunk in
  let nameSize := getChunkNameTotalSize chunk in
  let totalSize := totalSizeOf chunk in
  let w := layoutWalk chunk in
  do _ <- assert ((nameOffset w =? size_add headerSize nameSize)
                  && (dataOffset w =? totalSize));
  Ok (data w).

End Layout.

(* ===================================================================== *)
(** * The codec adapter: [Builder::compressData] *)
(* ===================================================================== *)

(** The two functions of [lz4.h] and [lz4hc.h] that [build.cpp] calls.
    [LZ4_compressBound(isize)] maps an [int] to an [int].
    [LZ4_compressHC(source, dest, isize)] returns an [int] and stores bytes
    into [dest] from its start on: the pair is the returned value and the
    bytes stored.  With [assert] compiled in, as here, a size out of the
    bound ends the process. *)
Class Codec : Type := {
  LZ4_compressBound : Z -> Z;
  LZ4_compressHC : list byte -> Z -> Z * list byte;
}.

Section CodecAdapter.
Context `{Codec}.

(** The size of the vector [cdata(LZ4_compressBound(data.size()))]: the
    argument is converted to [int], the result to [size_t]. *)
Definition scratchSize (data : list byte) : Z :=
  to_size_t (LZ4_compressBound (to_int (size data))).

(** The vector [cdata] as allocated. *)
Definition scratch (data : list byte) : list byte :=
  replicate (Z.to_nat (scratchSize data)) x00.

(** The value [csize] returned by the compressor. *)
Definition compressedSizeOf (data : list byte) : Z :=
  fst (LZ4_compressHC data (to_int (size data))).

(** The vector [cdata] after the call of the compressor. *)
Definition compressedScratch (data : list byte) : list byte :=
  copy_at (snd (LZ4_compressHC data (to_int (size data)))) 0 (scratch data).

Definition compressData (data : list byte) : result (list byte) :=
  let cdata := compressedScratch data in
  let csize := compressedSizeOf data in
  do _ <- assert ((0 <=? csize) && (to_size_t csize <=? size cdata));
  Ok (resize (Z.to_nat (to_size_t csize)) x00 cdata).

End CodecAdapter.

(* ===================================================================== *)
(** * The file system and streams *)
(* ===================================================================== *)

(** What the run sees of the file system, through [std::ifstream],
    [std::ofstream] and [fileutil.hpp].  The files do not change during the
    run.
    - [readFile path]: the bytes the reads deliver when [ifstream in(path)]
      opens, [None] when it does not;
    - [readFails path]: a read of the open stream fails before the end of
      the file is reached, as every read of a directory does;
    - [readLines path]: the lines [getline] yields, or [None];
    - [getFileAttributes path]: the pair (timeStamp, fileSize), or [None]
      when the call returns false;
    - [canWrite path]: does opening [path] for writing succeed;
    - [traverseDirectory root]: the paths handed to the callback, in order;
    - [replaceExtension], [renameFile]: as named. *)
Record FileSystem : Type := {
  readFile : string -> option (list byte);
  readFails : string -> bool;
  readLines : string -> option (list string);
  getFileAttributes : string -> option (Z * Z);
  canWrite : string -> bool;
  traverseDirectory : string -> list string;
  replaceExtension : string -> string -> string;
  renameFile : string -> string -> bool;
}.

(** [sizeof(buffer)] in [appendFile]. *)
Definition bufferSize : nat := Z.to_nat 65536.

Lemma bufferSize_pos : (0 < bufferSize)%nat.
Proof. unfold bufferSize. apply (Z2Nat.inj_lt 0 65536); lia. Qed.

Opaque bufferSize.

(** [std::ifstream] open on a file, as [appendFile] uses it: the bytes
    not read yet; whether the read that follows them fails instead of
    reaching the end of the file; [eofbit]; and whether [failbit] or
    [badbit] is set. *)
Module ifstream.
Record t : Type := {
  pending : list byte;
  breaks : bool;
  eofbit : bool;
  failed : bool;
}.

(** The stream right after [std::ifstream in(path)] has opened the file. *)
Definition opened (bytes : list byte) (breaks : bool) : t :=
  {| pending := bytes; breaks := breaks; eofbit := false; failed := false |}.

(** [in.read(buffer, n)]: the bytes stored, [in.gcount()] of them, and the
    stream afterwards.  A stream that is not good stores nothing and sets
    [failbit].  With [n] bytes left or more, [n] bytes are stored.  With
    fewer left, they are stored and [eofbit] and [failbit] are set, unless
    the read fails: then nothing is counted and [badbit] is set, not
    [eofbit]. *)
Definition read (n : nat) (s : t) : list byte * t :=
  if eofbit s || failed s then
    ([], {| pending := pending s; breaks := breaks s;
            eofbit := eofbit s; failed := true |})
  else if decide (n <= length (pending s))%nat then
    (take n (pending s),
     {| pending := drop n (pending s); breaks := breaks s;
        eofbit := false; failed := false |})
  else if breaks s then
    ([], {| pending := pending s; breaks := true;
            eofbit := false; failed := true |})
  else
    (pending s, {| pending := []; breaks := false;
                   eofbit := true; failed := true |}).
End ifstream.

(** The loop [while (!in.eof())] of [appendFile], for at most [fuel]
    iterations: [in.read] takes up to [bufferSize] bytes and [gcount] of
    them are appended to [contents].  [None]: the loop has not ended
    yet. *)
Fixpoint readLoop (fuel : nat) (s : ifstream.t) (contents : list byte)
  : option (list byte) :=
  if ifstream.eofbit s then Some contents
  else match fuel with
       | O => None
       | S fuel' =>
           let (got, s') := ifstream.read bufferSize s in
           readLoop fuel' s' (contents ++ got)
       end.

(** The loop as a whole: the contents it collects, or [Diverges] when it
    never ends.  One iteration more than there are bytes pending decides
    which ([readAll_returns], [readAll_diverges]). *)
Definition readAll (s : ifstream.t) : result (list byte) :=
  match readLoop (S (length (ifstream.pending s))) s [] with
  | Some contents => Ok contents
  | None => Diverges
  end.

(** [std::ofstream]: is a file open, is [failbit] or [badbit] set, and the
    bytes written to the file so far.  The disk itself never fails. *)
Module ofstream.
Record t : Type := {
  is_open : bool;
  failed : bool;
  written : list byte;
}.

Definition closed : t := {| is_open := false; failed := false; written := [] |}.

(** [s.open(path, out | binary)], [ok] telling whether the file can be
    opened: a stream that is open already fails, a new file is truncated. *)
Definition open (ok : bool) (s : t) : t :=
  if is_open s then {| is_open := true; failed := true; written := written s |}
  else if ok then {| is_open := true; failed := false; written := [] |}
  else {| is_open := false; failed := true; written := written s |}.

(** [s.write(p, n)]: nothing is written in a failed state; writing to a
    stream that is not open fails. *)
Definition write (bytes : list byte) (s : t) : t :=
  if failed s then s
  else if is_open s
       then {| is_open := true; failed := false; written := written s ++ bytes |}
       else {| is_open := false; failed := true; written := written s |}.
End ofstream.

(* ===================================================================== *)
(** * The builder *)
(* ===================================================================== *)

Module Builder.
Record t : Type := {
  currentChunk : Chunk.t;
  outData : ofstream.t;
  statistics : Statistics.t;
}.

(** [Builder()] *)
Definition new : t :=
  {| currentChunk := Chunk.empty; outData := ofstream.closed;
     statistics := Statistics.zero |}.
End Builder.

Section BuilderOps.
Context `{Format} `{Codec}.

Definition start (fs : FileSystem) (path : string) (b : Builder.t)
  : bool * Builder.t :=
  let out := ofstream.open (canWrite fs path) (Builder.outData b) in
  if ofstream.failed out
  then (false, {| Builder.currentChunk := Builder.currentChunk b;
                  Builder.outData := out;
                  Builder.statistics := Builder.statistics b |})
  else (true, {| Builder.currentChunk := Builder.currentChunk b;
                 Builder.outData := ofstream.write fileHeaderBytes out;
                 Builder.statistics := Builder.statistics b |}).

Definition writeChunk (chunk : Chunk.t) (data : list byte) (b : Builder.t)
  : result Builder.t :=
  do cdata <- compressData data;
  let header := {| ChunkHeader.fileCount := size (Chunk.files chunk);
                   ChunkHeader.uncompressedSize := size data;
                   ChunkHeader.compressedSize := size cdata |} in
  let out := ofstream.write (chunkHeaderBytes header) (Builder.outData b) in
  let out := ofstream.write cdata out in
  let s := Builder.statistics b in
  Ok {| Builder.currentChunk := Builder.currentChunk b;
        Builder.outData := out;
        Builder.statistics :=
          {| Statistics.fileCount :=
               size_add (Statistics.fileCount s) (size (Chunk.files chunk));
             Statistics.fileSize := size_add (Statistics.fileSize s) (size data);
             Statistics.resultSize :=
               size_add (Statistics.resultSize s) (size cdata) |} |}.

Definition flushChunk (b : Builder.t) : result Builder.t :=
  match Chunk.files (Builder.currentChunk b) with
  | [] => Ok b
  | _ :: _ =>
      do data <- prepareChunkData (Builder.currentChunk b);
      do b <- writeChunk (Builder.currentChunk b) data b;
      Ok {| Builder.currentChunk := Chunk.empty;
            Builder.outData := Builder.outData b;
            Builder.statistics := Builder.statistics b |}
  end.

(** The first statement of [appendFile]:
    [if (currentChunk.totalSize > kChunkSize) flushChunk();] *)
Definition flushIfOver (b : Builder.t) : result Builder.t :=
  if kChunkSize <? Chunk.totalSize (Builder.currentChunk b)
  then flushChunk b else Ok b.

Definition appendFile (fs : FileSystem) (path : string) (b : Builder.t)
  : result (bool * Builder.t) :=
  do b <- flushIfOver b;
  match readFile fs path with
  | None => Ok (false, b)
  | Some bytes =>
      match getFileAttributes fs path with
      | None => Ok (false, b)
      | Some (timeStamp, fileSize) =>
          do contents <- readAll (ifstream.opened bytes (readFails fs path));
          let file := {| File.name := path;
                         File.contents := contents;
                         File.fileSize := fileSize;
                         File.timeStamp := timeStamp |} in
          let chunk := Builder.currentChunk b in
          Ok (true,
              {| Builder.currentChunk :=
                   {| Chunk.files := Chunk.files chunk ++ [file];
                      Chunk.totalSize :=
                        size_add (Chunk.totalSize chunk)
                                 (size (File.contents file)) |};
                 Builder.outData := Builder.outData b;
                 Builder.statistics := Builder.statistics b |})
      end
  end.

Definition flush (b : Builder.t) : result Builder.t := flushChunk b.

(** [~Builder()] *)
Definition destroy (b : Builder.t) : result Builder.t := flush b.

End BuilderOps.

(* ===================================================================== *)
(** * File selection: [constructOrRE], [isFileAcceptable], [buildProject] *)
(* ===================================================================== *)

(** What [re2.h] provides: the compiled expression [RE2] made from a
    pattern and the [case_sensitive] option, [ok()], and
    [RE2::PartialMatch(text, re)]. *)
Class Regex : Type := {
  RE2 : Type;
  RE2_new : string -> bool -> RE2;
  RE2_ok : RE2 -> bool;
  PartialMatch : string -> RE2 -> bool;
}.

(** The pattern string [constructOrRE] builds from a list that is not
    empty. *)
Definition orPattern (first : string) (rest : list string) : string :=
  fold_left (fun re p => re +:+ ("|(" +:+ p +:+ ")")) rest
            ("(" +:+ first +:+ ")").

Section Selection.
Context `{Regex}.

(** [constructOrRE]: the null pointer is [None]; a pattern that does not
    compile is [fatal]. *)
Definition constructOrRE (list : list string) : result (option RE2) :=
  match list with
  | [] => Ok None
  | first :: rest =>
      let r := RE2_new (orPattern first rest) false in
      if negb (RE2_ok r) then Fatal else Ok (Some r)
  end.

(** [isFileAcceptable], on the two expressions of the [BuilderContext]. *)
Definition isFileAcceptable (include exclude : option RE2) (path : string)
  : bool :=
  if match include with
     | Some re => negb (PartialMatch path re)
     | None => false
     end
  then false
  else if match exclude with
          | Some re => PartialMatch path re
          | None => false
          end
  then false
  else true.

(** The scan loop of [buildProject]: every root of [pathSet] is traversed
    and each acceptable path is pushed onto [files]. *)
Definition scanFolders (fs : FileSystem) (include exclude : option RE2)
    (pathSet : list string) (files : list string) : list string :=
  fold_left
    (fun files root =>
       fold_left
         (fun files path =>
            if isFileAcceptable include exclude path then (files ++ [path])%list
            else files)
         (traverseDirectory fs root) files)
    pathSet files.

End Selection.

(** [std::sort] on a vector of strings: ascending in the order of
    [std::string], which compares characters as unsigned values and puts a
    proper prefix first.  Equal strings cannot be told apart, so the result
    is the one sorted arrangement of the input ([std_sort_unique]). *)
Definition std_sort (l : list string) : list string := merge_sort String.le l.

(** [v.erase(std::unique(v.begin(), v.end()), v.end())]: of every run of
    equal neighbours the first is kept. *)
Fixpoint unique (l : list string) : list string :=
  match l with
  | [] => []
  | x :: l' =>
      match l' with
      | [] => [x]
      | y :: _ => if String.eqb x y then unique l' else x :: unique l'
      end
  end.

(* ===================================================================== *)
(** * Progress report: [printStatistics] *)
(* ===================================================================== *)

(** Conversion to [uint32_t]. *)
Definition to_uint32 (z : Z) : Z := z mod 2 ^ 32.

(** The values [printStatistics] hands to [printf]: the percentage, the
    file count, and the megabytes in and out. *)
Record Progress : Type := {
  percent : Z;
  filesDone : Z;
  mbIn : Z;
  mbOut : Z;
}.

(** [printStatistics(fileCount, s)], the static [lastResultSize] being
    passed in and out.  The result is the new [lastResultSize] and the
    line printed, if any; [None] stands for the division by zero, which
    is undefined ([report] below gives it as a [result]).  [s.fileCount * 100 / fileCount] is computed in
    [size_t] and converted to [int]. *)
Definition printStatistics (lastResultSize : Z) (fileCount : Z)
    (s : Statistics.t) : option (Z * option Progress) :=
  if lastResultSize =? Statistics.resultSize s
  then Some (lastResultSize, None)
  else if fileCount =? 0 then None
  else Some (Statistics.resultSize s,
             Some {| percent :=
                       to_int (size_mul (Statistics.fileCount s) 100
                               / fileCount);
                     filesDone := Statistics.fileCount s;
                     mbIn := to_int (Statistics.fileSize s / 1024 / 1024);
                     mbOut := to_int (Statistics.resultSize s / 1024 / 1024)
                  |}).

(** The calls [printStatistics(bc.files.size(), bc.builder.getStatistics())]
    of [builderAppend] and [buildProject]: the size of the list is
    converted to [uint32_t]. *)
Definition printProgress (lastResultSize : Z) (files : list string)
    (b : Builder.t) : option (Z * option Progress) :=
  printStatistics lastResultSize (to_uint32 (size files))
                  (Builder.statistics b).

(** [printStatistics] as a step of the build: the new value of the static
    [lastResultSize], or the undefined division. *)
Definition report (lastResultSize fileCount : Z) (s : Statistics.t)
  : result Z :=
  match printStatistics lastResultSize fileCount s with
  | Some (last, _) => Ok last
  | None => Undefined
  end.

(** What a build changes of the process: the builder of the
    [BuilderContext] and the static [lastResultSize] of
    [printStatistics]. *)
Module Run.
Record t : Type := {
  builder : Builder.t;
  lastResultSize : Z;
}.
End Run.

Section Project.
Context `{Format} `{Codec} `{Regex}.

(** The list [bc.files] that [buildProject] hands to the builder. *)
Definition projectFiles (fs : FileSystem) (include exclude : option RE2)
    (pathSet fileSet : list string) : list string :=
  unique (std_sort (scanFolders fs include exclude pathSet fileSet)).

(** One call of [appendFile] whose return value is not used, as in
    [builderAppend]. *)
Definition appendOne (fs : FileSystem) (b : Builder.t) (path : string)
  : result Builder.t :=
  do r <- appendFile fs path b;
  Ok (snd r).

(** A run of appends: the calls of [appendFile] on the paths [files], one
    after the other. *)
Definition appendAll (fs : FileSystem) (files : list string) (b : Builder.t)
  : result Builder.t :=
  fold_left (fun rb path => do b <- rb; appendOne fs b path) files (Ok b).

(** [builderAppend(bc, path)], [files] being [bc.files]: when
    [appendFile] returns false the file is reported and the build goes on;
    the progress is printed with the size of [bc.files] converted to
    [uint32_t]. *)
Definition builderAppend (fs : FileSystem) (files : list string)
    (st : Run.t) (path : string) : result Run.t :=
  do r <- appendFile fs path (Run.builder st);
  do last <- report (Run.lastResultSize st) (to_uint32 (size files))
                    (Builder.statistics (snd r));
  Ok {| Run.builder := snd r; Run.lastResultSize := last |}.

(** The loop of [buildProject] over [bc.files], from the paths [todo]
    on. *)
Definition appendLoop (fs : FileSystem) (files todo : list string)
    (st : Run.t) : result Run.t :=
  fold_left (fun r path => do st <- r; builderAppend fs files st path)
            todo (Ok st).

(** The end of [buildProject], from the loop over [bc.files] on: the
    files are handed to the builder one by one, the builder is flushed,
    the progress is printed a last time, the builder is destroyed with its
    context and the output is renamed. *)
Definition buildFiles (fs : FileSystem) (tempPath targetPath : string)
    (files : list string) (b0 : Builder.t) (lastResultSize : Z)
  : result Run.t :=
  do st <- appendLoop fs files files
             {| Run.builder := b0; Run.lastResultSize := lastResultSize |};
  do b <- flush (Run.builder st);
  do last <- report (Run.lastResultSize st) (to_uint32 (size files))
                    (Builder.statistics b);
  do b <- destroy b;
  if negb (renameFile fs tempPath targetPath) then Fatal
  else Ok {| Run.builder := b; Run.lastResultSize := last |}.

(** [buildProject], the static [lastResultSize] of [printStatistics]
    being passed in: the builder as it is destroyed and the new value of
    the static, or how the call ends otherwise. *)
Definition buildProject (fs : FileSystem) (file : string)
    (lastResultSize : Z) : result Run.t :=
  match readLines fs file with
  | None => Fatal
  | Some lines =>
      let input := parseInput lines in
      let targetPath := replaceExtension fs file ".qgd" in
      let tempPath := targetPath +:+ "_" in
      do include <- constructOrRE (include input);
      do exclude <- constructOrRE (exclude input);
      let started := start fs tempPath Builder.new in
      if negb (fst started) then Fatal
      else
        let files :=
          projectFiles fs include exclude (paths input) (files_in input) in
        buildFiles fs tempPath targetPath files (snd started)
                   lastResultSize
  end.

End Project.


(* ===================================================================== *)
(** * The encoded chunk body as the format describes it *)
(* ===================================================================== *)

(** The plain sums of the name lengths and of the content lengths. *)
Definition nameBytes (fs : list File.t) : nat :=
  sum_list_with (fun f => String.length (File.name f)) fs.

Definition dataBytes (fs : list File.t) : nat :=
  sum_list_with (fun f => length (File.contents f)) fs.

(** The bytes of [buf] at [pos, pos + len). *)
Definition slice (buf : list byte) (pos len : Z) : list byte :=
  take (Z.to_nat len) (drop (Z.to_nat pos) buf).

Section BodyFormat.
Context `{Format}.

(** The size of the body of a chunk, not reduced. *)
Definition bodyBytes (fs : list File.t) : nat :=
  length fs * sizeofChunkFileHeader + nameBytes fs + dataBytes fs.

(** The header entry of file [i] of [fs], which is [f]: the offsets count
    from the start of the body, past the table and past the names and
    contents of the files before [i]. *)
Definition entryAt (fs : list File.t) (i : nat) (f : File.t)
  : ChunkFileHeader.t :=
  {| ChunkFileHeader.nameOffset :=
       Z.of_nat (length fs * sizeofChunkFileHeader + nameBytes (take i fs));
     ChunkFileHeader.nameLength := ssize (File.name f);
     ChunkFileHeader.dataOffset :=
       Z.of_nat (length fs * sizeofChunkFileHeader + nameBytes fs
                 + dataBytes (take i fs));
     ChunkFileHeader.dataSize := size (File.contents f);
     ChunkFileHeader.fileSize := File.fileSize f;
     ChunkFileHeader.timeStamp := File.timeStamp f |}.

(** The table entries of the files [done], a prefix of [all]. *)
Definition tableOf (all done : list File.t) : list byte :=
  mjoin (imap (fun i f => chunkFileHeaderBytes (entryAt all i f)) done).

(** The three regions of the body, in the order of the files. *)
Definition headerTable (fs : list File.t) : list byte := tableOf fs fs.

Definition nameRegion (fs : list File.t) : list byte :=
  mjoin (map (fun f => chars (File.name f)) fs).

Definition dataRegion (fs : list File.t) : list byte :=
  mjoin (map File.contents fs).

Definition encodedBody (fs : list File.t) : list byte :=
  headerTable fs ++ nameRegion fs ++ dataRegion fs.

(** Every header entry takes [sizeof(ChunkFileHeader)] bytes. *)
Definition entries_sized : Prop :=
  forall h, length (chunkFileHeaderBytes h) = sizeofChunkFileHeader.

End BodyFormat.

(* ===================================================================== *)
(** * Notions used to state the behaviour of the builder *)
(* ===================================================================== *)

(** The output stream is open and has not failed: the builder is in use
    after a successful [start]. *)
Definition stream_ok (s : ofstream.t) : Prop :=
  ofstream.is_open s = true /\ ofstream.failed s = false.

(** [totalSize] is the sum of the content sizes, as [size_t] computes it. *)
Definition chunk_consistent (c : Chunk.t) : Prop :=
  Chunk.totalSize c = wrap (Z.of_nat (dataBytes (Chunk.files c))).

(** One chunk record of the archive: a [ChunkHeader] holding the file
    count, the size of the body and the size of the compressed body,
    followed by the compressed body. *)
Definition chunkRecord `{Format} (fileCount : Z) (body cdata : list byte)
  : list byte :=
  chunkHeaderBytes {| ChunkHeader.fileCount := fileCount;
                      ChunkHeader.uncompressedSize := size body;
                      ChunkHeader.compressedSize := size cdata |}
  ++ cdata.

(** The statistics after one more chunk. *)
Definition countChunk (s : Statistics.t) (fileCount : Z) (body cdata : list byte)
  : Statistics.t :=
  {| Statistics.fileCount := size_add (Statistics.fileCount s) fileCount;
     Statistics.fileSize := size_add (Statistics.fileSize s) (size body);
     Statistics.resultSize := size_add (Statistics.resultSize s) (size cdata) |}.

(** The builder after its current chunk, whose body is [body] and whose
    compressed body is [cdata], has been written: one chunk record more in
    the output, the statistics counted up, the current chunk empty. *)
Definition afterFlush `{Format} (b : Builder.t) (body cdata : list byte)
  : Builder.t :=
  let n := size (Chunk.files (Builder.currentChunk b)) in
  {| Builder.currentChunk := Chunk.empty;
     Builder.outData :=
       {| ofstream.is_open := true; ofstream.failed := false;
          ofstream.written :=
            (ofstream.written (Builder.outData b)
             ++ chunkRecord n body cdata)%list |};
     Builder.statistics := countChunk (Builder.statistics b) n body cdata |}.

(** The builder with the file [f] pushed onto its current chunk. *)
Definition pushFile (b : Builder.t) (f : File.t) : Builder.t :=
  {| Builder.currentChunk :=
       {| Chunk.files := Chunk.files (Builder.currentChunk b) ++ [f];
          Chunk.totalSize :=
            size_add (Chunk.totalSize (Builder.currentChunk b))
                     (size (File.contents f)) |};
     Builder.outData := Builder.outData b;
     Builder.statistics := Builder.statistics b |}.

(** The record [appendFile] makes of a file it has read. *)
Definition fileRecord (path : string) (bytes : list byte) (attrs : Z * Z)
  : File.t :=
  {| File.name := path; File.contents := bytes;
     File.fileSize := snd attrs; File.timeStamp := fst attrs |}.

(* ===================================================================== *)
(** * Notions used to state the selection and the parsing *)
(* ===================================================================== *)

(** The alternation [(p1)|(p2)|...] of a list of patterns. *)
Definition alternation (l : list string) : string :=
  String.concat "|" (map (fun p => "(" +:+ p +:+ ")") l).

(** The rest of an alternation after its first pattern. *)
Fixpoint moreAlternatives (rest : list string) : string :=
  match rest with
  | [] => ""
  | p :: rest' => ("|(" +:+ p +:+ ")") +:+ moreAlternatives rest'
  end.

(** Strictly ascending in the order of [std::string]: ascending and
    different. *)
Definition string_lt (a b : string) : Prop := String.le a b /\ a <> b.

(** The candidates of the scans, root after root, in the order found. *)
Definition candidates (fs : FileSystem) (pathSet : list string) : list string :=
  mjoin (map (traverseDirectory fs) pathSet).

(** What trimming asks for: the part of [s] from its first to its last
    character that is neither a space nor a tab. *)
Definition trimmed (s : string) : string :=
  let pattern := String " " (String tab EmptyString) in
  match find_first_not_of pattern s, find_last_not_of pattern s with
  | Some b, Some e => substring b (e + 1 - b) s
  | _, _ => ""
  end.

(* ===================================================================== *)
(** * Instances for examples *)
(* ===================================================================== *)

(** The declarations that [build.cpp] takes from other files are
    parameters of the development.  The instances below give them values so
    that the functions can be run on examples: a packed little-endian
    format, a codec that stores its input, literal patterns, and a small
    file system. *)

Definition byte_of_Z (z : Z) : byte :=
  default x00 (Byte.of_N (Z.to_N (z mod 256))).

(** The [n] low bytes of [z], least significant first. *)
Fixpoint le_bytes (n : nat) (z : Z) : list byte :=
  match n with
  | O => []
  | S n' => byte_of_Z z :: le_bytes n' (z / 256)
  end.

(** Three 32-bit counts per chunk header; four 32-bit and two 64-bit
    fields per file entry, 32 bytes. *)
Definition packedFormat (threshold : Z) : Format :=
  {| fileHeaderBytes := chars "QGD0";
     chunkHeaderBytes h :=
       (le_bytes 4 (ChunkHeader.fileCount h)
        ++ le_bytes 4 (ChunkHeader.uncompressedSize h)
        ++ le_bytes 4 (ChunkHeader.compressedSize h))%list;
     sizeofChunkFileHeader := 32;
     chunkFileHeaderBytes h :=
       (le_bytes 4 (ChunkFileHeader.nameOffset h)
        ++ le_bytes 4 (ChunkFileHeader.nameLength h)
        ++ le_bytes 4 (ChunkFileHeader.dataOffset h)
        ++ le_bytes 4 (ChunkFileHeader.dataSize h)
        ++ le_bytes 8 (ChunkFileHeader.fileSize h)
        ++ le_bytes 8 (ChunkFileHeader.timeStamp h))%list;
     kChunkSize := threshold |}.

(** A codec that stores: the bound is that of LZ4 in the arithmetic of
    [int], whose division truncates; the output is the input. *)
Definition storeCodec : Codec :=
  {| LZ4_compressBound isize := isize + Z.quot isize 255 + 16;
     LZ4_compressHC source isize := (isize, take (Z.to_nat isize) source) |}.

(** Does [text] contain [pat]? *)
Fixpoint contains (pat text : string) : bool :=
  String.prefix pat text
  || match text with
     | EmptyString => false
     | String _ text' => contains pat text'
     end.

(** Patterns are matched as literal text, whatever the case option. *)
Definition literalRegex : Regex :=
  {| RE2 := string;
     RE2_new pattern _ := pattern;
     RE2_ok _ := true;
     PartialMatch text re := contains re text |}.

Definition ten (b : byte) : list byte := replicate 10 b.

(** Three files of ten bytes each, [d.txt] without attributes, and a
    folder [src] whose scan yields [b.txt] and [a.txt]; as a stream the
    folder opens and every read of it fails.  The project [x.cfg] scans
    the folder, [dir.cfg] lists it as a file, [empty.cfg] is empty. *)
Definition exampleFS : FileSystem :=
  {| readFile path :=
       if String.eqb path "a.txt" then Some (ten x61)
       else if String.eqb path "b.txt" then Some (ten x62)
       else if String.eqb path "c.txt" then Some (ten x63)
       else if String.eqb path "d.txt" then Some (ten x64)
       else if String.eqb path "src" then Some []
       else None;
     readFails path := String.eqb path "src";
     readLines path :=
       if String.eqb path "x.cfg" then Some ["path src"; "c.txt"; "a.txt"]
       else if String.eqb path "dir.cfg" then Some ["a.txt"; "src"]
       else if String.eqb path "empty.cfg" then Some []
       else None;
     getFileAttributes path :=
       if String.eqb path "d.txt" then None else Some (1700000000, 10);
     canWrite _ := true;
     traverseDirectory root :=
       if String.eqb root "src" then ["b.txt"; "a.txt"] else [];
     replaceExtension path ext := path +:+ ext;
     renameFile _ _ := true |}.

(** The files [a.txt] holding [hi] and [b.txt] holding [world]. *)
Definition exampleChunk : Chunk.t :=
  {| Chunk.files :=
       [ {| File.name := "a.txt"; File.contents := chars "hi";
            File.fileSize := 2; File.timeStamp := 1700000000 |};
         {| File.name := "b.txt"; File.contents := chars "world";
            File.fileSize := 5; File.timeStamp := 1700000001 |} ];
     Chunk.totalSize := 7 |}.

(** A builder right after [start], for the packed format with the
    threshold 15 and the storing codec. *)
Definition exampleStarted : Builder.t :=
  snd (@start (packedFormat 15) exampleFS "x.qgd_" Builder.new).

(** The same builder with [a.txt] and [b.txt] in its current chunk. *)
Definition exampleLoaded : Builder.t :=
  {| Builder.currentChunk :=
       {| Chunk.files :=
            [ fileRecord "a.txt" (ten x61) (1700000000, 10);
              fileRecord "b.txt" (ten x62) (1700000000, 10) ];
          Chunk.totalSize := 20 |};
     Builder.outData := Builder.outData exampleStarted;
     Builder.statistics := Statistics.zero |}.

(* ===================================================================== *)
(** * Notions used to state the behaviour of a whole run *)
(* ===================================================================== *)

(** Does [appendFile] enter its read loop on [path], never to leave it:
    the stream opens, the attributes are there, and a read fails. *)
Definition hangs (fs : FileSystem) (path : string) : bool :=
  match readFile fs path, getFileAttributes fs path with
  | Some _, Some _ => readFails fs path
  | _, _ => false
  end.

(** What [appendFile] makes of a path once its flush check is past: the
    record of the file, or nothing when it returns false or never
    returns. *)
Definition readRecord (fs : FileSystem) (path : string) : option File.t :=
  match readFile fs path, getFileAttributes fs path with
  | Some bytes, Some attrs =>
      if readFails fs path then None
      else Some (fileRecord path bytes attrs)
  | _, _ => None
  end.

(** No path of [paths] makes [appendFile] hang. *)
Definition settled (fs : FileSystem) (paths : list string) : bool :=
  forallb (fun p => negb (hangs fs p)) paths.

(** The paths a run of appends gets to: those up to the first on which
    [appendFile] never returns, that one included. *)
Fixpoint reached (fs : FileSystem) (paths : list string) : list string :=
  match paths with
  | [] => []
  | p :: ps => if hangs fs p then [p] else p :: reached fs ps
  end.

(** A chunk with one file more. *)
Definition pushChunk (c : Chunk.t) (f : File.t) : Chunk.t :=
  {| Chunk.files := Chunk.files c ++ [f];
     Chunk.totalSize := size_add (Chunk.totalSize c) (size (File.contents f)) |}.

(** The builder with another current chunk. *)
Definition withChunk (b : Builder.t) (c : Chunk.t) : Builder.t :=
  {| Builder.currentChunk := c;
     Builder.outData := Builder.outData b;
     Builder.statistics := Builder.statistics b |}.

Section RunNotions.
Context `{Format} `{Codec}.

(** Does the next [appendFile] write the chunk [c]: it is over the
    threshold and holds a file. *)
Definition overThreshold (c : Chunk.t) : bool :=
  (kChunkSize <? Chunk.totalSize c)
  && match Chunk.files c with [] => false | _ :: _ => true end.

(** The chunks a run of appends closes, in order, and the chunk left
    open.  [reads] tells for each call what was read; [cur] is the current
    chunk before the first call. *)
Fixpoint groupFiles (cur : Chunk.t) (reads : list (option File.t))
  : list Chunk.t * Chunk.t :=
  match reads with
  | [] => ([], cur)
  | r :: reads' =>
      let cur1 := if overThreshold cur then Chunk.empty else cur in
      let cur2 := match r with
                  | Some f => pushChunk cur1 f
                  | None => cur1
                  end in
      let rest := groupFiles cur2 reads' in
      (if overThreshold cur then cur :: fst rest else fst rest, snd rest)
  end.

(** Writing the chunks [cs] one after the other. *)
Definition writeChunks (cs : list Chunk.t) (b : Builder.t) : result Builder.t :=
  fold_left (fun rb c => do b <- rb; flushChunk (withChunk b c)) cs (Ok b).

(** The chunk records of the chunks [cs], one after the other. *)
Fixpoint chunkRecords (cs : list Chunk.t) : result (list byte) :=
  match cs with
  | [] => Ok []
  | c :: cs' =>
      do cdata <- compressData (data (layoutWalk c));
      do rest <- chunkRecords cs';
      Ok (chunkRecord (size (Chunk.files c)) (data (layoutWalk c)) cdata
          ++ rest)%list
  end.

(** All chunks of a run that ends with [flush]: the closed ones and the
    open one when it holds a file. *)
Definition allChunks (g : list Chunk.t * Chunk.t) : list Chunk.t :=
  match Chunk.files (snd g) with
  | [] => fst g
  | _ :: _ => (fst g ++ [snd g])%list
  end.

(** The current chunk, its last file left aside, is not over the
    threshold. *)
Definition softBounded (c : Chunk.t) : Prop :=
  Chunk.files c = []
  \/ exists init f,
       Chunk.files c = (init ++ [f])%list
       /\ wrap (Z.of_nat (dataBytes init)) <= kChunkSize.

End RunNotions.

(** The files that were read, in the order of the calls. *)
Definition filesRead (reads : list (option File.t)) : list File.t :=
  omap id reads.

(* ===================================================================== *)
(** * Notions used to state the outcome of [buildProject] *)
(* ===================================================================== *)

(** The compressor keeps its bound on every buffer, so that the [assert]
    of [compressData] holds. *)
Definition codec_keeps_bound `{Codec} : Prop :=
  forall data, exists cdata, compressData data = Ok cdata.

(** The set-up of a build succeeds: the project file can be read, both
    pattern lists compile and the temporary output can be opened. *)
Definition setupOk `{Regex} (fs : FileSystem) (file : string) : Prop :=
  exists lines inc exc,
    readLines fs file = Some lines
    /\ constructOrRE (include (parseInput lines)) = Ok inc
    /\ constructOrRE (exclude (parseInput lines)) = Ok exc
    /\ canWrite fs (replaceExtension fs file ".qgd" +:+ "_") = true.

(** The file system with other results of the directory scans. *)
Definition withScan (fs : FileSystem) (scan : string -> list string)
  : FileSystem :=
  {| readFile := readFile fs;
     readFails := readFails fs;
     readLines := readLines fs;
     getFileAttributes := getFileAttributes fs;
     canWrite := canWrite fs;
     traverseDirectory := scan;
     replaceExtension := replaceExtension fs;
     renameFile := renameFile fs |}.

(** A codec that stores and keeps its bound on every input: a negative
    size, which an [int] can hold, compresses to nothing. *)
Definition safeStoreCodec : Codec :=
  {| LZ4_compressBound isize := isize + Z.quot isize 255 + 16;
     LZ4_compressHC source isize :=
       (Z.max 0 isize, take (Z.to_nat isize) source) |}.

(** The number of blanks [trim] finds before the first other character. *)
Definition leadingBlanks (s : string) : nat :=
  default 0%nat (find_first_not_of (String " " (String tab EmptyString)) s).

(** The number of characters after the last that is no blank. *)
Definition trailingBlanks (s : string) : nat :=
  match find_last_not_of (String " " (String tab EmptyString)) s with
  | Some e => String.length s - S e
  | None => 0
  end.

(** What [trim] returns beyond the trimmed string: [b] characters taken
    right after the last character that is no blank, at index [e], [b]
    being the index of the first. *)
Definition trimTail (s : string) : string :=
  match find_first_not_of (String " " (String tab EmptyString)) s,
        find_last_not_of (String " " (String tab EmptyString)) s with
  | Some b, Some e => substring (S e) b s
  | _, _ => ""
  end.

(** A buffer of [2^31] bytes, one more than an [int] can count, and one
    of [2^32 + 5] bytes, which an [int] counts as 5. *)
Definition bigBuffer : list byte := replicate (Z.to_nat (2 ^ 31)) x00.

Definition widerBuffer : list byte := replicate (Z.to_nat (2 ^ 32 + 5)) x00.

(** [exampleChunk] with another running total. *)
Definition exampleChunk' : Chunk.t :=
  {| Chunk.files := Chunk.files exampleChunk; Chunk.totalSize := 0 |}.

(** The line without its comment, as the loop of [parseInput] cuts it. *)
Definition uncomment (line : string) : string :=
  match index 0 "#" line with
  | Some shp => substr line 0 shp
  | None => line
  end.

(** The value a line gives for the keyword [kw], if it is a directive of
    that keyword. *)
Definition directive (kw line : string) : option string :=
  extractSuffix (uncomment line) kw.

(** The file a line names, if it is no directive and not blank. *)
Definition plainFile (line : string) : option string :=
  match directive "path" line, directive "include" line,
        directive "exclude" line with
  | None, None, None =>
      if String.eqb (trim (uncomment line)) "" then None
      else Some (trim (uncomment line))
  | _, _, _ => None
  end.
(* ===================================================================== *)
(** * Properties of the machine integers *)
(* ===================================================================== *)

Close Scope string_scope.

Lemma wrap_range z : 0 <= wrap z < size_max.
Proof. unfold wrap, size_max. apply Z.mod_pos_bound. lia. Qed.

Lemma wrap_small z : 0 <= z < size_max -> wrap z = z.
Proof. intros Hz. unfold wrap. apply Z.mod_small. exact Hz. Qed.

Lemma wrap_wrap z : wrap (wrap z) = wrap z.
Proof. apply wrap_small, wrap_range. Qed.

Lemma wrap_add_l a b : wrap (wrap a + b) = wrap (a + b).
Proof. unfold wrap, size_max. apply Zplus_mod_idemp_l. Qed.

Lemma wrap_add_r a b : wrap (a + wrap b) = wrap (a + b).
Proof. unfold wrap, size_max. apply Zplus_mod_idemp_r. Qed.

Lemma size_nonneg {A} (l : list A) : 0 <= size l.
Proof. unfold size. lia. Qed.

(** A loop [result += g(f)] over a list starting from [a] yields [a] plus
    the plain sum, reduced once. *)
Lemma fold_size_add {A} (g : A -> nat) (l : list A) (a : Z) :
  fold_left (fun result f => size_add result (Z.of_nat (g f))) l (wrap a)
  = wrap (a + Z.of_nat (sum_list_with g l)).
Proof.
  revert a. induction l as [|f l IH]; intros a; simpl.
  - f_equal. lia.
  - unfold size_add at 2. rewrite wrap_add_l, IH. f_equal. lia.
Qed.

Lemma getChunkNameTotalSize_sum chunk :
  getChunkNameTotalSize chunk = wrap (Z.of_nat (nameBytes (Chunk.files chunk))).
Proof.
  unfold getChunkNameTotalSize, nameBytes, ssize.
  change 0 with (wrap 0) at 1. rewrite fold_size_add. reflexivity.
Qed.

Lemma getChunkDataTotalSize_sum chunk :
  getChunkDataTotalSize chunk = wrap (Z.of_nat (dataBytes (Chunk.files chunk))).
Proof.
  unfold getChunkDataTotalSize, dataBytes, size.
  change 0 with (wrap 0) at 1. rewrite fold_size_add. reflexivity.
Qed.

(* ===================================================================== *)
(** * The layout encoder: cursors *)
(* ===================================================================== *)

Section LayoutCursors.
Context `{Format}.

Lemma prepareLoop_nameOffset i fs w :
  nameOffset (prepareLoop i fs w)
  = fold_left (fun result f => size_add result (ssize (File.name f)))
              fs (nameOffset w).
Proof.
  revert i w. induction fs as [|f fs IH]; intros i w; simpl; [reflexivity|].
  rewrite IH. reflexivity.
Qed.

Lemma prepareLoop_dataOffset i fs w :
  dataOffset (prepareLoop i fs w)
  = fold_left (fun result f => size_add result (size (File.contents f)))
              fs (dataOffset w).
Proof.
  revert i w. induction fs as [|f fs IH]; intros i w; simpl; [reflexivity|].
  rewrite IH. reflexivity.
Qed.

Lemma copy_at_length src pos dst : length (copy_at src pos dst) = length dst.
Proof. unfold copy_at. apply length_inserts. Qed.

Lemma prepareLoop_length i fs w :
  length (data (prepareLoop i fs w)) = length (data w).
Proof.
  revert i w. induction fs as [|f fs IH]; intros i w; simpl; [reflexivity|].
  rewrite IH. simpl. rewrite !copy_at_length. reflexivity.
Qed.

Lemma layoutWalk_nameOffset chunk :
  nameOffset (layoutWalk chunk)
  = size_add (headerSizeOf chunk) (getChunkNameTotalSize chunk).
Proof.
  unfold layoutWalk. rewrite prepareLoop_nameOffset. simpl.
  pose proof (fold_size_add (fun f => String.length (File.name f))
                (Chunk.files chunk)
                (Z.of_nat sizeofChunkFileHeader * size (Chunk.files chunk)))
    as Hsum.
  cbv beta in Hsum. rewrite getChunkNameTotalSize_sum.
  unfold headerSizeOf, size_mul, ssize. rewrite Hsum. unfold size_add.
  rewrite wrap_add_l, wrap_add_r. reflexivity.
Qed.

Lemma layoutWalk_dataOffset chunk :
  dataOffset (layoutWalk chunk) = totalSizeOf chunk.
Proof.
  unfold layoutWalk. rewrite prepareLoop_dataOffset. simpl.
  pose proof (fold_size_add (fun f => length (File.contents f))
                (Chunk.files chunk)
                (headerSizeOf chunk + getChunkNameTotalSize chunk)) as Hsum.
  cbv beta in Hsum. unfold totalSizeOf.
  rewrite getChunkDataTotalSize_sum. unfold size_add at 2 3.
  unfold size. rewrite Hsum. unfold size_add.
  rewrite wrap_add_r, wrap_add_l. reflexivity.
Qed.

Lemma layoutWalk_size chunk : size (data (layoutWalk chunk)) = totalSizeOf chunk.
Proof.
  unfold layoutWalk, size. rewrite prepareLoop_length. simpl.
  rewrite length_replicate, Z2Nat.id; [reflexivity|].
  unfold totalSizeOf, size_add. apply wrap_range.
Qed.

End LayoutCursors.

(* ===================================================================== *)
(** * The layout encoder: the body *)
(* ===================================================================== *)

Lemma chars_length s : length (chars s) = String.length s.
Proof.
  unfold chars, list_byte_of_string.
  rewrite length_map. induction s as [|c s IH]; simpl; [reflexivity|].
  rewrite IH. reflexivity.
Qed.

(** A store into a zeroed stretch that follows [a]. *)
Lemma inserts_mid {A} (a c src : list A) (z : A) (k p : nat) :
  p = length a -> (length src <= k)%nat ->
  list_inserts p src (a ++ replicate k z ++ c)
  = a ++ src ++ replicate (k - length src) z ++ c.
Proof.
  intros -> Hk.
  rewrite <- (Nat.add_0_r (length a)), list_inserts_app_r. f_equal.
  replace k with (length src + (k - length src))%nat at 1 by lia.
  rewrite replicate_add, <- app_assoc.
  apply list_inserts_0_r. rewrite length_replicate. reflexivity.
Qed.

Lemma inserts_end {A} (a src : list A) (z : A) (k p : nat) :
  p = length a -> (length src <= k)%nat ->
  list_inserts p src (a ++ replicate k z)
  = a ++ src ++ replicate (k - length src) z.
Proof.
  intros Hp Hk. rewrite <- (app_nil_r (replicate k z)).
  rewrite inserts_mid by assumption. rewrite app_nil_r. reflexivity.
Qed.

Lemma size_add_nat (a b : nat) :
  Z.of_nat (a + b) < size_max ->
  size_add (Z.of_nat a) (Z.of_nat b) = Z.of_nat (a + b).
Proof.
  intros Hlt. unfold size_add. rewrite wrap_small; lia.
Qed.

Section LayoutBody.
Context `{Format}.

Local Abbreviation E := sizeofChunkFileHeader.
Local Abbreviation zeros k := (replicate k x00).

(** One iteration of the loop, on a buffer whose three regions are filled
    up to the file being visited and zero after. *)
Lemma prepareLoop_step i f fs (ht nr dr : list byte) (ke kn kd nof dof : nat) :
  entries_sized ->
  length ht = (i * E)%nat ->
  nof = (i * E + (E + ke) + length nr)%nat ->
  dof = (nof + (String.length (File.name f) + kn) + length dr)%nat ->
  Z.of_nat (dof + (length (File.contents f) + kd)) < size_max ->
  prepareLoop i (f :: fs)
    {| nameOffset := Z.of_nat nof;
       dataOffset := Z.of_nat dof;
       data := ht ++ zeros (E + ke) ++ nr
               ++ zeros (String.length (File.name f) + kn) ++ dr
               ++ zeros (length (File.contents f) + kd) |}
  = prepareLoop (S i) fs
      {| nameOffset := Z.of_nat (nof + String.length (File.name f));
         dataOffset := Z.of_nat (dof + length (File.contents f));
         data :=
           (ht ++ chunkFileHeaderBytes
                    {| ChunkFileHeader.nameOffset := Z.of_nat nof;
                       ChunkFileHeader.nameLength := ssize (File.name f);
                       ChunkFileHeader.dataOffset := Z.of_nat dof;
                       ChunkFileHeader.dataSize := size (File.contents f);
                       ChunkFileHeader.fileSize := File.fileSize f;
                       ChunkFileHeader.timeStamp := File.timeStamp f |})
           ++ zeros ke ++ (nr ++ chars (File.name f))
           ++ zeros kn ++ (dr ++ File.contents f) ++ zeros kd |}.
Proof.
  intros Hsz Hht Hnof Hdof Hfit.
  cbn [prepareLoop nameOffset dataOffset data].
  f_equal. unfold ssize, size. f_equal.
  - apply size_add_nat. lia.
  - apply size_add_nat. lia.
  - unfold copy_at. rewrite !Nat2Z.id.
    (* the name *)
    rewrite (app_assoc ht), (app_assoc (ht ++ _)).
    rewrite (inserts_mid ((ht ++ _) ++ nr)); cycle 1.
    { rewrite !length_app, length_replicate. lia. }
    { rewrite chars_length. lia. }
    rewrite chars_length.
    replace (String.length (File.name f) + kn - String.length (File.name f))%nat
      with kn by lia.
    (* the contents *)
    rewrite (app_assoc (_ ++ nr)), (app_assoc (_ ++ chars _)).
    rewrite (app_assoc (_ ++ zeros kn)).
    rewrite (inserts_end (_ ++ dr)); cycle 1.
    { rewrite !length_app, !length_replicate, chars_length. lia. }
    { lia. }
    replace (length (File.contents f) + kd - length (File.contents f))%nat
      with kd by lia.
    (* the header entry *)
    rewrite <- !app_assoc.
    rewrite (inserts_mid ht); cycle 1.
    { lia. }
    { rewrite Hsz. lia. }
    rewrite Hsz. replace (E + ke - E)%nat with ke by lia.
    reflexivity.
Qed.

Lemma table_length (g : nat -> File.t -> list byte) (l : list File.t) :
  (forall i f, length (g i f) = E) ->
  length (mjoin (imap g l)) = (length l * E)%nat.
Proof.
  revert g. induction l as [|f l IH]; intros g Hg; simpl; [reflexivity|].
  rewrite length_app, Hg, IH; [reflexivity|].
  intros i f'. apply Hg.
Qed.

Lemma nameRegion_length fs : length (nameRegion fs) = nameBytes fs.
Proof.
  unfold nameRegion, nameBytes.
  induction fs as [|f fs IH]; simpl; [reflexivity|].
  rewrite length_app, chars_length, IH. reflexivity.
Qed.

Lemma dataRegion_length fs : length (dataRegion fs) = dataBytes fs.
Proof.
  unfold dataRegion, dataBytes.
  induction fs as [|f fs IH]; simpl; [reflexivity|].
  rewrite length_app, IH. reflexivity.
Qed.

Lemma nameBytes_app l k : nameBytes (l ++ k) = (nameBytes l + nameBytes k)%nat.
Proof. apply sum_list_with_app. Qed.

Lemma dataBytes_app l k : dataBytes (l ++ k) = (dataBytes l + dataBytes k)%nat.
Proof. apply sum_list_with_app. Qed.

Lemma tableOf_length all done :
  entries_sized -> length (tableOf all done) = (length done * E)%nat.
Proof. intros Hsz. apply table_length. intros i f. apply Hsz. Qed.

Lemma tableOf_snoc all done f :
  tableOf all (done ++ [f])
  = tableOf all done ++ chunkFileHeaderBytes (entryAt all (length done) f).
Proof.
  unfold tableOf. rewrite imap_app, join_app. simpl.
  rewrite app_nil_r, Nat.add_0_r. reflexivity.
Qed.

Lemma nameRegion_snoc done f :
  nameRegion (done ++ [f]) = nameRegion done ++ chars (File.name f).
Proof.
  unfold nameRegion. rewrite map_app, join_app. simpl.
  rewrite app_nil_r. reflexivity.
Qed.

Lemma dataRegion_snoc done f :
  dataRegion (done ++ [f]) = dataRegion done ++ File.contents f.
Proof.
  unfold dataRegion. rewrite map_app, join_app. simpl.
  rewrite app_nil_r. reflexivity.
Qed.

(** The loop from any point of the walk on: with the files [done] laid out
    and the rest of each region still zero, it ends with the whole body. *)
Lemma prepareLoop_layout all todo : forall done,
  entries_sized ->
  all = done ++ todo ->
  Z.of_nat (bodyBytes all) < size_max ->
  prepareLoop (length done) todo
    {| nameOffset := Z.of_nat (length all * E + nameBytes done);
       dataOffset := Z.of_nat (length all * E + nameBytes all + dataBytes done);
       data := tableOf all done ++ zeros (length todo * E)
               ++ nameRegion done ++ zeros (nameBytes todo)
               ++ dataRegion done ++ zeros (dataBytes todo) |}
  = {| nameOffset := Z.of_nat (length all * E + nameBytes all);
       dataOffset := Z.of_nat (bodyBytes all);
       data := encodedBody all |}.
Proof.
  induction todo as [|f todo IH]; intros done Hsz Hall Hfit.
  - rewrite app_nil_r in Hall. subst done. simpl.
    rewrite !app_nil_r. reflexivity.
  - pose proof Hfit as Hfit'. unfold bodyBytes in Hfit'.
    rewrite Hall in Hfit' at 1 2 3.
    rewrite length_app, nameBytes_app, dataBytes_app in Hfit'.
    cbn [length nameBytes dataBytes sum_list_with] in Hfit'.
    cbn [length nameBytes dataBytes sum_list_with Nat.mul].
    fold (nameBytes todo) (dataBytes todo) in *.
    rewrite (prepareLoop_step _ f todo (tableOf all done) (nameRegion done)
               (dataRegion done) (length todo * E) (nameBytes todo)
               (dataBytes todo)); cycle 1.
    { exact Hsz. }
    { apply tableOf_length, Hsz. }
    { rewrite nameRegion_length. rewrite Hall at 1. rewrite length_app.
      simpl. lia. }
    { rewrite dataRegion_length. rewrite Hall at 2. rewrite nameBytes_app.
      simpl. fold (nameBytes todo). lia. }
    { rewrite Hall at 1 2. rewrite length_app, nameBytes_app. simpl.
      fold (nameBytes todo). lia. }
    rewrite <- (IH (done ++ [f])); cycle 1.
    { exact Hsz. }
    { rewrite <- app_assoc. exact Hall. }
    { exact Hfit. }
    rewrite length_app, Nat.add_1_r. f_equal.
    rewrite nameBytes_app, dataBytes_app, tableOf_snoc, nameRegion_snoc,
      dataRegion_snoc.
    cbn [nameBytes dataBytes sum_list_with]. rewrite !Nat.add_0_r.
    f_equal; [f_equal; lia | f_equal; lia |].
    do 2 f_equal. unfold entryAt, size, ssize.
    assert (take (length done) all = done) as ->
      by (rewrite Hall; apply take_app_length).
    reflexivity.
Qed.

End LayoutBody.

(* ===================================================================== *)
(** * The layout encoder: theorems *)
(* ===================================================================== *)

Lemma slice_mid (a b c : list byte) :
  slice (a ++ b ++ c) (Z.of_nat (length a)) (Z.of_nat (length b)) = b.
Proof.
  unfold slice. rewrite !Nat2Z.id, drop_app_length, take_app_length.
  reflexivity.
Qed.

Lemma slice_mid' (a b c : list byte) (pos len : Z) :
  pos = Z.of_nat (length a) -> len = Z.of_nat (length b) ->
  slice (a ++ b ++ c) pos len = b.
Proof. intros -> ->. apply slice_mid. Qed.

Lemma le_bytes_length n z : length (le_bytes n z) = n.
Proof.
  revert z. induction n as [|n IH]; intros z; simpl; [reflexivity|].
  rewrite IH. reflexivity.
Qed.

Lemma packedFormat_entries_sized T : @entries_sized (packedFormat T).
Proof.
  intros h. unfold chunkFileHeaderBytes, sizeofChunkFileHeader, packedFormat.
  rewrite !length_app, !le_bytes_length. reflexivity.
Qed.

Section LayoutTheorems.
Context `{Format}.

Local Abbreviation E := sizeofChunkFileHeader.

(** Under the size bound the sizes computed by [prepareChunkData] are the
    plain ones. *)
Lemma sizes_exact chunk :
  Z.of_nat (bodyBytes (Chunk.files chunk)) < size_max ->
  headerSizeOf chunk = Z.of_nat (length (Chunk.files chunk) * E)
  /\ getChunkNameTotalSize chunk = Z.of_nat (nameBytes (Chunk.files chunk))
  /\ getChunkDataTotalSize chunk = Z.of_nat (dataBytes (Chunk.files chunk))
  /\ totalSizeOf chunk = Z.of_nat (bodyBytes (Chunk.files chunk)).
Proof.
  intros Hfit. unfold bodyBytes in Hfit.
  assert (Hh : headerSizeOf chunk = Z.of_nat (length (Chunk.files chunk) * E)).
  { unfold headerSizeOf, size_mul, size.
    rewrite <- Nat2Z.inj_mul, Nat.mul_comm.
    set (m := (length (Chunk.files chunk) * E)%nat) in *.
    rewrite wrap_small; lia. }
  set (m := (length (Chunk.files chunk) * E)%nat) in *.
  assert (Hn : getChunkNameTotalSize chunk
               = Z.of_nat (nameBytes (Chunk.files chunk))).
  { rewrite getChunkNameTotalSize_sum, wrap_small; lia. }
  assert (Hd : getChunkDataTotalSize chunk
               = Z.of_nat (dataBytes (Chunk.files chunk))).
  { rewrite getChunkDataTotalSize_sum, wrap_small; lia. }
  repeat split; try assumption.
  unfold totalSizeOf, size_add. rewrite Hh, Hn, Hd.
  unfold bodyBytes. fold m.
  rewrite (wrap_small (Z.of_nat m + Z.of_nat _)) by lia.
  rewrite wrap_small; lia.
Qed.

Lemma layoutWalk_exact chunk :
  entries_sized ->
  Z.of_nat (bodyBytes (Chunk.files chunk)) < size_max ->
  layoutWalk chunk
  = {| nameOffset := Z.of_nat (length (Chunk.files chunk) * E
                               + nameBytes (Chunk.files chunk));
       dataOffset := Z.of_nat (bodyBytes (Chunk.files chunk));
       data := encodedBody (Chunk.files chunk) |}.
Proof.
  intros Hsz Hfit.
  destruct (sizes_exact chunk Hfit) as (Hh & Hn & Hd & Ht).
  unfold layoutWalk. rewrite Ht, Hh, Hn.
  rewrite <- (prepareLoop_layout (Chunk.files chunk) (Chunk.files chunk) [])
    by (assumption || reflexivity).
  simpl. f_equal. f_equal.
  - f_equal. lia.
  - unfold size_add. rewrite wrap_small; unfold bodyBytes in Hfit; lia.
  - rewrite Nat2Z.id. unfold bodyBytes. rewrite !replicate_add, <- app_assoc.
    reflexivity.
Qed.

(** The [assert] of [prepareChunkData] holds on every chunk. *)
Lemma prepareChunkData_ok chunk :
  prepareChunkData chunk = Ok (data (layoutWalk chunk)).
Proof.
  unfold prepareChunkData.
  rewrite layoutWalk_nameOffset, layoutWalk_dataOffset, !Z.eqb_refl.
  reflexivity.
Qed.

(** C3. In [prepareChunkData], for every chunk (any number of files, names
    and contents of any length, empty ones included), the walk ends with
    the name cursor at [headerSize + nameSize] and the data cursor at
    [totalSize], which is the size of the buffer: the [assert] holds and
    the function returns the buffer.  The sums are those the code computes
    in [size_t]; when the body size fits [size_t] they are the plain
    sums. *)
Theorem prepareChunkData_cursors (chunk : Chunk.t) :
  nameOffset (layoutWalk chunk)
    = size_add (headerSizeOf chunk) (getChunkNameTotalSize chunk)
  /\ dataOffset (layoutWalk chunk) = totalSizeOf chunk
  /\ size (data (layoutWalk chunk)) = totalSizeOf chunk
  /\ prepareChunkData chunk = Ok (data (layoutWalk chunk))
  /\ (Z.of_nat (bodyBytes (Chunk.files chunk)) < size_max ->
      nameOffset (layoutWalk chunk)
        = Z.of_nat (length (Chunk.files chunk) * E
                    + nameBytes (Chunk.files chunk))
      /\ dataOffset (layoutWalk chunk)
         = Z.of_nat (length (Chunk.files chunk) * E
                     + nameBytes (Chunk.files chunk)
                     + dataBytes (Chunk.files chunk))).
Proof.
  pose proof (layoutWalk_nameOffset chunk) as Hn.
  pose proof (layoutWalk_dataOffset chunk) as Hd.
  split; [exact Hn|]. split; [exact Hd|].
  split; [apply layoutWalk_size|]. split.
  - apply prepareChunkData_ok.
  - intros Hfit.
    destruct (sizes_exact chunk Hfit) as (Hh & Hn' & _ & Ht).
    rewrite Hn, Hd, Ht, Hh, Hn'. unfold bodyBytes in *.
    set (m := (length (Chunk.files chunk) * E)%nat) in *.
    unfold size_add. rewrite wrap_small by lia. split; f_equal; lia.
Qed.

Lemma tableOf_middle all l f k :
  exists rest,
    tableOf all (l ++ f :: k)
    = tableOf all l ++ chunkFileHeaderBytes (entryAt all (length l) f) ++ rest.
Proof.
  unfold tableOf. rewrite imap_app, join_app. simpl.
  rewrite Nat.add_0_r. eexists. reflexivity.
Qed.

Lemma nameRegion_middle l f k :
  nameRegion (l ++ f :: k)
  = nameRegion l ++ chars (File.name f) ++ nameRegion k.
Proof. unfold nameRegion. rewrite map_app, join_app. reflexivity. Qed.

Lemma dataRegion_middle l f k :
  dataRegion (l ++ f :: k) = dataRegion l ++ File.contents f ++ dataRegion k.
Proof. unfold dataRegion. rewrite map_app, join_app. reflexivity. Qed.

(** In the body the format describes, entry [i] and the name and contents
    it points to are where the entry says. *)
Lemma encodedBody_slices fs i f :
  entries_sized ->
  fs !! i = Some f ->
  slice (encodedBody fs) (Z.of_nat (i * E)) (Z.of_nat E)
    = chunkFileHeaderBytes (entryAt fs i f)
  /\ slice (encodedBody fs)
        (ChunkFileHeader.nameOffset (entryAt fs i f))
        (ChunkFileHeader.nameLength (entryAt fs i f))
      = chars (File.name f)
  /\ slice (encodedBody fs)
        (ChunkFileHeader.dataOffset (entryAt fs i f))
        (ChunkFileHeader.dataSize (entryAt fs i f))
      = File.contents f.
Proof.
  intros Hsz Hi.
  pose proof (take_drop_middle fs i f Hi) as Hsplit.
  assert (Hlen : length (take i fs) = i).
  { apply length_take_le. apply Nat.lt_le_incl. eapply lookup_lt_Some, Hi. }
  unfold encodedBody. change (headerTable fs) with (tableOf fs fs).
  change (ChunkFileHeader.nameOffset (entryAt fs i f))
    with (Z.of_nat (length fs * E + nameBytes (take i fs))).
  change (ChunkFileHeader.dataOffset (entryAt fs i f))
    with (Z.of_nat (length fs * E + nameBytes fs + dataBytes (take i fs))).
  change (ChunkFileHeader.nameLength (entryAt fs i f))
    with (ssize (File.name f)).
  change (ChunkFileHeader.dataSize (entryAt fs i f))
    with (size (File.contents f)).
  set (pre := take i fs) in *. set (post := drop (S i) fs) in *.
  destruct (tableOf_middle fs pre f post) as [rest HT].
  rewrite Hsplit, Hlen in HT.
  assert (HN : nameRegion fs
               = nameRegion pre ++ chars (File.name f) ++ nameRegion post).
  { rewrite <- Hsplit at 1. apply nameRegion_middle. }
  assert (HD : dataRegion fs
               = dataRegion pre ++ File.contents f ++ dataRegion post).
  { rewrite <- Hsplit at 1. apply dataRegion_middle. }
  split; [|split].
  - rewrite HT, <- !app_assoc. apply slice_mid'.
    + rewrite tableOf_length by exact Hsz. rewrite Hlen. reflexivity.
    + rewrite Hsz. reflexivity.
  - rewrite HN, <- !app_assoc, (app_assoc (tableOf fs fs)).
    apply slice_mid'.
    + rewrite length_app, tableOf_length, nameRegion_length by exact Hsz.
      reflexivity.
    + rewrite chars_length. reflexivity.
  - rewrite HD, (app_assoc (nameRegion fs)), (app_assoc (tableOf fs fs)).
    apply slice_mid'.
    + rewrite !length_app, tableOf_length, nameRegion_length,
        dataRegion_length by exact Hsz.
      f_equal. lia.
    + reflexivity.
Qed.

(** C2. For a chunk of [n] files whose body size fits [size_t] (so also for
    every chunk that is not empty and fits), [prepareChunkData] returns the
    body laid out as the [n] header entries in the order of the files, then
    the names one after the other, then the contents one after the other.
    Entry [i] records nameOffset [n * entrySize + (name lengths of the
    files before i)], nameLength, dataOffset [n * entrySize + (all name
    lengths) + (content lengths of the files before i)], dataSize, and the
    fileSize and timeStamp of file [i]; the bytes of the body at
    [nameOffset, nameOffset + nameLength) are the name and those at
    [dataOffset, dataOffset + dataSize) the contents of file [i], offsets
    counting from the start of the body. *)
Theorem prepareChunkData_layout (chunk : Chunk.t) :
  entries_sized ->
  Z.of_nat (bodyBytes (Chunk.files chunk)) < size_max ->
  let fs := Chunk.files chunk in
  let n := length fs in
  prepareChunkData chunk
    = Ok (headerTable fs ++ nameRegion fs ++ dataRegion fs)
  /\ forall (i : nat) (f : File.t), fs !! i = Some f ->
     exists body h,
       prepareChunkData chunk = Ok body
       /\ slice body (Z.of_nat (i * E)) (Z.of_nat E) = chunkFileHeaderBytes h
       /\ ChunkFileHeader.nameOffset h
          = Z.of_nat (n * E + nameBytes (take i fs))
       /\ ChunkFileHeader.nameLength h = ssize (File.name f)
       /\ ChunkFileHeader.dataOffset h
          = Z.of_nat (n * E + nameBytes fs + dataBytes (take i fs))
       /\ ChunkFileHeader.dataSize h = size (File.contents f)
       /\ ChunkFileHeader.fileSize h = File.fileSize f
       /\ ChunkFileHeader.timeStamp h = File.timeStamp f
       /\ slice body (ChunkFileHeader.nameOffset h)
                      (ChunkFileHeader.nameLength h)
          = chars (File.name f)
       /\ slice body (ChunkFileHeader.dataOffset h)
                      (ChunkFileHeader.dataSize h)
          = File.contents f.
Proof.
  intros Hsz Hfit fs n.
  assert (Hbody : prepareChunkData chunk = Ok (encodedBody fs)).
  { rewrite prepareChunkData_ok, (layoutWalk_exact chunk Hsz Hfit).
    reflexivity. }
  split; [exact Hbody|].
  intros i f Hi.
  destruct (encodedBody_slices fs i f Hsz Hi) as (Hh & Hname & Hdata).
  exists (encodedBody fs), (entryAt fs i f).
  repeat split; assumption || reflexivity.
Qed.

End LayoutTheorems.

(** The chunk of [a.txt] and [b.txt] in the packed format: the body is the
    two entries, then the names, then [hi] and [world]. *)
Lemma prepareChunkData_layout_witness :
  let fs := Chunk.files exampleChunk in
  @prepareChunkData (packedFormat 15) exampleChunk
    = Ok (@headerTable (packedFormat 15) fs ++ nameRegion fs ++ dataRegion fs)
  /\ @slice (@encodedBody (packedFormat 15) fs) 69 5 = chars "b.txt"
  /\ @slice (@encodedBody (packedFormat 15) fs) 76 5 = chars "world".
Proof.
  pose proof (@prepareChunkData_layout (packedFormat 15) exampleChunk
                (packedFormat_entries_sized 15)
                ltac:(vm_compute; reflexivity)) as [Hbody _].
  split; [exact Hbody|]. split; vm_compute; reflexivity.
Defined.

(* ===================================================================== *)
(** * The codec adapter: theorem *)
(* ===================================================================== *)

Lemma to_int_small z : - 2 ^ 31 <= z <= INT_MAX -> to_int z = z.
Proof.
  unfold to_int, INT_MAX. intros Hz. rewrite Z.mod_small; lia.
Qed.

Lemma to_size_t_small z : 0 <= z <= INT_MAX -> to_size_t z = z.
Proof.
  unfold to_size_t, INT_MAX. intros Hz. apply wrap_small.
  unfold size_max. lia.
Qed.

Section CodecTheorems.
Context `{Codec}.

(** C5. For a buffer of [n] bytes, [n] an [int] and
    [LZ4_compressBound(n)] an [int] that is not negative, [compressData]
    allocates a scratch vector of exactly [LZ4_compressBound(n)] bytes.  When the size
    [csize] the compressor returns satisfies [0 <= csize <= bound], the
    function returns the scratch vector cut to its first [csize] bytes;
    otherwise the [assert] fails. *)
Theorem compressData_contract (data : list byte) :
  size data <= INT_MAX ->
  0 <= LZ4_compressBound (size data) <= INT_MAX ->
  - 2 ^ 31 <= fst (LZ4_compressHC data (size data)) <= INT_MAX ->
  let bound := LZ4_compressBound (size data) in
  let csize := fst (LZ4_compressHC data (size data)) in
  size (scratch data) = bound
  /\ size (compressedScratch data) = bound
  /\ (0 <= csize <= bound ->
      compressData data
        = Ok (take (Z.to_nat csize) (compressedScratch data))
      /\ size (take (Z.to_nat csize) (compressedScratch data)) = csize)
  /\ (~ (0 <= csize <= bound) -> compressData data = AssertFailed).
Proof.
  intros Hn Hb Hc bound csize.
  assert (Hint : to_int (size data) = size data).
  { apply to_int_small. pose proof (size_nonneg data). lia. }
  assert (Hscratch : size (scratch data) = bound).
  { unfold scratch, scratchSize, size at 1. rewrite length_replicate, Hint.
    rewrite to_size_t_small by exact Hb. fold bound. lia. }
  assert (Hcs : size (compressedScratch data) = bound).
  { unfold compressedScratch, size at 1. rewrite copy_at_length.
    exact Hscratch. }
  assert (Hsz : compressedSizeOf data = csize).
  { unfold compressedSizeOf. rewrite Hint. reflexivity. }
  split; [exact Hscratch|]. split; [exact Hcs|]. split.
  - intros Hrange. unfold compressData. rewrite Hsz, Hcs.
    rewrite to_size_t_small by (fold bound in Hb; lia).
    destruct (Z.leb_spec 0 csize); [|lia].
    destruct (Z.leb_spec csize bound); [|lia]. cbn.
    assert (Hle : (Z.to_nat csize <= length (compressedScratch data))%nat).
    { unfold size in Hcs. lia. }
    rewrite resize_le by exact Hle. split; [reflexivity|].
    unfold size. rewrite length_take. lia.
  - intros Hout. unfold compressData. rewrite Hsz, Hcs.
    destruct (Z.leb_spec 0 csize); [|reflexivity].
    rewrite to_size_t_small by (fold csize in Hc; lia).
    destruct (Z.leb_spec csize bound); [lia | reflexivity].
Qed.

End CodecTheorems.

(** The storing codec on five bytes: a scratch vector of 21 bytes, cut to
    the five bytes stored. *)
Lemma compressData_contract_witness :
  size (@scratch storeCodec (chars "hello")) = 21
  /\ @compressData storeCodec (chars "hello") = Ok (chars "hello").
Proof.
  destruct (@compressData_contract storeCodec (chars "hello")
              ltac:(vm_compute; discriminate)
              ltac:(vm_compute; split; discriminate)
              ltac:(vm_compute; split; discriminate))
    as (Hs & _ & Hok & _).
  split; [exact Hs|].
  apply Hok. vm_compute. split; discriminate.
Defined.

Lemma bigBuffer_size : size bigBuffer = 2 ^ 31.
Proof.
  unfold size, bigBuffer. rewrite length_replicate. apply Z2Nat.id. lia.
Qed.

Lemma widerBuffer_size : size widerBuffer = 2 ^ 32 + 5.
Proof.
  unfold size, widerBuffer. rewrite length_replicate. apply Z2Nat.id. lia.
Qed.

Lemma scratch_size `{Codec} data : size (scratch data) = scratchSize data.
Proof.
  unfold scratch, size. rewrite length_replicate.
  apply Z2Nat.id, wrap_range.
Qed.

(** The size of a buffer is converted to [int] on its way to the codec.
    For a buffer of [2^31] bytes [LZ4_compressBound] is called with
    [-2^31]; for a buffer of [2^32 + 5] bytes it is called with 5 and the
    scratch vector gets 21 bytes: in neither case
    [LZ4_compressBound(n)] bytes, [n] being the size of the buffer. *)
Lemma compressData_scratch_narrowed :
  (size bigBuffer = 2 ^ 31
   /\ to_int (size bigBuffer) = - 2 ^ 31
   /\ @scratchSize storeCodec bigBuffer
      = to_size_t (@LZ4_compressBound storeCodec (- 2 ^ 31))
   /\ size (@scratch storeCodec bigBuffer)
      <> @LZ4_compressBound storeCodec (size bigBuffer))
  /\ (size widerBuffer = 2 ^ 32 + 5
      /\ to_int (size widerBuffer) = 5
      /\ size (@scratch storeCodec widerBuffer) = 21
      /\ @LZ4_compressBound storeCodec (size widerBuffer) = 4311810326
      /\ size (@scratch storeCodec widerBuffer)
         <> @LZ4_compressBound storeCodec (size widerBuffer)).
Proof.
  split.
  - rewrite scratch_size. unfold scratchSize. rewrite bigBuffer_size.
    split; [reflexivity|]. split; [reflexivity|]. split; [reflexivity|].
    discriminate.
  - rewrite !scratch_size. unfold scratchSize. rewrite widerBuffer_size.
    split; [reflexivity|]. split; [reflexivity|]. split; [reflexivity|].
    split; [reflexivity|]. discriminate.
Qed.

(* ===================================================================== *)
(** * The builder: lemmas *)
(* ===================================================================== *)

(** A stream that has failed short of the end of the file stays as it
    is, whatever is read: the loop of [appendFile] does not end. *)
Lemma readLoop_stuck fuel s contents :
  ifstream.eofbit s = false -> ifstream.failed s = true ->
  readLoop fuel s contents = None.
Proof.
  revert s contents. induction fuel as [|fuel IH]; intros s c He Hf;
    cbn [readLoop]; rewrite He; [reflexivity|].
  unfold ifstream.read. rewrite He, Hf. cbn [orb].
  apply IH; reflexivity.
Qed.

Lemma readLoop_eof fuel s contents :
  ifstream.eofbit s = true -> readLoop fuel s contents = Some contents.
Proof. intros He. destruct fuel; cbn [readLoop]; rewrite He; reflexivity. Qed.

(** More iterations do not change the result of a loop that has ended. *)
Lemma readLoop_mono n m s contents r :
  readLoop n s contents = Some r -> (n <= m)%nat ->
  readLoop m s contents = Some r.
Proof.
  revert m s contents. induction n as [|n IH]; intros m s c Hr Hle.
  - cbn [readLoop] in Hr. destruct (ifstream.eofbit s) eqn:He;
      [|discriminate].
    destruct m; cbn [readLoop]; rewrite He; exact Hr.
  - destruct m as [|m]; [lia|]. cbn [readLoop] in *.
    destruct (ifstream.eofbit s); [exact Hr|].
    destruct (ifstream.read bufferSize s) as [got s'].
    apply IH; [exact Hr | lia].
Qed.

(** On a stream whose read fails the loop never ends. *)
Lemma readLoop_breaks fuel s contents :
  ifstream.breaks s = true -> ifstream.eofbit s = false ->
  readLoop fuel s contents = None.
Proof.
  revert s contents. induction fuel as [|fuel IH]; intros s c Hb He;
    cbn [readLoop]; rewrite He; [reflexivity|].
  unfold ifstream.read. rewrite He, Hb.
  destruct (false || ifstream.failed s);
    [apply IH; cbn; reflexivity || assumption|].
  destruct (decide _); apply IH; cbn; reflexivity || assumption.
Qed.

(** On a good stream whose reads do not fail the loop collects every
    byte, in as many iterations as there are bytes, and one. *)
Lemma readLoop_reads n s contents :
  (length (ifstream.pending s) <= n)%nat ->
  ifstream.breaks s = false -> ifstream.eofbit s = false ->
  ifstream.failed s = false ->
  readLoop (S n) s contents = Some (contents ++ ifstream.pending s).
Proof.
  pose proof bufferSize_pos as Hpos.
  revert s contents. induction n as [|n IH]; intros s c Hlen Hb He Hf.
  - cbn [readLoop]. rewrite He. unfold ifstream.read.
    rewrite He, Hf, Hb. cbn [orb].
    destruct (decide _) as [Hfull|_]; [lia|]. reflexivity.
  - change (readLoop (S (S n)) s c)
      with (if ifstream.eofbit s then Some c
            else let (got, s') := ifstream.read bufferSize s in
                 readLoop (S n) s' (c ++ got)).
    rewrite He. unfold ifstream.read. rewrite He, Hf, Hb. cbn [orb].
    destruct (decide _) as [Hfull|_].
    + rewrite IH; cbn [ifstream.pending ifstream.breaks ifstream.eofbit
                       ifstream.failed];
        [rewrite <- app_assoc, take_drop; reflexivity
        |rewrite length_drop; lia
        |reflexivity || assumption ..].
    + reflexivity.
Qed.

(** Whatever number of iterations ends the loop, the bound of [readAll]
    ends it too. *)
Lemma readLoop_bound fuel s contents r :
  readLoop fuel s contents = Some r ->
  readLoop (S (length (ifstream.pending s))) s contents = Some r.
Proof.
  pose proof bufferSize_pos as Hpos.
  revert s contents. induction fuel as [|fuel IH]; intros s c Hr.
  - cbn [readLoop] in Hr |- *. destruct (ifstream.eofbit s); [exact Hr|].
    discriminate.
  - cbn [readLoop] in Hr |- *.
    destruct (ifstream.eofbit s) eqn:He; [exact Hr|].
    unfold ifstream.read in Hr |- *. rewrite He in Hr |- *.
    cbn [orb] in Hr |- *.
    destruct (ifstream.failed s) eqn:Hf.
    { rewrite readLoop_stuck in Hr by reflexivity. discriminate. }
    destruct (decide _) as [Hfull|Hless].
    + apply IH in Hr. cbn [ifstream.pending] in Hr.
      eapply readLoop_mono; [exact Hr|]. rewrite length_drop. lia.
    + destruct (ifstream.breaks s).
      * rewrite readLoop_stuck in Hr by reflexivity. discriminate.
      * rewrite readLoop_eof in Hr |- * by reflexivity. exact Hr.
Qed.

(** [readAll] returns exactly what the loop returns when it ends. *)
Lemma readAll_returns s contents :
  readAll s = Ok contents <-> exists fuel, readLoop fuel s [] = Some contents.
Proof.
  unfold readAll. split.
  - destruct (readLoop _ s []) as [c|] eqn:Hr; [|discriminate].
    intros [= <-]. eexists. exact Hr.
  - intros [fuel Hr]. rewrite (readLoop_bound fuel s [] contents Hr).
    reflexivity.
Qed.

(** [readAll] is [Diverges] exactly when no number of iterations ends the
    loop. *)
Lemma readAll_diverges s :
  readAll s = Diverges <-> forall fuel, readLoop fuel s [] = None.
Proof.
  unfold readAll. split.
  - destruct (readLoop _ s []) as [c|] eqn:Hr; [discriminate|].
    intros _ fuel. destruct (readLoop fuel s []) as [c|] eqn:Hf;
      [|reflexivity].
    rewrite (readLoop_bound fuel s [] c Hf) in Hr. discriminate.
  - intros Hnone. rewrite Hnone. reflexivity.
Qed.

(** The read loop of [appendFile] collects the whole file when no read
    fails. *)
Lemma readAll_all bytes : readAll (ifstream.opened bytes false) = Ok bytes.
Proof.
  unfold readAll. rewrite readLoop_reads by (cbn; lia || reflexivity).
  reflexivity.
Qed.

(** It never ends when a read fails. *)
Lemma readAll_hangs bytes : readAll (ifstream.opened bytes true) = Diverges.
Proof.
  unfold readAll. rewrite readLoop_breaks by reflexivity. reflexivity.
Qed.

Lemma write_ok bytes s :
  stream_ok s ->
  ofstream.write bytes s
  = {| ofstream.is_open := true; ofstream.failed := false;
       ofstream.written := ofstream.written s ++ bytes |}.
Proof. intros [Ho Hf]. unfold ofstream.write. rewrite Hf, Ho. reflexivity. Qed.

Section BuilderLemmas.
Context `{Format} `{Codec}.

Lemma flushChunk_empty b :
  Chunk.files (Builder.currentChunk b) = [] -> flushChunk b = Ok b.
Proof. intros He. unfold flushChunk. rewrite He. reflexivity. Qed.

Lemma flushChunk_nonempty b :
  Chunk.files (Builder.currentChunk b) <> [] ->
  stream_ok (Builder.outData b) ->
  flushChunk b
  = do cdata <- compressData (data (layoutWalk (Builder.currentChunk b)));
    Ok (afterFlush b (data (layoutWalk (Builder.currentChunk b))) cdata).
Proof.
  intros Hne Hok. unfold flushChunk.
  destruct (Chunk.files (Builder.currentChunk b)) as [|f fs] eqn:Hfs;
    [congruence|].
  rewrite prepareChunkData_ok. cbn [bind]. unfold writeChunk.
  destruct (compressData _) as [cdata| | | |]; cbn [bind]; try reflexivity.
  unfold afterFlush, chunkRecord, countChunk. rewrite Hfs.
  cbn [Builder.outData Builder.statistics Builder.currentChunk].
  rewrite (write_ok _ (Builder.outData b) Hok).
  rewrite write_ok by (split; reflexivity).
  cbn [ofstream.written]. rewrite <- app_assoc. reflexivity.
Qed.

(** On a builder whose stream was never opened the chunk is emptied and
    counted while no byte is written.  [buildProject] ends with [fatal]
    when [start] fails, so it never uses a builder in that state. *)
Lemma flushChunk_not_started b :
  Chunk.files (Builder.currentChunk b) <> [] ->
  Builder.outData b = ofstream.closed ->
  flushChunk b
  = do cdata <- compressData (data (layoutWalk (Builder.currentChunk b)));
    Ok {| Builder.currentChunk := Chunk.empty;
          Builder.outData :=
            {| ofstream.is_open := false; ofstream.failed := true;
               ofstream.written := [] |};
          Builder.statistics :=
            countChunk (Builder.statistics b)
              (size (Chunk.files (Builder.currentChunk b)))
              (data (layoutWalk (Builder.currentChunk b))) cdata |}.
Proof.
  intros Hne Hout. unfold flushChunk.
  destruct (Chunk.files (Builder.currentChunk b)) as [|f fs] eqn:Hfs;
    [congruence|].
  rewrite prepareChunkData_ok. cbn [bind]. unfold writeChunk.
  destruct (compressData _) as [cdata| | | |]; cbn [bind]; try reflexivity.
  rewrite Hout, Hfs. reflexivity.
Qed.

Lemma flushChunk_stream_ok b b' :
  flushChunk b = Ok b' -> stream_ok (Builder.outData b) ->
  stream_ok (Builder.outData b').
Proof.
  intros Hfl Hok.
  destruct (Chunk.files (Builder.currentChunk b)) as [|f fs] eqn:Hfs.
  - rewrite flushChunk_empty in Hfl by exact Hfs. congruence.
  - rewrite flushChunk_nonempty in Hfl by (congruence || exact Hok).
    destruct (compressData _); cbn [bind] in Hfl; try discriminate.
    injection Hfl as <-. split; reflexivity.
Qed.

Lemma flushChunk_result_empty b b' :
  flushChunk b = Ok b' -> Chunk.files (Builder.currentChunk b') = [].
Proof.
  unfold flushChunk. intros Hfl.
  destruct (Chunk.files (Builder.currentChunk b)) as [|f fs] eqn:Hfs.
  - congruence.
  - destruct (prepareChunkData _); cbn [bind] in Hfl; try discriminate.
    destruct (writeChunk _ _ _); cbn [bind] in Hfl; try discriminate.
    injection Hfl as <-. reflexivity.
Qed.

Lemma flushIfOver_stream_ok b b' :
  flushIfOver b = Ok b' -> stream_ok (Builder.outData b) ->
  stream_ok (Builder.outData b').
Proof.
  unfold flushIfOver. destruct (_ <? _).
  - apply flushChunk_stream_ok.
  - congruence.
Qed.

Lemma hangs_unread fs path :
  readFile fs path = None \/ getFileAttributes fs path = None ->
  hangs fs path = false /\ readRecord fs path = None.
Proof.
  unfold hangs, readRecord. intros [-> | ->]; [split; reflexivity|].
  destruct (readFile fs path); split; reflexivity.
Qed.

Lemma hangs_read fs path bytes attrs :
  readFile fs path = Some bytes -> getFileAttributes fs path = Some attrs ->
  readFails fs path = false ->
  hangs fs path = false
  /\ readRecord fs path = Some (fileRecord path bytes attrs).
Proof.
  unfold hangs, readRecord. intros -> -> ->. split; reflexivity.
Qed.

Lemma hangs_true fs path :
  hangs fs path = true <->
  exists bytes attrs,
    readFile fs path = Some bytes /\ getFileAttributes fs path = Some attrs
    /\ readFails fs path = true.
Proof.
  unfold hangs. split.
  - destruct (readFile fs path) as [bytes|]; [|discriminate].
    destruct (getFileAttributes fs path) as [attrs|]; [|discriminate].
    intros Hf. exists bytes, attrs. auto.
  - intros (bytes & attrs & -> & -> & ->). reflexivity.
Qed.

Lemma hangs_readRecord fs path :
  hangs fs path = true -> readRecord fs path = None.
Proof.
  intros (bytes & attrs & Hrd & Hat & Hf)%hangs_true.
  unfold readRecord. rewrite Hrd, Hat, Hf. reflexivity.
Qed.

(** What [readRecord] gives is a file that was opened, has attributes and
    was read to its end. *)
Lemma readRecord_Some fs path f :
  readRecord fs path = Some f <->
  exists bytes attrs,
    readFile fs path = Some bytes /\ getFileAttributes fs path = Some attrs
    /\ readFails fs path = false /\ f = fileRecord path bytes attrs.
Proof.
  unfold readRecord. split.
  - destruct (readFile fs path) as [bytes|]; [|discriminate].
    destruct (getFileAttributes fs path) as [attrs|]; [|discriminate].
    destruct (readFails fs path); [discriminate|].
    intros [= <-]. exists bytes, attrs. auto.
  - intros (bytes & attrs & -> & -> & -> & ->). reflexivity.
Qed.

(** [appendFile] after its first statement. *)
Lemma appendFile_after_check fs path b b1 :
  flushIfOver b = Ok b1 ->
  appendFile fs path b
  = if hangs fs path then Diverges
    else Ok match readRecord fs path with
            | Some f => (true, pushFile b1 f)
            | None => (false, b1)
            end.
Proof.
  intros Hb1. unfold appendFile, hangs, readRecord. rewrite Hb1. cbn [bind].
  destruct (readFile fs path) as [bytes|]; [|reflexivity].
  destruct (getFileAttributes fs path) as [[ts sz]|]; [|reflexivity].
  destruct (readFails fs path).
  - rewrite readAll_hangs. reflexivity.
  - rewrite readAll_all. reflexivity.
Qed.

(** [appendFile] fails as its first statement does. *)
Lemma appendFile_check_fails fs path b :
  (forall b1, flushIfOver b <> Ok b1) ->
  appendFile fs path b = (do _ <- flushIfOver b; Diverges).
Proof.
  intros Hno. unfold appendFile.
  destruct (flushIfOver b) as [b1| | | |]; cbn [bind]; try reflexivity.
  exfalso. eapply Hno. reflexivity.
Qed.

Lemma appendFile_stream_ok fs path b r b' :
  appendFile fs path b = Ok (r, b') -> stream_ok (Builder.outData b) ->
  stream_ok (Builder.outData b').
Proof.
  intros Hap Hok. unfold appendFile in Hap.
  destruct (flushIfOver b) as [b1| | | |] eqn:Hb1; cbn [bind] in Hap;
    try discriminate.
  pose proof (flushIfOver_stream_ok b b1 Hb1 Hok) as Hok1.
  destruct (readFile fs path); [|congruence].
  destruct (getFileAttributes fs path) as [[ts sz]|]; [|congruence].
  destruct (readAll _); cbn [bind] in Hap; try discriminate.
  injection Hap as _ <-. exact Hok1.
Qed.

Lemma start_new fs path b0 :
  start fs path Builder.new = (true, b0) ->
  b0 = {| Builder.currentChunk := Chunk.empty;
          Builder.outData :=
            {| ofstream.is_open := true; ofstream.failed := false;
               ofstream.written := fileHeaderBytes |};
          Builder.statistics := Statistics.zero |}.
Proof.
  unfold start, Builder.new, ofstream.open, ofstream.closed. cbn.
  destruct (canWrite fs path); cbn; intros Hst; [|discriminate].
  injection Hst as <-. reflexivity.
Qed.

Lemma fold_append_failed fs files (r : result Builder.t) :
  (forall b, r <> Ok b) ->
  forall b, fold_left (fun rb path => do b <- rb; appendOne fs b path)
                      files r <> Ok b.
Proof.
  revert r. induction files as [|p files IH]; intros r Hr b; simpl.
  - apply Hr.
  - apply IH. intros b'. destruct r; cbn [bind]; try discriminate.
    exfalso. eapply Hr. reflexivity.
Qed.

(** A property kept by every [appendOne] holds after the loop. *)
Lemma appendAll_invariant (P : Builder.t -> Prop) fs files :
  (forall b path b', P b -> appendOne fs b path = Ok b' -> P b') ->
  forall b0 b1, P b0 -> appendAll fs files b0 = Ok b1 -> P b1.
Proof.
  intros Hstep. unfold appendAll.
  induction files as [|p files IH]; intros b0 b1 HP Hrun; simpl in Hrun.
  - injection Hrun as <-. exact HP.
  - destruct (appendOne fs b0 p) as [b'| | | |] eqn:Hb'.
    + eapply IH; [|exact Hrun]. eapply Hstep; eassumption.
    + exfalso. eapply fold_append_failed; [|exact Hrun]. discriminate.
    + exfalso. eapply fold_append_failed; [|exact Hrun]. discriminate.
    + exfalso. eapply fold_append_failed; [|exact Hrun]. discriminate.
    + exfalso. eapply fold_append_failed; [|exact Hrun]. discriminate.
Qed.

Lemma appendOne_stream_ok fs b path b' :
  stream_ok (Builder.outData b) -> appendOne fs b path = Ok b' ->
  stream_ok (Builder.outData b').
Proof.
  unfold appendOne. intros Hok Hap.
  destruct (appendFile fs path b) as [[r b'']| | | |] eqn:Hr; cbn [bind] in Hap;
    try discriminate.
  injection Hap as <-. eapply appendFile_stream_ok; eassumption.
Qed.

(** C6. [flush()], which is [flushChunk], does nothing when the current
    chunk holds no file: the builder, so its output and statistics, is
    unchanged.  When the chunk holds files and the stream is open, it
    writes one [ChunkHeader] with fileCount, uncompressedSize and
    compressedSize followed by the compressed body, counts the chunk in the
    statistics and leaves the current chunk empty (the process ends instead
    when the codec breaks its bound).  A flush right after a flush changes
    nothing, so two flushes write at most one chunk record.  The flush at
    the end of the input and the one of the destructor are this function,
    and after a successful [start] and any run of appends the stream is
    still open: the last chunk, when it holds files, is written. *)
Theorem flushChunk_semantics (b : Builder.t) :
  (Chunk.files (Builder.currentChunk b) = [] -> flushChunk b = Ok b)
  /\ (Chunk.files (Builder.currentChunk b) <> [] ->
      stream_ok (Builder.outData b) ->
      exists body,
        prepareChunkData (Builder.currentChunk b) = Ok body
        /\ flushChunk b
           = do cdata <- compressData body; Ok (afterFlush b body cdata))
  /\ (forall b1, flushChunk b = Ok b1 -> flushChunk b1 = Ok b1)
  /\ flush b = flushChunk b
  /\ destroy b = flushChunk b
  /\ (forall fs path files b0 b1,
        start fs path Builder.new = (true, b0) ->
        appendAll fs files b0 = Ok b1 ->
        stream_ok (Builder.outData b1)).
Proof.
  split; [apply flushChunk_empty|]. split.
  { intros Hne Hok. eexists. split; [apply prepareChunkData_ok|].
    apply flushChunk_nonempty; assumption. }
  split.
  { intros b1 Hfl. apply flushChunk_empty.
    eapply flushChunk_result_empty, Hfl. }
  split; [reflexivity|]. split; [reflexivity|].
  intros fs path files b0 b1 Hst Hrun.
  eapply (appendAll_invariant (fun b => stream_ok (Builder.outData b)));
    [|
     |exact Hrun].
  - intros b2 p b3. apply appendOne_stream_ok.
  - rewrite (start_new fs path b0 Hst). split; reflexivity.
Qed.

Lemma flushIfOver_chunk b b1 :
  flushIfOver b = Ok b1 ->
  Builder.currentChunk b1 = Builder.currentChunk b
  \/ Builder.currentChunk b1 = Chunk.empty.
Proof.
  unfold flushIfOver. destruct (_ <? _); [|intros [= <-]; left; reflexivity].
  unfold flushChunk.
  destruct (Chunk.files (Builder.currentChunk b)) as [|f fs].
  - intros [= <-]. left. reflexivity.
  - destruct (prepareChunkData _); cbn [bind]; try discriminate.
    destruct (writeChunk _ _ _); cbn [bind]; try discriminate.
    intros [= <-]. right. reflexivity.
Qed.

(** C9. [appendFile], once its first statement is past (the builder is
    then [b1], whose current chunk is that of [b] or, after a flush,
    empty), does not always return.  On a path whose stream opens and
    whose attributes are there but whose read fails, as on a directory,
    the loop [while (!in.eof())] never ends, for [eofbit] is never set:
    the call returns neither false nor true.  On every other path it
    returns, and false exactly when the file cannot be opened or its
    attributes cannot be read.  Then the builder is [b1]: no record is
    appended and [totalSize] does not grow.  Otherwise it returns true and
    the current chunk of [b1] gets one record more, holding the path, all
    the bytes of the file, its size and timestamp, and [totalSize] grows by
    the length of the contents (in [size_t]); output and statistics are
    those of [b1]. *)
Theorem appendFile_outcome (fs : FileSystem) (path : string)
    (b b1 : Builder.t) :
  flushIfOver b = Ok b1 ->
  (hangs fs path = true ->
   appendFile fs path b = Diverges
   /\ (forall r b', appendFile fs path b <> Ok (r, b'))
   /\ exists bytes,
        readFile fs path = Some bytes
        /\ getFileAttributes fs path <> None
        /\ readFails fs path = true
        /\ forall fuel, readLoop fuel (ifstream.opened bytes true) [] = None)
  /\ (hangs fs path = false ->
  exists r b',
    appendFile fs path b = Ok (r, b')
    /\ (r = false <->
        readFile fs path = None \/ getFileAttributes fs path = None)
    /\ (r = false ->
        b' = b1
        /\ (Chunk.files (Builder.currentChunk b')
             = Chunk.files (Builder.currentChunk b)
            \/ Chunk.files (Builder.currentChunk b') = [])
        /\ (0 <= Chunk.totalSize (Builder.currentChunk b) ->
            Chunk.totalSize (Builder.currentChunk b')
            <= Chunk.totalSize (Builder.currentChunk b)))
    /\ (r = true ->
        exists bytes timeStamp fileSize,
          readFile fs path = Some bytes
          /\ getFileAttributes fs path = Some (timeStamp, fileSize)
          /\ readFails fs path = false
          /\ Chunk.files (Builder.currentChunk b')
             = Chunk.files (Builder.currentChunk b1)
               ++ [ {| File.name := path; File.contents := bytes;
                       File.fileSize := fileSize;
                       File.timeStamp := timeStamp |} ]
          /\ Chunk.totalSize (Builder.currentChunk b')
             = wrap (Chunk.totalSize (Builder.currentChunk b1) + size bytes)
          /\ (0 <= Chunk.totalSize (Builder.currentChunk b1) ->
              Chunk.totalSize (Builder.currentChunk b1) + size bytes
                < size_max ->
              Chunk.totalSize (Builder.currentChunk b')
              = Chunk.totalSize (Builder.currentChunk b1) + size bytes)
          /\ Builder.outData b' = Builder.outData b1
          /\ Builder.statistics b' = Builder.statistics b1)).
Proof.
  intros Hb1. rewrite (appendFile_after_check fs path b b1 Hb1).
  split; intros Hh; rewrite Hh.
  { split; [reflexivity|]. split; [discriminate|].
    apply hangs_true in Hh as (bytes & attrs & Hrd & Hat & Hf).
    exists bytes. rewrite Hat. split; [exact Hrd|].
    split; [discriminate|]. split; [exact Hf|].
    intros fuel. apply readLoop_breaks; reflexivity. }
  unfold readRecord. unfold hangs in Hh.
  destruct (readFile fs path) as [bytes|] eqn:Hrd.
  - destruct (getFileAttributes fs path) as [[ts sz]|] eqn:Hat.
    + rewrite Hh. eexists _, _. split; [reflexivity|]. split; [|split].
      * split; [discriminate|]. intros [Hx|Hx]; discriminate.
      * discriminate.
      * intros _. exists bytes, ts, sz. cbn.
        repeat split; try reflexivity.
        intros Hpos Hlt. unfold size_add. apply wrap_small.
        pose proof (size_nonneg bytes). lia.
    + eexists _, _. split; [reflexivity|]. split; [|split].
      * split; [intros _; right; reflexivity | reflexivity].
      * intros _. split; [reflexivity|].
        destruct (flushIfOver_chunk b b1 Hb1) as [-> | ->]; cbn.
        -- split; [left; reflexivity | lia].
        -- split; [right; reflexivity | intros Hpos; exact Hpos].
      * discriminate.
  - eexists _, _. split; [reflexivity|]. split; [|split].
    + split; [intros _; left; reflexivity | reflexivity].
    + intros _. split; [reflexivity|].
      destruct (flushIfOver_chunk b b1 Hb1) as [-> | ->]; cbn.
      * split; [left; reflexivity | lia].
      * split; [right; reflexivity | intros Hpos; exact Hpos].
    + discriminate.
Qed.

Lemma flushIfOver_le b :
  Chunk.totalSize (Builder.currentChunk b) <= kChunkSize ->
  flushIfOver b = Ok b.
Proof.
  intros Hle. unfold flushIfOver.
  destruct (Z.ltb_spec kChunkSize (Chunk.totalSize (Builder.currentChunk b)));
    [lia | reflexivity].
Qed.

Lemma flushIfOver_gt b :
  kChunkSize < Chunk.totalSize (Builder.currentChunk b) ->
  flushIfOver b = flushChunk b.
Proof.
  intros Hgt. unfold flushIfOver.
  destruct (Z.ltb_spec kChunkSize (Chunk.totalSize (Builder.currentChunk b)));
    [reflexivity | lia].
Qed.

Lemma consistent_nonempty c :
  chunk_consistent c -> 0 < Chunk.totalSize c -> Chunk.files c <> [].
Proof.
  unfold chunk_consistent. intros Hc Hpos Hnil. rewrite Hnil in Hc.
  cbn in Hc. rewrite Hc in Hpos. vm_compute in Hpos. discriminate.
Qed.

(** C10. In [appendFile] the check of the threshold and the flush it
    asks for (layout, compression, write to the stream, statistics) come
    before the file is opened.  So when the current chunk is over the
    threshold and the file cannot be opened or its attributes cannot be
    read, the call returns false after the chunk was written: the builder
    it leaves differs from the one it got, its current chunk went from
    holding files to empty, and the output has one chunk record more. *)
Theorem appendFile_failure_after_flush (fs : FileSystem) (path : string)
    (b : Builder.t) :
  kChunkSize < Chunk.totalSize (Builder.currentChunk b) ->
  Chunk.files (Builder.currentChunk b) <> [] ->
  stream_ok (Builder.outData b) ->
  readFile fs path = None \/ getFileAttributes fs path = None ->
  exists body,
    prepareChunkData (Builder.currentChunk b) = Ok body
    /\ appendFile fs path b
       = (do cdata <- compressData body; Ok (false, afterFlush b body cdata))
    /\ forall cdata,
         afterFlush b body cdata <> b
         /\ Chunk.files (Builder.currentChunk (afterFlush b body cdata)) = []
         /\ ofstream.written (Builder.outData (afterFlush b body cdata))
            = ofstream.written (Builder.outData b)
              ++ chunkRecord (size (Chunk.files (Builder.currentChunk b)))
                             body cdata
         /\ Builder.statistics (afterFlush b body cdata)
            = countChunk (Builder.statistics b)
                         (size (Chunk.files (Builder.currentChunk b)))
                         body cdata.
Proof.
  intros Hgt Hne Hok Hfail.
  exists (data (layoutWalk (Builder.currentChunk b))).
  split; [apply prepareChunkData_ok|]. split.
  - unfold appendFile. rewrite (flushIfOver_gt b Hgt).
    rewrite (flushChunk_nonempty b Hne Hok).
    destruct (compressData _) as [cdata| | | |]; cbn [bind]; try reflexivity.
    destruct Hfail as [-> | Hat]; [reflexivity|].
    destruct (readFile fs path); [|reflexivity]. rewrite Hat. reflexivity.
  - intros cdata. repeat split.
    intros Heq. apply Hne. rewrite <- Heq. reflexivity.
Qed.

Lemma pushFile_consistent b f :
  chunk_consistent (Builder.currentChunk b) ->
  chunk_consistent (Builder.currentChunk (pushFile b f)).
Proof.
  unfold chunk_consistent, pushFile. cbn. intros ->.
  rewrite dataBytes_app. cbn. unfold size_add, size.
  rewrite wrap_add_l. f_equal. lia.
Qed.

Lemma appendFile_consistent fs path b r b' :
  appendFile fs path b = Ok (r, b') ->
  chunk_consistent (Builder.currentChunk b) ->
  chunk_consistent (Builder.currentChunk b').
Proof.
  intros Hap Hc.
  destruct (flushIfOver b) as [b1| | | |] eqn:Hb1;
    try (unfold appendFile in Hap; rewrite Hb1 in Hap; discriminate).
  assert (Hc1 : chunk_consistent (Builder.currentChunk b1)).
  { destruct (flushIfOver_chunk b b1 Hb1) as [-> | ->];
      [exact Hc | reflexivity]. }
  rewrite (appendFile_after_check fs path b b1 Hb1) in Hap.
  destruct (hangs fs path); [discriminate|].
  destruct (readRecord fs path); injection Hap as _ <-;
    [apply pushFile_consistent|]; exact Hc1.
Qed.

(** One successful append of a file that can be read, on a chunk that is
    not over the threshold. *)
Lemma appendOne_under fs b path bytes attrs :
  Chunk.totalSize (Builder.currentChunk b) <= kChunkSize ->
  readFile fs path = Some bytes ->
  getFileAttributes fs path = Some attrs ->
  readFails fs path = false ->
  appendOne fs b path = Ok (pushFile b (fileRecord path bytes attrs)).
Proof.
  intros Hle Hrd Hat Hf. unfold appendOne.
  rewrite (appendFile_after_check fs path b b (flushIfOver_le b Hle)).
  destruct (hangs_read fs path bytes attrs Hrd Hat Hf) as [-> ->].
  reflexivity.
Qed.

(** C1. The chunk boundary is checked before a file is appended, with a
    strict comparison.  On a builder in use (stream open, [totalSize] the
    sum of the content sizes, threshold [kChunkSize] not negative):
    when [totalSize <= kChunkSize] the append starts without a flush, so
    output and statistics stay and the files stay in the current chunk
    when the call returns, which it does unless the read of the file
    fails;
    when [totalSize > kChunkSize] the chunk holds files and the append
    starts by writing it as one chunk record; and a file that was read is
    in the current chunk when the call returns, with nothing written after
    the check, whatever the size of the chunk has become (a file is read
    when it opens, has attributes and no read of it fails).  These
    conditions hold at every call of a run of appends that follows a
    successful [start] (last part).  So with
    [kChunkSize = 15] and three files of ten bytes: after two appends the
    chunk holds files 1 and 2 with [totalSize = 20] and nothing is written;
    the third append writes the chunk of files 1 and 2 and leaves file 3
    alone in the current chunk; the final flush writes the chunk of file
    3. *)
Theorem appendFile_boundary_policy :
  (forall (fs : FileSystem) (path : string) (b : Builder.t),
      chunk_consistent (Builder.currentChunk b) ->
      0 <= kChunkSize ->
      stream_ok (Builder.outData b) ->
      (Chunk.totalSize (Builder.currentChunk b) <= kChunkSize ->
       flushIfOver b = Ok b
       /\ (hangs fs path = false ->
           exists r b',
             appendFile fs path b = Ok (r, b')
             /\ Builder.outData b' = Builder.outData b
             /\ Builder.statistics b' = Builder.statistics b
             /\ Chunk.files (Builder.currentChunk b)
                `prefix_of` Chunk.files (Builder.currentChunk b'))
       /\ (forall r b',
             appendFile fs path b = Ok (r, b') ->
             Builder.outData b' = Builder.outData b
             /\ Builder.statistics b' = Builder.statistics b
             /\ Chunk.files (Builder.currentChunk b)
                `prefix_of` Chunk.files (Builder.currentChunk b')))
      /\ (kChunkSize < Chunk.totalSize (Builder.currentChunk b) ->
          Chunk.files (Builder.currentChunk b) <> []
          /\ exists body,
              prepareChunkData (Builder.currentChunk b) = Ok body
              /\ flushIfOver b
                 = (do cdata <- compressData body;
                    Ok (afterFlush b body cdata)))
      /\ (forall b1 bytes attrs,
            flushIfOver b = Ok b1 ->
            readFile fs path = Some bytes ->
            getFileAttributes fs path = Some attrs ->
            readFails fs path = false ->
            appendFile fs path b
            = Ok (true, pushFile b1 (fileRecord path bytes attrs))))
  /\ (forall (fs : FileSystem) (p1 p2 p3 : string) (c1 c2 c3 : list byte)
             (a1 a2 a3 : Z * Z) (b0 : Builder.t),
        kChunkSize = 15 ->
        readFile fs p1 = Some c1 -> readFile fs p2 = Some c2 ->
        readFile fs p3 = Some c3 ->
        getFileAttributes fs p1 = Some a1 ->
        getFileAttributes fs p2 = Some a2 ->
        getFileAttributes fs p3 = Some a3 ->
        readFails fs p1 = false -> readFails fs p2 = false ->
        readFails fs p3 = false ->
        length c1 = 10%nat -> length c2 = 10%nat -> length c3 = 10%nat ->
        Builder.currentChunk b0 = Chunk.empty ->
        stream_ok (Builder.outData b0) ->
        let f1 := fileRecord p1 c1 a1 in
        let f2 := fileRecord p2 c2 a2 in
        let f3 := fileRecord p3 c3 a3 in
        let chunk12 := {| Chunk.files := [f1; f2]; Chunk.totalSize := 20 |} in
        let chunk3 := {| Chunk.files := [f3]; Chunk.totalSize := 10 |} in
        let b2 := {| Builder.currentChunk := chunk12;
                     Builder.outData := Builder.outData b0;
                     Builder.statistics := Builder.statistics b0 |} in
        (do b1 <- appendOne fs b0 p1; appendOne fs b1 p2) = Ok b2
        /\ exists body12 body3,
            prepareChunkData chunk12 = Ok body12
            /\ prepareChunkData chunk3 = Ok body3
            /\ appendFile fs p3 b2
               = (do cd12 <- compressData body12;
                  Ok (true, pushFile (afterFlush b2 body12 cd12) f3))
            /\ forall cd12,
                 let b3 := pushFile (afterFlush b2 body12 cd12) f3 in
                 Builder.currentChunk b3 = chunk3
                 /\ ofstream.written (Builder.outData b3)
                    = ofstream.written (Builder.outData b0)
                      ++ chunkRecord 2 body12 cd12
                 /\ flush b3
                    = (do cd3 <- compressData body3;
                       Ok (afterFlush b3 body3 cd3))
                 /\ forall cd3,
                      ofstream.written
                        (Builder.outData (afterFlush b3 body3 cd3))
                      = ofstream.written (Builder.outData b0)
                        ++ chunkRecord 2 body12 cd12
                        ++ chunkRecord 1 body3 cd3)
  /\ (forall (fs : FileSystem) (path : string) (files : list string)
             (b0 b1 : Builder.t),
        start fs path Builder.new = (true, b0) ->
        appendAll fs files b0 = Ok b1 ->
        chunk_consistent (Builder.currentChunk b1)
        /\ stream_ok (Builder.outData b1)).
Proof.
  split; [|split]; cycle 2.
  { intros fs path files b0 b1 Hst Hrun.
    apply (appendAll_invariant
             (fun b => chunk_consistent (Builder.currentChunk b)
                       /\ stream_ok (Builder.outData b))
             fs files) with (b0 := b0); [| |exact Hrun].
    - intros b p b' [Hc Hok] Hap. split.
      + unfold appendOne in Hap.
        destruct (appendFile fs p b) as [[r b'']| | | |] eqn:Hr;
          cbn [bind] in Hap; try discriminate.
        injection Hap as <-. eapply appendFile_consistent; eassumption.
      + eapply appendOne_stream_ok; eassumption.
    - rewrite (start_new fs path b0 Hst). split; [reflexivity|].
      split; reflexivity. }
  - intros fs path b Hc HT Hok. split; [|split].
    + intros Hle. pose proof (flushIfOver_le b Hle) as Hb1.
      split; [exact Hb1|].
      rewrite (appendFile_after_check fs path b b Hb1).
      assert (Hret : forall r b',
                 Ok match readRecord fs path with
                    | Some f => (true, pushFile b f)
                    | None => (false, b)
                    end = Ok (r, b') ->
                 Builder.outData b' = Builder.outData b
                 /\ Builder.statistics b' = Builder.statistics b
                 /\ Chunk.files (Builder.currentChunk b)
                    `prefix_of` Chunk.files (Builder.currentChunk b')).
      { intros r b' Heq. destruct (readRecord fs path) as [f|];
          injection Heq as _ <-; cbn; repeat split; try reflexivity.
        apply prefix_app_r. reflexivity. }
      split.
      * intros ->. destruct (readRecord fs path) as [f|];
          eexists _, _; (split; [reflexivity|]); apply (Hret _ _ eq_refl).
      * intros r b'. destruct (hangs fs path); [discriminate|]. apply Hret.
    + intros Hgt.
      assert (Hne : Chunk.files (Builder.currentChunk b) <> [])
        by (apply consistent_nonempty; [exact Hc | lia]).
      split; [exact Hne|]. eexists. split; [apply prepareChunkData_ok|].
      rewrite (flushIfOver_gt b Hgt). apply flushChunk_nonempty; assumption.
    + intros b1 bytes attrs Hb1 Hrd Hat Hf.
      rewrite (appendFile_after_check fs path b b1 Hb1).
      destruct (hangs_read fs path bytes attrs Hrd Hat Hf) as [-> ->].
      reflexivity.
  - intros fs p1 p2 p3 c1 c2 c3 a1 a2 a3 b0 HT Hr1 Hr2 Hr3 Ha1 Ha2 Ha3
      Hf1 Hf2 Hf3 Hl1 Hl2 Hl3 Hb0 Hok f1 f2 f3 chunk12 chunk3 b2.
    assert (Hs1 : size c1 = 10) by (unfold size; rewrite Hl1; reflexivity).
    assert (Hs2 : size c2 = 10) by (unfold size; rewrite Hl2; reflexivity).
    assert (Hs3 : size c3 = 10) by (unfold size; rewrite Hl3; reflexivity).
    split.
    { rewrite (appendOne_under fs b0 p1 c1 a1)
        by (rewrite ?Hb0, ?HT; cbn; (lia || assumption)).
      cbn [bind].
      rewrite (appendOne_under fs _ p2 c2 a2); cycle 1.
      { unfold pushFile, fileRecord.
        cbn [Builder.currentChunk Chunk.totalSize File.contents].
        rewrite HT, Hb0, Hs1. vm_compute. discriminate. }
      { assumption. }
      { assumption. }
      { assumption. }
      unfold pushFile, b2, chunk12, f1, f2, fileRecord.
      cbn [Builder.currentChunk Builder.outData Builder.statistics
           Chunk.totalSize Chunk.files File.contents].
      rewrite Hb0, Hs1, Hs2. reflexivity. }
    exists (data (layoutWalk chunk12)), (data (layoutWalk chunk3)).
    split; [apply prepareChunkData_ok|].
    split; [apply prepareChunkData_ok|]. split.
    { unfold appendFile.
      rewrite (flushIfOver_gt b2) by (rewrite HT; cbn; lia).
      rewrite (flushChunk_nonempty b2) by (cbn; (discriminate || exact Hok)).
      cbn [Builder.currentChunk b2].
      destruct (compressData _) as [cd| | | |]; cbn [bind]; try reflexivity.
      rewrite Hr3, Ha3, Hf3, readAll_all. destruct a3. reflexivity. }
    intros cd12 b3.
    assert (Hb3 : Builder.currentChunk b3 = chunk3).
    { unfold b3, pushFile, chunk3, afterFlush, f3, fileRecord.
      cbn [Builder.currentChunk Chunk.totalSize Chunk.files File.contents
           Chunk.empty].
      rewrite Hs3. reflexivity. }
    split; [exact Hb3|]. split; [reflexivity|]. split.
    { unfold flush. rewrite (flushChunk_nonempty b3); cycle 1.
      { rewrite Hb3. discriminate. }
      { split; reflexivity. }
      rewrite Hb3. reflexivity. }
    intros cd3. cbn [afterFlush Builder.outData ofstream.written].
    rewrite Hb3. cbn [chunk3 Chunk.files]. change (size [f3]) with 1.
    unfold b3.
    cbn [pushFile afterFlush Builder.outData ofstream.written
         Builder.currentChunk b2 chunk12 Chunk.files].
    change (size [f1; f2]) with 2. rewrite <- app_assoc. reflexivity.
Qed.

End BuilderLemmas.

(* ===================================================================== *)
(** * The builder on the example file system *)
(* ===================================================================== *)

(** The folder [src] opens as a stream and has attributes, and every
    read of it fails: the append of [src] never returns.  [d.txt] opens
    but has no attributes: the append returns false and the builder stays
    as it was. *)
Lemma appendFile_outcome_witness :
  @appendFile (packedFormat 15) storeCodec exampleFS "src" exampleStarted
  = Diverges
  /\ exists r b',
      @appendFile (packedFormat 15) storeCodec exampleFS "d.txt"
                  exampleStarted
        = Ok (r, b')
      /\ r = false /\ b' = exampleStarted.
Proof.
  split.
  - exact (proj1 (proj1 (@appendFile_outcome (packedFormat 15) storeCodec
                           exampleFS "src" exampleStarted exampleStarted
                           eq_refl) eq_refl)).
  - destruct (proj2 (@appendFile_outcome (packedFormat 15) storeCodec
                       exampleFS "d.txt" exampleStarted exampleStarted
                       eq_refl) eq_refl)
      as (r & b' & Heq & Hiff & Hfalse & _).
    exists r, b'. split; [exact Heq|].
    assert (Hr : r = false) by (apply Hiff; right; reflexivity).
    split; [exact Hr|]. apply Hfalse. exact Hr.
Defined.

(** The loaded builder is over the threshold; appending a file that does
    not exist returns false after the chunk of two files was written. *)
Lemma appendFile_failure_after_flush_witness :
  exists b',
    @appendFile (packedFormat 15) storeCodec exampleFS "none.txt" exampleLoaded
      = Ok (false, b')
    /\ b' <> exampleLoaded
    /\ Chunk.files (Builder.currentChunk b') = []
    /\ length (ofstream.written (Builder.outData exampleLoaded)) = 4%nat
    /\ length (ofstream.written (Builder.outData b')) = 110%nat.
Proof.
  destruct (@appendFile_failure_after_flush (packedFormat 15) storeCodec
              exampleFS "none.txt" exampleLoaded
              ltac:(vm_compute; reflexivity)
              ltac:(vm_compute; discriminate)
              ltac:(vm_compute; split; reflexivity)
              ltac:(left; vm_compute; reflexivity))
    as (body & Hprep & Heq & Hall).
  vm_compute in Hprep. injection Hprep as <-.
  match type of Heq with
  | _ = bind (compressData ?body) _ =>
      assert (Hcd : exists cd, @compressData storeCodec body = Ok cd)
        by (eexists; vm_compute; reflexivity)
  end.
  destruct Hcd as [cd Hcd]. rewrite Hcd in Heq. cbn [bind] in Heq.
  destruct (Hall cd) as (Hne & Hfiles & _ & _).
  eexists. split; [exact Heq|]. split; [exact Hne|].
  split; [exact Hfiles|].
  vm_compute in Hcd. injection Hcd as <-.
  split; vm_compute; reflexivity.
Defined.

(** Three files of ten bytes with the threshold 15: the first two appends
    leave both files in the current chunk and write nothing. *)
Lemma appendFile_boundary_policy_witness :
  (do b1 <- @appendOne (packedFormat 15) storeCodec exampleFS
              exampleStarted "a.txt";
   @appendOne (packedFormat 15) storeCodec exampleFS b1 "b.txt")
  = Ok exampleLoaded.
Proof.
  exact (proj1 (proj1 (proj2 (@appendFile_boundary_policy (packedFormat 15)
                                storeCodec))
                 exampleFS "a.txt"%string "b.txt"%string "c.txt"%string
                 (ten x61) (ten x62) (ten x63)
                 (1700000000, 10) (1700000000, 10) (1700000000, 10)
                 exampleStarted
                 eq_refl eq_refl eq_refl eq_refl eq_refl eq_refl eq_refl
                 eq_refl eq_refl eq_refl
                 eq_refl eq_refl eq_refl eq_refl (conj eq_refl eq_refl))).
Defined.

(* ===================================================================== *)
(** * File selection: the acceptance predicate *)
(* ===================================================================== *)

Lemma string_app_assoc (a b c : string) : (a +:+ b) +:+ c = a +:+ (b +:+ c).
Proof.
  induction a as [|x a IH]; [reflexivity|].
  change (String x ((a +:+ b) +:+ c) = String x (a +:+ (b +:+ c))).
  rewrite IH. reflexivity.
Qed.

Lemma string_app_empty_r (a : string) : a +:+ "" = a.
Proof.
  induction a as [|x a IH]; [reflexivity|].
  change (String x (a +:+ "") = String x a). rewrite IH. reflexivity.
Qed.

Lemma orPattern_fold rest : forall acc,
  fold_left (fun re p => re +:+ ("|(" +:+ p +:+ ")")) rest acc
  = acc +:+ moreAlternatives rest.
Proof.
  induction rest as [|p rest IH]; intros acc; simpl.
  - rewrite string_app_empty_r. reflexivity.
  - rewrite IH. apply string_app_assoc.
Qed.

Lemma alternation_cons first rest :
  alternation (first :: rest)
  = ("(" +:+ first +:+ ")") +:+ moreAlternatives rest.
Proof.
  revert first. induction rest as [|p rest IH]; intros first.
  - change (alternation [first]) with ("(" +:+ first +:+ ")").
    change (moreAlternatives []) with "". rewrite string_app_empty_r.
    reflexivity.
  - change (alternation (first :: p :: rest))
      with (("(" +:+ first +:+ ")") +:+ "|" +:+ alternation (p :: rest)).
    rewrite IH.
    change (moreAlternatives (p :: rest))
      with (("|(" +:+ p +:+ ")") +:+ moreAlternatives rest).
    reflexivity.
Qed.

(** The loop of [constructOrRE] builds the alternation of its list. *)
Lemma orPattern_alternation first rest :
  orPattern first rest = alternation (first :: rest).
Proof.
  unfold orPattern. rewrite orPattern_fold, alternation_cons. reflexivity.
Qed.

Example orPattern_ex :
  orPattern "\.cpp$" ["\.h$"; "\.py$"] = "(\.cpp$)|(\.h$)|(\.py$)"%string.
Proof. reflexivity. Qed.

Section SelectionTheorems.
Context `{Regex}.

Lemma constructOrRE_Ok list re :
  constructOrRE list = Ok re ->
  match list with
  | [] => re = None
  | _ :: _ => re = Some (RE2_new (alternation list) false)
  end.
Proof.
  unfold constructOrRE. destruct list as [|first rest].
  - intros [= <-]. reflexivity.
  - rewrite orPattern_alternation.
    destruct (RE2_ok _); cbn; [|discriminate]. intros [= <-]. reflexivity.
Qed.

(** C8. With the two expressions [constructOrRE] makes of the include and
    exclude lists, [isFileAcceptable] accepts a path if and only if the
    include list is empty or the path matches the case-insensitive
    alternation [(p1)|(p2)|...] of the include list, and it is not so that
    the exclude list is not empty and the path matches the alternation of
    the exclude list.  With an empty include list every path passes the
    include test, with an empty exclude list none is rejected. *)
Theorem isFileAcceptable_iff (includeSet excludeSet : list string)
    (include exclude : option RE2) (path : string) :
  constructOrRE includeSet = Ok include ->
  constructOrRE excludeSet = Ok exclude ->
  (isFileAcceptable include exclude path = true <->
   (includeSet = []
    \/ PartialMatch path (RE2_new (alternation includeSet) false) = true)
   /\ ~ (excludeSet <> []
         /\ PartialMatch path (RE2_new (alternation excludeSet) false) = true))
  /\ (includeSet = [] -> excludeSet = [] ->
      isFileAcceptable include exclude path = true)
  /\ (includeSet = [] ->
      isFileAcceptable include exclude path
      = negb (match exclude with
              | Some re => PartialMatch path re
              | None => false
              end))
  /\ (excludeSet = [] ->
      isFileAcceptable include exclude path
      = match include with
        | Some re => PartialMatch path re
        | None => true
        end).
Proof.
  intros Hinc Hexc.
  apply constructOrRE_Ok in Hinc. apply constructOrRE_Ok in Hexc.
  unfold isFileAcceptable. split; [|split; [|split]].
  - destruct includeSet as [|i0 ir]; destruct excludeSet as [|e0 er];
      subst include exclude;
      repeat match goal with
             | |- context [PartialMatch ?p ?r] =>
                 destruct (PartialMatch p r) eqn:?
             end; cbn; intuition congruence.
  - intros -> ->. subst. reflexivity.
  - intros ->. subst include. destruct exclude as [re|]; [|reflexivity].
    destruct (PartialMatch path re); reflexivity.
  - intros ->. subst exclude. destruct include as [re|]; [|reflexivity].
    destruct (PartialMatch path re); reflexivity.
Qed.

End SelectionTheorems.

(** Literal patterns: with [src] included and [test] excluded,
    [src/main.cpp] is accepted. *)
Lemma isFileAcceptable_iff_witness :
  @isFileAcceptable literalRegex (Some "(src)"%string) (Some "(test)"%string)
    "(src)/main.cpp" = true
  <-> ((["src"%string] = []
        \/ @PartialMatch literalRegex "(src)/main.cpp"
             (@RE2_new literalRegex (alternation ["src"%string]) false) = true)
       /\ ~ (["test"%string] <> []
             /\ @PartialMatch literalRegex "(src)/main.cpp"
                  (@RE2_new literalRegex (alternation ["test"%string]) false)
                = true)).
Proof.
  exact (proj1 (@isFileAcceptable_iff literalRegex ["src"%string]
                  ["test"%string] (Some "(src)"%string)
                  (Some "(test)"%string) "(src)/main.cpp"%string
                  eq_refl eq_refl)).
Defined.

(* ===================================================================== *)
(** * File selection: the sorted list without duplicates *)
(* ===================================================================== *)

Lemma std_sort_sorted l : StronglySorted String.le (std_sort l).
Proof. apply StronglySorted_merge_sort; apply _. Qed.

Lemma std_sort_perm l : std_sort l ≡ₚ l.
Proof. apply merge_sort_Permutation. Qed.

(** Any sorted arrangement of [l] is the one [std_sort] yields. *)
Lemma std_sort_unique l k :
  Sorted String.le k -> k ≡ₚ l -> k = std_sort l.
Proof.
  intros Hs Hp. apply (Sorted_unique String.le); [exact Hs | |].
  - apply Sorted_merge_sort. apply _.
  - rewrite Hp. symmetry. apply std_sort_perm.
Qed.

Lemma std_sort_permutation l l' : l ≡ₚ l' -> std_sort l = std_sort l'.
Proof.
  intros Hp. apply std_sort_unique.
  - apply Sorted_merge_sort. apply _.
  - rewrite std_sort_perm. exact Hp.
Qed.

Lemma unique_cons_cons x y l :
  unique (x :: y :: l)
  = if String.eqb x y then unique (y :: l) else x :: unique (y :: l).
Proof. reflexivity. Qed.

Lemma unique_elem_of l x : x ∈ unique l <-> x ∈ l.
Proof.
  induction l as [|a l IH]; [reflexivity|].
  destruct l as [|b l]; [reflexivity|].
  rewrite unique_cons_cons. destruct (String.eqb_spec a b) as [->|Hne].
  - rewrite IH. rewrite !elem_of_cons. tauto.
  - rewrite (elem_of_cons (unique _)), IH, !elem_of_cons. tauto.
Qed.

Lemma unique_strictly_sorted l :
  StronglySorted String.le l -> StronglySorted string_lt (unique l).
Proof.
  induction l as [|a l IH]; intros Hs; [constructor|].
  apply StronglySorted_inv in Hs as [Hl Ha].
  destruct l as [|b l]; [repeat constructor|].
  rewrite unique_cons_cons. destruct (String.eqb_spec a b) as [->|Hne].
  - apply IH, Hl.
  - constructor; [apply IH, Hl|].
    apply Forall_forall. intros z Hz.
    apply (proj1 (unique_elem_of _ _)) in Hz.
    rewrite Forall_forall in Ha. split; [apply Ha, Hz|].
    intros ->. apply Hne.
    apply StronglySorted_inv in Hl as [_ Hb]. rewrite Forall_forall in Hb.
    apply elem_of_cons in Hz as [->|Hz]; [reflexivity|].
    apply (anti_symm String.le); [apply Ha; left | apply Hb, Hz].
Qed.

Lemma strictly_sorted_NoDup l : StronglySorted string_lt l -> NoDup l.
Proof.
  induction 1 as [|a l Hl IH Ha]; constructor; [|exact IH].
  intros Hin. rewrite Forall_forall in Ha. destruct (Ha a Hin) as [_ Hne].
  apply Hne. reflexivity.
Qed.

Lemma strictly_sorted_sorted l :
  StronglySorted string_lt l -> StronglySorted String.le l.
Proof.
  induction 1 as [|a l Hl IH Ha]; constructor; [exact IH|].
  eapply Forall_impl; [exact Ha|]. intros z [Hz _]. exact Hz.
Qed.

Section ScanLemmas.
Context `{Regex}.

Lemma scan_inner include exclude (cands files : list string) :
  fold_left
    (fun files path =>
       if isFileAcceptable include exclude path then files ++ [path]
       else files)
    cands files
  = files ++ filter (fun p => isFileAcceptable include exclude p = true) cands.
Proof.
  revert files. induction cands as [|p cands IH]; intros files; simpl.
  - rewrite app_nil_r. reflexivity.
  - destruct (isFileAcceptable include exclude p) eqn:Hp.
    + rewrite filter_cons_True by exact Hp.
      rewrite IH, <- app_assoc. reflexivity.
    + rewrite filter_cons_False by (rewrite Hp; discriminate). apply IH.
Qed.

(** The scan loop appends the acceptable candidates to the explicit
    files. *)
Lemma scanFolders_filter fs include exclude pathSet files :
  scanFolders fs include exclude pathSet files
  = files ++ filter (fun p => isFileAcceptable include exclude p = true)
                    (candidates fs pathSet).
Proof.
  unfold scanFolders, candidates. revert files.
  induction pathSet as [|root pathSet IH]; intros files; simpl.
  - rewrite app_nil_r. reflexivity.
  - rewrite scan_inner, IH, filter_app, <- app_assoc. reflexivity.
Qed.

End ScanLemmas.

Section ProjectFilesTheorems.
Context `{Regex}.

(** The list [projectFiles] makes is sorted in the lexicographic order
    of [std::string] and holds no string twice.  Its members are the
    explicit files and the accepted candidates of the scans.  It is the
    same for every order in which the scans yield their candidates, and a
    path that is both an explicit file and a candidate of a scan occurs in
    it exactly once. *)
Lemma projectFiles_strictly_sorted (fs : FileSystem)
    (include exclude : option RE2) (pathSet fileSet : list string) :
  StronglySorted String.le (projectFiles fs include exclude pathSet fileSet)
  /\ StronglySorted string_lt
       (projectFiles fs include exclude pathSet fileSet)
  /\ NoDup (projectFiles fs include exclude pathSet fileSet)
  /\ (forall p,
        p ∈ projectFiles fs include exclude pathSet fileSet <->
        p ∈ fileSet
        \/ (p ∈ candidates fs pathSet
            /\ isFileAcceptable include exclude p = true))
  /\ (forall fs',
        candidates fs' pathSet ≡ₚ candidates fs pathSet ->
        projectFiles fs' include exclude pathSet fileSet
        = projectFiles fs include exclude pathSet fileSet)
  /\ (forall p,
        p ∈ fileSet -> p ∈ candidates fs pathSet ->
        count_occ String.string_dec
          (projectFiles fs include exclude pathSet fileSet) p = 1%nat).
Proof.
  assert (Hstrict : StronglySorted string_lt
                      (projectFiles fs include exclude pathSet fileSet)).
  { unfold projectFiles. apply unique_strictly_sorted, std_sort_sorted. }
  assert (Hmem : forall p,
             p ∈ projectFiles fs include exclude pathSet fileSet <->
             p ∈ fileSet
             \/ (p ∈ candidates fs pathSet
                 /\ isFileAcceptable include exclude p = true)).
  { intros p. unfold projectFiles.
    rewrite unique_elem_of, std_sort_perm, scanFolders_filter.
    rewrite elem_of_app, list_elem_of_filter. tauto. }
  split; [apply strictly_sorted_sorted, Hstrict|].
  split; [exact Hstrict|].
  split; [apply strictly_sorted_NoDup, Hstrict|].
  split; [exact Hmem|]. split.
  - intros fs' Hperm. unfold projectFiles. f_equal.
    apply std_sort_permutation. rewrite !scanFolders_filter, Hperm.
    reflexivity.
  - intros p Hfile _.
    apply NoDup_count_occ'.
    + apply NoDup_ListNoDup, strictly_sorted_NoDup, Hstrict.
    + apply list_elem_of_In, Hmem. left. exact Hfile.
Qed.

End ProjectFilesTheorems.

(** The example project lists [c.txt] and [a.txt] and scans [src], which
    yields [b.txt] and [a.txt]. *)
Example projectFiles_ex :
  @projectFiles literalRegex exampleFS None None ["src"%string]
    ["c.txt"%string; "a.txt"%string]
  = ["a.txt"%string; "b.txt"%string; "c.txt"%string].
Proof. vm_compute. reflexivity. Qed.

(* ===================================================================== *)
(** * Parsing: [trim] *)
(* ===================================================================== *)

(** [trim] passes [e + 1] as the count of [substr], so the result starts
    at the first character that is no blank and then runs over [e + 1]
    characters, not up to position [e]: as many trailing blanks stay as
    there are leading ones (or fewer when the string ends first). *)
Lemma trim_unfold s b e :
  find_first_not_of (String " " (String tab EmptyString)) s = Some b ->
  find_last_not_of (String " " (String tab EmptyString)) s = Some e ->
  trim s = substring b (e + 1) s /\ trimmed s = substring b (e + 1 - b) s.
Proof.
  intros Hb He. unfold trim, trimmed, substr. rewrite Hb, He.
  split; reflexivity.
Qed.

(** Without a leading blank the two agree. *)
Lemma trim_no_leading_blank s e :
  find_first_not_of (String " " (String tab EmptyString)) s = Some 0%nat ->
  find_last_not_of (String " " (String tab EmptyString)) s = Some e ->
  trim s = trimmed s.
Proof.
  intros Hb He. destruct (trim_unfold s 0 e Hb He) as [-> ->].
  rewrite Nat.sub_0_r. reflexivity.
Qed.

Lemma substring_length n m s :
  String.length (substring n m s) = Nat.min m (String.length s - n).
Proof.
  revert n m. induction s as [|c s IH]; intros n m.
  - destruct n, m; reflexivity.
  - destruct n as [|n].
    + destruct m as [|m]; [reflexivity|]. simpl. rewrite IH.
      rewrite Nat.sub_0_r. reflexivity.
    + simpl. apply IH.
Qed.

Lemma find_last_not_of_lt set s e :
  find_last_not_of set s = Some e -> (e < String.length s)%nat.
Proof.
  revert e. induction s as [|c s IH]; intros e; simpl; [discriminate|].
  destruct (find_last_not_of set s) as [i|].
  - intros [= <-]. specialize (IH i eq_refl). lia.
  - destruct (char_in c set); [discriminate|]. intros [= <-]. lia.
Qed.

Lemma find_first_le_last set s b e :
  find_first_not_of set s = Some b -> find_last_not_of set s = Some e ->
  (b <= e)%nat.
Proof.
  revert b e. induction s as [|c s IH]; intros b e; simpl; [discriminate|].
  destruct (char_in c set).
  - destruct (find_first_not_of set s) as [b'|]; [|discriminate].
    destruct (find_last_not_of set s) as [e'|]; [|discriminate].
    intros [= <-] [= <-]. specialize (IH b' e' eq_refl eq_refl). lia.
  - intros [= <-] _. lia.
Qed.

(** Whenever a string has a blank before its first and a blank after its
    last other character, [trim] returns more than the trimmed string. *)
Lemma trim_wrong_on_both_sides s b e :
  find_first_not_of (String " " (String tab EmptyString)) s = Some b ->
  find_last_not_of (String " " (String tab EmptyString)) s = Some e ->
  (0 < b)%nat -> (e + 1 < String.length s)%nat ->
  (String.length (trimmed s) < String.length (trim s))%nat.
Proof.
  intros Hb He Hlead Htrail.
  destruct (trim_unfold s b e Hb He) as [-> ->].
  pose proof (find_first_le_last _ s b e Hb He).
  rewrite !substring_length. lia.
Qed.

(** C4. The values stored by [parseInput] are not trimmed on both sides:
    on [" a "], which has a leading and a trailing blank, [trim] returns
    ["a "] while the part from the first to the last character that is no
    blank is ["a"]; so the directive [path  src  ] stores ["src  "] and the
    line [ a.txt ] stores the file ["a.txt "]. *)
Theorem trim_keeps_trailing_blank :
  trim " a " = "a "%string
  /\ trimmed " a " = "a"%string
  /\ trim " a " <> trimmed " a "
  /\ extractSuffix "path  src  " "path" = Some "src  "%string
  /\ files_in (parseInput [" a.txt "%string]) = ["a.txt "%string].
Proof.
  repeat split; try reflexivity. vm_compute. discriminate.
Qed.

Example trim_leading : trim "  a b" = "a b"%string.
Proof. reflexivity. Qed.

Example trim_blank : trim "   " = ""%string.
Proof. reflexivity. Qed.

Example parseInput_ex :
  parseInput ["path  src  # sources"%string; "include \.cpp$"%string;
              "  # only a comment"%string; "readme.txt"%string]
  = {| paths := ["src  "%string]; include := ["\.cpp$"%string];
       exclude := []; files_in := ["readme.txt"%string] |}.
Proof. reflexivity. Qed.

(* ===================================================================== *)
(** * A whole build on the example file system *)
(* ===================================================================== *)

(** The project [x.cfg] lists [c.txt] and [a.txt] and scans [src]: the
    builder gets [a.txt], [b.txt], [c.txt]; with the threshold 15 the first
    chunk holds two files and the last flush writes the third.  The archive
    is the 4 bytes of the file header, a chunk record of 12 + 94 bytes and
    one of 12 + 47 bytes; the size last reported is that of the
    compressed bodies. *)
Example buildProject_ex :
  exists st,
    @buildProject (packedFormat 15) storeCodec literalRegex exampleFS "x.cfg"
                  0
      = Ok st
    /\ Chunk.files (Builder.currentChunk (Run.builder st)) = []
    /\ Builder.statistics (Run.builder st)
       = {| Statistics.fileCount := 3; Statistics.fileSize := 141;
            Statistics.resultSize := 141 |}
    /\ length (ofstream.written (Builder.outData (Run.builder st)))
       = 169%nat
    /\ Run.lastResultSize st = 141.
Proof.
  eexists. split; [vm_compute; reflexivity|].
  repeat split.
Qed.

(* ===================================================================== *)
(** * A run of appends as a grouping of the files read *)
(* ===================================================================== *)

Lemma mjoin_cons {A} (x : list A) (l : list (list A)) :
  mjoin (x :: l) = x ++ mjoin l.
Proof. reflexivity. Qed.

Lemma withChunk_current b : withChunk b (Builder.currentChunk b) = b.
Proof. destruct b. reflexivity. Qed.

Lemma withChunk_withChunk b c c' : withChunk (withChunk b c) c' = withChunk b c'.
Proof. reflexivity. Qed.

Lemma pushFile_withChunk b f :
  pushFile b f = withChunk b (pushChunk (Builder.currentChunk b) f).
Proof. reflexivity. Qed.

Section RunLemmas.
Context `{Format} `{Codec}.

Lemma fold_bind_failed {S A} (f : S -> A -> result S)
    (l : list A) (r : result S) :
  (forall b, r <> Ok b) ->
  fold_left (fun rb a => do b <- rb; f b a) l r = r.
Proof.
  revert r. induction l as [|a l IH]; intros r Hr; [reflexivity|].
  simpl. destruct r as [b| | | |]; cbn [bind].
  - exfalso. apply (Hr b). reflexivity.
  - apply IH. discriminate.
  - apply IH. discriminate.
  - apply IH. discriminate.
  - apply IH. discriminate.
Qed.

(** A loop that threads a [result] runs its first step and then the
    rest. *)
Lemma fold_bind_cons {S A} (f : S -> A -> result S)
    (a : A) (l : list A) (b : S) :
  fold_left (fun rb a => do b <- rb; f b a) (a :: l) (Ok b)
  = do b1 <- f b a; fold_left (fun rb a => do b <- rb; f b a) l (Ok b1).
Proof.
  simpl. destruct (f b a) as [b1| | | |]; cbn [bind]; [reflexivity| | | |];
    apply fold_bind_failed; discriminate.
Qed.

Lemma appendAll_cons fs p ps b :
  appendAll fs (p :: ps) b = do b1 <- appendOne fs b p; appendAll fs ps b1.
Proof. unfold appendAll. apply fold_bind_cons. Qed.

Lemma writeChunks_cons c cs b :
  writeChunks (c :: cs) b
  = do b1 <- flushChunk (withChunk b c); writeChunks cs b1.
Proof.
  unfold writeChunks.
  apply (fold_bind_cons (fun b c => flushChunk (withChunk b c))).
Qed.

(** The first statement of [appendFile] writes the chunk exactly when it
    is over the threshold and holds a file. *)
Lemma flushIfOver_overThreshold b :
  flushIfOver b
  = if overThreshold (Builder.currentChunk b) then flushChunk b else Ok b.
Proof.
  unfold flushIfOver, overThreshold.
  destruct (_ <? _); [|reflexivity].
  destruct (Chunk.files (Builder.currentChunk b)) eqn:Hfs; [|reflexivity].
  cbn. apply flushChunk_empty, Hfs.
Qed.

Lemma appendOne_readRecord fs b p :
  appendOne fs b p
  = do b1 <- flushIfOver b;
    if hangs fs p then Diverges
    else Ok match readRecord fs p with
            | Some f => pushFile b1 f
            | None => b1
            end.
Proof.
  unfold appendOne.
  destruct (flushIfOver b) as [b1| | | |] eqn:Hb1.
  - rewrite (appendFile_after_check fs p b b1 Hb1). cbn [bind].
    destruct (hangs fs p); [reflexivity|].
    destruct (readRecord fs p); reflexivity.
  - unfold appendFile. rewrite Hb1. reflexivity.
  - unfold appendFile. rewrite Hb1. reflexivity.
  - unfold appendFile. rewrite Hb1. reflexivity.
  - unfold appendFile. rewrite Hb1. reflexivity.
Qed.

Lemma flushChunk_over_empty b b1 :
  overThreshold (Builder.currentChunk b) = true ->
  flushChunk b = Ok b1 -> Builder.currentChunk b1 = Chunk.empty.
Proof.
  unfold overThreshold, flushChunk. intros Hov Hfl.
  destruct (Chunk.files (Builder.currentChunk b)) as [|f fs].
  - rewrite andb_false_r in Hov. discriminate.
  - destruct (prepareChunkData _); cbn [bind] in Hfl; try discriminate.
    destruct (writeChunk _ _ _); cbn [bind] in Hfl; try discriminate.
    injection Hfl as <-. reflexivity.
Qed.

(** What follows the chunks does not depend on the current chunk the
    writing starts from. *)
Lemma writeChunks_from {A} (k : Builder.t -> result A) cs b c :
  (forall b c, k (withChunk b c) = k b) ->
  (do b' <- writeChunks cs (withChunk b c); k b')
  = (do b' <- writeChunks cs b; k b').
Proof.
  intros Hk. destruct cs as [|c0 cs]; [cbn; apply Hk|].
  rewrite !writeChunks_cons, withChunk_withChunk. reflexivity.
Qed.

Lemma settled_cons fs p ps :
  settled fs (p :: ps) = negb (hangs fs p) && settled fs ps.
Proof. reflexivity. Qed.

Lemma settled_reached fs paths :
  settled fs paths = true -> reached fs paths = paths.
Proof.
  induction paths as [|p ps IH]; [reflexivity|].
  rewrite settled_cons. intros [Hp Hps]%andb_prop. cbn [reached].
  destruct (hangs fs p); [discriminate|]. rewrite IH by exact Hps.
  reflexivity.
Qed.

(** The loop of appends writes the chunks [groupFiles] closes over the
    paths it gets to; then it is left with the chunk [groupFiles] leaves
    open, or it hangs on the last path it got to. *)
Lemma appendAll_refines fs paths : forall b,
  appendAll fs paths b
  = do b' <- writeChunks
               (fst (groupFiles (Builder.currentChunk b)
                       (map (readRecord fs) (reached fs paths)))) b;
    if settled fs paths
    then Ok (withChunk b'
               (snd (groupFiles (Builder.currentChunk b)
                       (map (readRecord fs) (reached fs paths)))))
    else Diverges.
Proof.
  induction paths as [|p ps IH]; intros b.
  - cbn. rewrite withChunk_current. reflexivity.
  - rewrite appendAll_cons, appendOne_readRecord,
      flushIfOver_overThreshold, settled_cons.
    cbn [reached].
    destruct (hangs fs p) eqn:Hh.
    + cbn [negb andb map groupFiles fst snd].
      rewrite ?(hangs_readRecord fs p Hh).
      destruct (overThreshold (Builder.currentChunk b)) eqn:Hov.
      * rewrite writeChunks_cons, withChunk_current.
        destruct (flushChunk b) as [b1| | | |]; reflexivity.
      * reflexivity.
    + cbn [negb andb map groupFiles fst snd].
      destruct (overThreshold (Builder.currentChunk b)) eqn:Hov.
      * rewrite writeChunks_cons, withChunk_current.
        destruct (flushChunk b) as [b1| | | |] eqn:Hfl; cbn [bind];
          try reflexivity.
        pose proof (flushChunk_over_empty b b1 Hov Hfl) as Hb1.
        rewrite IH.
        destruct (readRecord fs p) as [f|].
        -- rewrite pushFile_withChunk, Hb1.
           cbn [withChunk Builder.currentChunk].
           apply (writeChunks_from
                    (fun b' => if settled fs ps then Ok (withChunk b' _)
                               else Diverges) _ b1).
           intros b0 c. destruct (settled fs ps); reflexivity.
        -- rewrite Hb1. reflexivity.
      * cbn [bind]. rewrite IH.
        destruct (readRecord fs p) as [f|]; [|reflexivity].
        rewrite pushFile_withChunk. cbn [withChunk Builder.currentChunk].
        apply (writeChunks_from
                 (fun b' => if settled fs ps then Ok (withChunk b' _)
                            else Diverges) _ b).
        intros b0 c. destruct (settled fs ps); reflexivity.
Qed.

Lemma unsettled_hangs fs paths :
  settled fs paths = false -> exists p, p ∈ paths /\ hangs fs p = true.
Proof.
  induction paths as [|p ps IH]; [discriminate|].
  rewrite settled_cons. destruct (hangs fs p) eqn:Hp.
  - intros _. exists p. split; [left | exact Hp].
  - cbn [negb andb]. intros Hs. destruct (IH Hs) as (q & Hq & Hhq).
    exists q. split; [right; exact Hq | exact Hhq].
Qed.

(** A run no path of which hangs. *)
Lemma appendAll_settled fs paths b :
  settled fs paths = true ->
  appendAll fs paths b
  = do b' <- writeChunks
               (fst (groupFiles (Builder.currentChunk b)
                       (map (readRecord fs) paths))) b;
    Ok (withChunk b'
          (snd (groupFiles (Builder.currentChunk b)
                  (map (readRecord fs) paths)))).
Proof.
  intros Hs. rewrite appendAll_refines, Hs, (settled_reached fs paths Hs).
  reflexivity.
Qed.

(** A run that returns met no path that hangs. *)
Lemma appendAll_Ok_settled fs paths b b' :
  appendAll fs paths b = Ok b' -> settled fs paths = true.
Proof.
  rewrite appendAll_refines. destruct (settled fs paths); [reflexivity|].
  destruct (writeChunks _ b); discriminate.
Qed.

(** The chunks hold the files of the first chunk and the files read, in
    order, and no closed chunk is empty. *)
Lemma groupFiles_partition reads : forall cur,
  mjoin (map Chunk.files (fst (groupFiles cur reads)))
    ++ Chunk.files (snd (groupFiles cur reads))
  = Chunk.files cur ++ filesRead reads
  /\ Forall (fun c => Chunk.files c <> [])
            (fst (groupFiles cur reads)).
Proof.
  induction reads as [|r reads IH]; intros cur.
  - cbn. rewrite app_nil_r. split; [reflexivity | constructor].
  - cbn [groupFiles fst snd].
    set (cur1 := if overThreshold cur then Chunk.empty else cur).
    set (cur2 := match r with Some f => pushChunk cur1 f | None => cur1 end).
    destruct (IH cur2) as [Hcat Hne].
    assert (Hcur2 : Chunk.files cur2 ++ filesRead reads
                    = Chunk.files cur1 ++ filesRead (r :: reads)).
    { unfold cur2. destruct r as [f|]; cbn; [|reflexivity].
      rewrite <- app_assoc. reflexivity. }
    destruct (overThreshold cur) eqn:Hov.
    + split.
      * cbn [map]. rewrite mjoin_cons, <- app_assoc, Hcat, Hcur2.
        reflexivity.
      * constructor; [|exact Hne]. unfold overThreshold in Hov.
        destruct (Chunk.files cur); [|discriminate].
        rewrite andb_false_r in Hov. discriminate.
    + split; [|exact Hne]. rewrite Hcat, Hcur2. reflexivity.
Qed.

Lemma writeChunks_app cs cs' : forall b,
  writeChunks (cs ++ cs') b = do b' <- writeChunks cs b; writeChunks cs' b'.
Proof.
  induction cs as [|c cs IH]; intros b; [reflexivity|].
  rewrite <- app_comm_cons, !writeChunks_cons.
  destruct (flushChunk (withChunk b c)) as [b1| | | |]; cbn [bind];
    [apply IH | reflexivity ..].
Qed.

(** On an open stream the chunks are written as their chunk records, one
    after the other. *)
Lemma writeChunks_records cs : forall b,
  stream_ok (Builder.outData b) ->
  Forall (fun c => Chunk.files c <> []) cs ->
  (do b' <- writeChunks cs b; Ok (ofstream.written (Builder.outData b')))
  = (do bytes <- chunkRecords cs;
     Ok (ofstream.written (Builder.outData b) ++ bytes)).
Proof.
  induction cs as [|c cs IH]; intros b Hok Hne.
  - cbn. rewrite app_nil_r. reflexivity.
  - apply Forall_cons in Hne as [Hc Hne].
    rewrite writeChunks_cons.
    rewrite (flushChunk_nonempty (withChunk b c)) by assumption.
    cbn [chunkRecords withChunk Builder.currentChunk].
    destruct (compressData _) as [cd| | | |]; cbn [bind]; try reflexivity.
    rewrite IH by (assumption || (split; reflexivity)).
    cbn [afterFlush withChunk Builder.outData Builder.currentChunk
         ofstream.written].
    destruct (chunkRecords cs) as [rest| | | |]; cbn [bind]; try reflexivity.
    rewrite <- app_assoc. reflexivity.
Qed.

(** The size of the body [prepareChunkData] returns. *)
Lemma totalSizeOf_bodyBytes chunk :
  totalSizeOf chunk = wrap (Z.of_nat (bodyBytes (Chunk.files chunk))).
Proof.
  unfold totalSizeOf, headerSizeOf, size_mul, size_add, bodyBytes, size.
  rewrite getChunkNameTotalSize_sum, getChunkDataTotalSize_sum.
  rewrite (wrap_add_r (wrap (_ * _))), (wrap_add_l (_ * _)).
  rewrite wrap_add_r, wrap_add_l. f_equal. lia.
Qed.

Lemma flushChunk_statistics b b1 :
  Chunk.files (Builder.currentChunk b) <> [] ->
  flushChunk b = Ok b1 ->
  Statistics.fileCount (Builder.statistics b1)
    = wrap (Statistics.fileCount (Builder.statistics b)
            + size (Chunk.files (Builder.currentChunk b)))
  /\ Statistics.fileSize (Builder.statistics b1)
     = wrap (Statistics.fileSize (Builder.statistics b)
             + Z.of_nat (bodyBytes (Chunk.files (Builder.currentChunk b)))).
Proof.
  intros Hne Hfl. unfold flushChunk in Hfl.
  destruct (Chunk.files (Builder.currentChunk b)) as [|f fs] eqn:Hfs;
    [congruence|].
  rewrite prepareChunkData_ok in Hfl. cbn [bind] in Hfl.
  unfold writeChunk in Hfl.
  destruct (compressData _) as [cd| | | |]; cbn [bind] in Hfl; try discriminate.
  injection Hfl as <-. cbn. rewrite Hfs. split; [reflexivity|].
  rewrite layoutWalk_size, totalSizeOf_bodyBytes, Hfs.
  unfold size_add. apply wrap_add_r.
Qed.

Lemma bodyBytes_app l k : bodyBytes (l ++ k) = (bodyBytes l + bodyBytes k)%nat.
Proof.
  unfold bodyBytes. rewrite length_app, nameBytes_app, dataBytes_app. lia.
Qed.

Lemma size_app {A} (l k : list A) : size (l ++ k) = size l + size k.
Proof. unfold size. rewrite length_app. lia. Qed.

(** The statistics after the chunks [cs]: the files and the body bytes of
    all of them are counted. *)
Lemma writeChunks_statistics cs : forall b b',
  Forall (fun c => Chunk.files c <> []) cs ->
  0 <= Statistics.fileCount (Builder.statistics b) < size_max ->
  0 <= Statistics.fileSize (Builder.statistics b) < size_max ->
  writeChunks cs b = Ok b' ->
  Statistics.fileCount (Builder.statistics b')
    = wrap (Statistics.fileCount (Builder.statistics b)
            + size (mjoin (map Chunk.files cs)))
  /\ Statistics.fileSize (Builder.statistics b')
     = wrap (Statistics.fileSize (Builder.statistics b)
             + Z.of_nat (bodyBytes (mjoin (map Chunk.files cs)))).
Proof.
  induction cs as [|c cs IH]; intros b b' Hne Hfc Hfs Hw.
  - injection Hw as <-. cbn. rewrite !Z.add_0_r, !wrap_small by assumption.
    split; reflexivity.
  - apply Forall_cons in Hne as [Hc Hne].
    rewrite writeChunks_cons in Hw.
    destruct (flushChunk (withChunk b c)) as [b1| | | |] eqn:Hfl;
      cbn [bind] in Hw; try discriminate.
    destruct (flushChunk_statistics (withChunk b c) b1 Hc Hfl) as [H1 H2].
    cbn [withChunk Builder.currentChunk Builder.statistics] in H1, H2.
    destruct (IH b1 b' Hne) as [H3 H4];
      [rewrite H1; apply wrap_range | rewrite H2; apply wrap_range
      | exact Hw |].
    cbn [map]. rewrite mjoin_cons, size_app, bodyBytes_app.
    rewrite H3, H4, H1, H2, !wrap_add_l. split; f_equal; lia.
Qed.

Lemma pushChunk_consistent c f :
  chunk_consistent c -> chunk_consistent (pushChunk c f).
Proof.
  unfold chunk_consistent, pushChunk. cbn. intros ->.
  rewrite dataBytes_app. cbn. unfold size_add, size.
  rewrite wrap_add_l. f_equal. lia.
Qed.

Lemma groupFiles_bounded reads : forall cur,
  0 <= kChunkSize ->
  chunk_consistent cur -> softBounded cur ->
  Forall (fun c => chunk_consistent c
                   /\ kChunkSize < Chunk.totalSize c
                   /\ exists init f,
                        Chunk.files c = init ++ [f]
                        /\ wrap (Z.of_nat (dataBytes init)) <= kChunkSize)
         (fst (groupFiles cur reads))
  /\ chunk_consistent (snd (groupFiles cur reads))
  /\ softBounded (snd (groupFiles cur reads)).
Proof.
  induction reads as [|r reads IH]; intros cur HT Hc Hs.
  - cbn. split; [constructor|]. split; assumption.
  - cbn [groupFiles fst snd].
    set (cur1 := if overThreshold cur then Chunk.empty else cur).
    set (cur2 := match r with Some f => pushChunk cur1 f | None => cur1 end).
    assert (Hc1 : chunk_consistent cur1).
    { unfold cur1. destruct (overThreshold cur); [reflexivity | exact Hc]. }
    assert (Hs1 : softBounded cur1).
    { unfold cur1. destruct (overThreshold cur); [left; reflexivity|exact Hs]. }
    assert (Hle : wrap (Z.of_nat (dataBytes (Chunk.files cur1))) <= kChunkSize).
    { unfold cur1. destruct (overThreshold cur) eqn:Hov.
      - cbn. rewrite wrap_small; [exact HT | unfold size_max; lia].
      - unfold overThreshold in Hov. rewrite <- Hc.
        destruct (Z.ltb_spec kChunkSize (Chunk.totalSize cur)) as [Hlt|Hge];
          [|exact Hge].
        destruct (Chunk.files cur) eqn:Hfs; [|discriminate].
        rewrite Hc, Hfs. cbn.
        rewrite wrap_small; [exact HT | unfold size_max; lia]. }
    assert (Hc2 : chunk_consistent cur2).
    { unfold cur2. destruct r; [apply pushChunk_consistent|]; exact Hc1. }
    assert (Hs2 : softBounded cur2).
    { unfold cur2. destruct r as [f|]; [|exact Hs1].
      right. exists (Chunk.files cur1), f. split; [reflexivity | exact Hle]. }
    destruct (IH cur2 HT Hc2 Hs2) as (Hall & Hcl & Hsl).
    split; [|split; assumption].
    destruct (overThreshold cur) eqn:Hov; [|exact Hall].
    constructor; [|exact Hall]. unfold overThreshold in Hov.
    apply andb_prop in Hov as [Hlt Hne]. apply Z.ltb_lt in Hlt.
    split; [exact Hc|]. split; [exact Hlt|].
    destruct Hs as [Hnil | Hex]; [|exact Hex].
    rewrite Hnil in Hne. discriminate.
Qed.

(** X1. A run of [appendFile] calls over the paths [paths] writes, in
    order, the chunks that [groupFiles] closes over the paths the run gets
    to: all of them, or those up to the first path on which the read loop
    never ends.  In the first case the run is left with the chunk
    [groupFiles] leaves open; in the second it never returns.  Output and
    statistics are those after these chunks.  The chunks hold the files
    the builder held before and the files read (a path that cannot be
    opened or has no attributes is skipped), in the order of the calls,
    each in one chunk; no chunk written is empty. *)
Theorem appendAll_groups (fs : FileSystem) (paths : list string)
    (b : Builder.t) :
  let reads := map (readRecord fs) (reached fs paths) in
  let g := groupFiles (Builder.currentChunk b) reads in
  appendAll fs paths b
    = (do b' <- writeChunks (fst g) b;
       if settled fs paths then Ok (withChunk b' (snd g)) else Diverges)
  /\ mjoin (map Chunk.files (fst g)) ++ Chunk.files (snd g)
     = Chunk.files (Builder.currentChunk b) ++ filesRead reads
  /\ Forall (fun c => Chunk.files c <> []) (fst g)
  /\ (settled fs paths = true -> reached fs paths = paths)
  /\ (settled fs paths = false ->
      exists p, p ∈ paths /\ hangs fs p = true
                /\ forall b', appendAll fs paths b <> Ok b').
Proof.
  intros reads g. split; [apply appendAll_refines|].
  split; [apply groupFiles_partition|].
  split; [apply groupFiles_partition|].
  split; [apply settled_reached|].
  intros Hs. destruct (unsettled_hangs fs paths Hs) as (p & Hp & Hh).
  exists p. split; [exact Hp|]. split; [exact Hh|].
  intros b' Hok. apply appendAll_Ok_settled in Hok. congruence.
Qed.

Lemma allChunks_nonempty g :
  Forall (fun c => Chunk.files c <> []) (fst g) ->
  Forall (fun c => Chunk.files c <> []) (allChunks g).
Proof.
  intros Hne. unfold allChunks.
  destruct (Chunk.files (snd g)) eqn:Hl; [exact Hne|].
  apply Forall_app. split; [exact Hne|]. constructor; [|constructor].
  rewrite Hl. discriminate.
Qed.

(** A run and the final flush write all chunks: whatever is read off the
    builder but its current chunk is the same. *)
Lemma run_writes_allChunks {A} (phi : Builder.t -> A) fs paths b :
  settled fs paths = true ->
  (forall b c, phi (withChunk b c) = phi b) ->
  (do b2 <- (do b1 <- appendAll fs paths b; flush b1); Ok (phi b2))
  = (do b' <- writeChunks
                (allChunks (groupFiles (Builder.currentChunk b)
                              (map (readRecord fs) paths))) b;
     Ok (phi b')).
Proof.
  intros Hs Hphi. rewrite (appendAll_settled fs paths b Hs).
  set (g := groupFiles (Builder.currentChunk b) (map (readRecord fs) paths)).
  unfold allChunks, flush.
  destruct (Chunk.files (snd g)) as [|f l] eqn:Hl.
  - destruct (writeChunks (fst g) b) as [b'| | | |]; cbn [bind];
      try reflexivity.
    rewrite flushChunk_empty by exact Hl. cbn [bind].
    rewrite Hphi. reflexivity.
  - rewrite writeChunks_app.
    destruct (writeChunks (fst g) b) as [b'| | | |]; reflexivity.
Qed.

Lemma bind_assoc {A B C} (r : result A) (f : A -> result B)
    (g : B -> result C) :
  (do y <- (do x <- r; f x); g y) = (do x <- r; do y <- f x; g y).
Proof. destruct r; reflexivity. Qed.

Lemma allChunks_files g :
  mjoin (map Chunk.files (allChunks g))
  = mjoin (map Chunk.files (fst g)) ++ Chunk.files (snd g).
Proof.
  unfold allChunks. destruct (Chunk.files (snd g)) eqn:Hl.
  - rewrite app_nil_r. reflexivity.
  - rewrite map_app, join_app. cbn. rewrite app_nil_r, Hl. reflexivity.
Qed.

(** X2. After a successful [start], a run of appends on none of whose
    paths the read loop hangs, followed by [flush], leaves in the output
    the file header followed by the chunk records of the chunks of the
    run, in order and nothing else; such a run ends the process exactly
    when the codec breaks its bound on one of these chunks.  A run with a
    path on which the read loop hangs does not return. *)
Theorem archive_layout (fs : FileSystem) (path : string)
    (paths : list string) (b0 : Builder.t) :
  start fs path Builder.new = (true, b0) ->
  (settled fs paths = true ->
   (do b1 <- appendAll fs paths b0;
    do b2 <- flush b1;
    Ok (ofstream.written (Builder.outData b2)))
   = (do bytes <- chunkRecords
                    (allChunks (groupFiles Chunk.empty
                                  (map (readRecord fs) paths)));
      Ok (fileHeaderBytes ++ bytes)))
  /\ (settled fs paths = false ->
      forall b2, (do b1 <- appendAll fs paths b0; flush b1) <> Ok b2).
Proof.
  intros Hst. split.
  - intros Hs. rewrite (start_new fs path b0 Hst).
    rewrite <- bind_assoc.
    rewrite (run_writes_allChunks
               (fun b => ofstream.written (Builder.outData b)))
      by (exact Hs || reflexivity).
    cbn [Builder.currentChunk].
    rewrite writeChunks_records; [reflexivity | split; reflexivity |].
    apply allChunks_nonempty, groupFiles_partition.
  - intros Hs b2 Hrun.
    destruct (appendAll fs paths b0) as [b1| | | |] eqn:Hb1;
      cbn [bind] in Hrun; try discriminate.
    apply appendAll_Ok_settled in Hb1. congruence.
Qed.

(** X3. When a run of appends and the final [flush] return after a
    successful [start], the statistics count every file that was read
    once, [fileSize] is the size of all bodies written, that is one
    header entry, the name and the contents of every file read (not the
    contents alone), both in [size_t], and the current chunk is empty. *)
Theorem run_statistics (fs : FileSystem) (path : string)
    (paths : list string) (b0 b2 : Builder.t) :
  start fs path Builder.new = (true, b0) ->
  (do b1 <- appendAll fs paths b0; flush b1) = Ok b2 ->
  let read := filesRead (map (readRecord fs) paths) in
  Statistics.fileCount (Builder.statistics b2) = wrap (size read)
  /\ Statistics.fileSize (Builder.statistics b2)
     = wrap (Z.of_nat (length read * sizeofChunkFileHeader
                       + nameBytes read + dataBytes read))
  /\ Chunk.files (Builder.currentChunk b2) = [].
Proof.
  intros Hst Hrun read. apply start_new in Hst. subst b0.
  assert (Hs : settled fs paths = true).
  { destruct (appendAll fs paths _) as [b1| | | |] eqn:Hb1;
      cbn [bind] in Hrun; try discriminate.
    eapply appendAll_Ok_settled, Hb1. }
  match type of Hrun with
  | bind (appendAll _ _ ?b) _ = _ =>
      pose proof (run_writes_allChunks Builder.statistics fs paths b Hs
                    (fun _ _ => eq_refl)) as Hw
  end.
  rewrite Hrun in Hw. cbn [bind Builder.currentChunk] in Hw.
  set (g := groupFiles Chunk.empty (map (readRecord fs) paths)) in *.
  destruct (writeChunks (allChunks g) _) as [b'| | | |] eqn:Hb';
    cbn [bind] in Hw; try discriminate.
  injection Hw as Hw.
  destruct (groupFiles_partition (map (readRecord fs) paths) Chunk.empty)
    as [Hcat Hne].
  fold g in Hcat, Hne.
  apply writeChunks_statistics in Hb' as [Hfc Hfs]; cycle 1.
  { apply allChunks_nonempty, Hne. }
  { cbn. unfold size_max. lia. }
  { cbn. unfold size_max. lia. }
  rewrite allChunks_files, Hcat in Hfc, Hfs. cbn in Hfc, Hfs.
  split; [rewrite Hw; exact Hfc|]. split; [rewrite Hw; exact Hfs|].
  destruct (appendAll fs paths _) as [b1| | | |]; cbn [bind] in Hrun;
    try discriminate.
  eapply flushChunk_result_empty, Hrun.
Qed.

(** X4. After a successful [start] with a threshold that is not negative,
    every chunk a run of appends writes, that is every chunk [groupFiles]
    closes over the paths the run gets to, is over the threshold only by
    its last file: its [totalSize] is the sum of its content sizes and
    exceeds [kChunkSize], while the sum without the last file does not.
    The same bound, and the sum, hold for the chunk left open. *)
Theorem run_soft_bound (fs : FileSystem) (path : string)
    (paths : list string) (b0 : Builder.t) :
  0 <= kChunkSize ->
  start fs path Builder.new = (true, b0) ->
  let g := groupFiles Chunk.empty (map (readRecord fs) (reached fs paths)) in
  appendAll fs paths b0
    = (do b' <- writeChunks (fst g) b0;
       if settled fs paths then Ok (withChunk b' (snd g)) else Diverges)
  /\ Forall (fun c =>
               Chunk.totalSize c
                 = wrap (Z.of_nat (dataBytes (Chunk.files c)))
               /\ kChunkSize < Chunk.totalSize c
               /\ exists init f,
                    Chunk.files c = init ++ [f]
                    /\ wrap (Z.of_nat (dataBytes init)) <= kChunkSize)
            (fst g)
  /\ Chunk.totalSize (snd g)
     = wrap (Z.of_nat (dataBytes (Chunk.files (snd g))))
  /\ (Chunk.files (snd g) = []
      \/ exists init f,
           Chunk.files (snd g) = init ++ [f]
           /\ wrap (Z.of_nat (dataBytes init)) <= kChunkSize).
Proof.
  intros HT Hst g.
  pose proof (appendAll_refines fs paths b0) as Href.
  assert (Hcur : Builder.currentChunk b0 = Chunk.empty)
    by (rewrite (start_new fs path b0 Hst); reflexivity).
  rewrite Hcur in Href.
  destruct (groupFiles_bounded (map (readRecord fs) (reached fs paths))
              Chunk.empty HT)
    as (Hall & Hc & Hs); [reflexivity | left; reflexivity |].
  split; [exact Href|]. split; [exact Hall|].
  split; [exact Hc | exact Hs].
Qed.

End RunLemmas.

(** The example run of three files and one path that does not exist. *)
Lemma archive_layout_witness :
  exists bytes,
    (do b1 <- @appendAll (packedFormat 15) storeCodec exampleFS
                ["a.txt"%string; "b.txt"%string; "none.txt"%string;
                 "c.txt"%string] exampleStarted;
     do b2 <- @flush (packedFormat 15) storeCodec b1;
     Ok (ofstream.written (Builder.outData b2)))
    = Ok (@fileHeaderBytes (packedFormat 15) ++ bytes)
    /\ length bytes = 165%nat.
Proof.
  pose proof (proj1 (@archive_layout (packedFormat 15) storeCodec exampleFS
                       "x.qgd_"%string
                       ["a.txt"%string; "b.txt"%string; "none.txt"%string;
                        "c.txt"%string] exampleStarted eq_refl) eq_refl)
    as Heq.
  match type of Heq with
  | _ = bind ?r _ =>
      assert (Hr : exists bytes, r = Ok bytes /\ length bytes = 165%nat)
        by (eexists; split; vm_compute; reflexivity)
  end.
  destruct Hr as (bytes & Hr & Hlen). rewrite Hr in Heq.
  exists bytes. split; [exact Heq | exact Hlen].
Defined.

Lemma run_statistics_witness :
  exists b2,
    (do b1 <- @appendAll (packedFormat 15) storeCodec exampleFS
                ["a.txt"%string; "b.txt"%string; "none.txt"%string;
                 "c.txt"%string] exampleStarted;
     @flush (packedFormat 15) storeCodec b1) = Ok b2
    /\ Statistics.fileCount (Builder.statistics b2) = 3
    /\ Statistics.fileSize (Builder.statistics b2) = 141.
Proof.
  assert (Hrun : exists b2,
             (do b1 <- @appendAll (packedFormat 15) storeCodec exampleFS
                         ["a.txt"%string; "b.txt"%string; "none.txt"%string;
                          "c.txt"%string] exampleStarted;
              @flush (packedFormat 15) storeCodec b1) = Ok b2)
    by (eexists; vm_compute; reflexivity).
  destruct Hrun as [b2 Hrun]. exists b2. split; [exact Hrun|].
  destruct (@run_statistics (packedFormat 15) storeCodec exampleFS
              "x.qgd_"%string _ exampleStarted b2 eq_refl Hrun)
    as (Hfc & Hfs & _).
  split; [exact Hfc | exact Hfs].
Defined.

(** Three files of ten bytes, then the folder [src]: one chunk of two
    files is over the threshold 15 and written, and the run hangs. *)
Lemma run_soft_bound_witness :
  @appendAll (packedFormat 15) storeCodec exampleFS
    ["a.txt"%string; "b.txt"%string; "c.txt"%string; "src"%string;
     "d.txt"%string] exampleStarted
  = Diverges
  /\ Forall (fun c => 15 < Chunk.totalSize c)
       (fst (@groupFiles (packedFormat 15) Chunk.empty
               (map (readRecord exampleFS)
                  (reached exampleFS
                     ["a.txt"%string; "b.txt"%string; "c.txt"%string;
                      "src"%string; "d.txt"%string])))).
Proof.
  destruct (@run_soft_bound (packedFormat 15) storeCodec exampleFS
              "x.qgd_"%string
              ["a.txt"%string; "b.txt"%string; "c.txt"%string; "src"%string;
               "d.txt"%string]
              exampleStarted ltac:(vm_compute; discriminate) eq_refl)
    as (Heq & Hall & _).
  split.
  - rewrite Heq. vm_compute. reflexivity.
  - eapply Forall_impl; [exact Hall|]. intros c (_ & Hlt & _). exact Hlt.
Defined.

(* ===================================================================== *)
(** * The outcome of [buildProject] *)
(* ===================================================================== *)

Section BuildProjectTheorems.
Context `{Format} `{Codec} `{Regex}.

Lemma flushChunk_total b :
  codec_keeps_bound -> exists b', flushChunk b = Ok b'.
Proof.
  intros Hcodec. unfold flushChunk.
  destruct (Chunk.files (Builder.currentChunk b)); [eexists; reflexivity|].
  rewrite prepareChunkData_ok. cbn [bind]. unfold writeChunk.
  destruct (Hcodec (data (layoutWalk (Builder.currentChunk b))))
    as [cd ->].
  cbn [bind]. eexists. reflexivity.
Qed.

Lemma writeChunks_total cs : forall b,
  codec_keeps_bound -> exists b', writeChunks cs b = Ok b'.
Proof.
  induction cs as [|c cs IH]; intros b Hcodec; [eexists; reflexivity|].
  rewrite writeChunks_cons.
  destruct (flushChunk_total (withChunk b c) Hcodec) as [b1 ->].
  cbn [bind]. apply IH, Hcodec.
Qed.

(** With a codec that keeps its bound a run of appends returns exactly
    when no path hangs, and never returns otherwise. *)
Lemma appendAll_total fs paths b :
  codec_keeps_bound ->
  if settled fs paths then exists b', appendAll fs paths b = Ok b'
  else appendAll fs paths b = Diverges.
Proof.
  intros Hcodec. rewrite appendAll_refines.
  destruct (writeChunks_total
              (fst (groupFiles (Builder.currentChunk b)
                      (map (readRecord fs) (reached fs paths)))) b Hcodec)
    as [b' ->].
  cbn [bind]. destruct (settled fs paths); [eexists|]; reflexivity.
Qed.

Lemma constructOrRE_Ok_or_Fatal list :
  (exists re, constructOrRE list = Ok re) \/ constructOrRE list = Fatal.
Proof.
  unfold constructOrRE. destruct list; [left; eexists; reflexivity|].
  destruct (negb _); [right | left; eexists]; reflexivity.
Qed.

Lemma start_new_fst fs path :
  fst (start fs path Builder.new) = canWrite fs path.
Proof.
  unfold start, Builder.new, ofstream.open, ofstream.closed. cbn.
  destruct (canWrite fs path); reflexivity.
Qed.

Lemma start_canWrite fs path :
  canWrite fs path = true ->
  exists b0, start fs path Builder.new = (true, b0).
Proof.
  intros Hw. pose proof (start_new_fst fs path) as Hf.
  destruct (start fs path Builder.new) as [ok b0]. cbn in Hf.
  rewrite Hw in Hf. subst ok. eexists. reflexivity.
Qed.

(** With a file count that is not zero [printStatistics] does not divide
    by zero, and the size it remembers is the compressed size. *)
Lemma report_nonzero last fileCount s :
  fileCount <> 0 -> report last fileCount s = Ok (Statistics.resultSize s).
Proof.
  intros Hn. unfold report, printStatistics.
  destruct (Z.eqb_spec last (Statistics.resultSize s)) as [-> | _];
    [reflexivity|].
  destruct (Z.eqb_spec fileCount 0); [contradiction | reflexivity].
Qed.

(** With the file count zero it divides by zero unless the compressed
    size is the one remembered. *)
Lemma report_zero last s :
  report last 0 s
  = if last =? Statistics.resultSize s then Ok last else Undefined.
Proof.
  unfold report, printStatistics.
  destruct (last =? Statistics.resultSize s); reflexivity.
Qed.

Lemma appendLoop_cons fs files p ps st :
  appendLoop fs files (p :: ps) st
  = do st1 <- builderAppend fs files st p; appendLoop fs files ps st1.
Proof.
  unfold appendLoop.
  apply (fold_bind_cons (fun st path => builderAppend fs files st path)).
Qed.

(** The loop visits its paths in order. *)
Lemma appendLoop_app fs files l1 l2 st :
  appendLoop fs files (l1 ++ l2) st
  = do st1 <- appendLoop fs files l1 st; appendLoop fs files l2 st1.
Proof.
  unfold appendLoop. rewrite fold_left_app.
  destruct (fold_left _ l1 (Ok st)) as [st1| | | |]; cbn [bind];
    [reflexivity| | | |];
    apply (fold_bind_failed
             (fun st path => builderAppend fs files st path));
    discriminate.
Qed.

Lemma builderAppend_nonzero fs files st p :
  to_uint32 (size files) <> 0 ->
  builderAppend fs files st p
  = do b <- appendOne fs (Run.builder st) p;
    Ok {| Run.builder := b;
          Run.lastResultSize :=
            Statistics.resultSize (Builder.statistics b) |}.
Proof.
  intros Hn. unfold builderAppend, appendOne.
  destruct (appendFile fs p (Run.builder st)) as [[r b]| | | |];
    cbn [bind snd]; try reflexivity.
  rewrite report_nonzero by exact Hn. reflexivity.
Qed.

(** The loop of [buildProject] is the run of appends; the size it
    remembers at its end is the compressed size. *)
Lemma appendLoop_nonzero fs files ps : forall p st,
  to_uint32 (size files) <> 0 ->
  appendLoop fs files (p :: ps) st
  = do b <- appendAll fs (p :: ps) (Run.builder st);
    Ok {| Run.builder := b;
          Run.lastResultSize :=
            Statistics.resultSize (Builder.statistics b) |}.
Proof.
  induction ps as [|q ps IH]; intros p st Hn.
  - rewrite appendLoop_cons, appendAll_cons, builderAppend_nonzero
      by exact Hn.
    destruct (appendOne fs (Run.builder st) p); reflexivity.
  - rewrite appendLoop_cons, (appendAll_cons fs p), builderAppend_nonzero
      by exact Hn.
    destruct (appendOne fs (Run.builder st) p) as [b1| | | |];
      cbn [bind]; try reflexivity.
    rewrite IH by exact Hn. reflexivity.
Qed.

Lemma size_nil_iff {A} (l : list A) : size l = 0 <-> l = [].
Proof.
  unfold size. destruct l; cbn [length]; split; intros Heq;
    try reflexivity; try discriminate; lia.
Qed.

(** [buildProject] once its set-up is past. *)
Lemma buildProject_after_setup fs file last lines inc exc b0 :
  readLines fs file = Some lines ->
  constructOrRE (include (parseInput lines)) = Ok inc ->
  constructOrRE (exclude (parseInput lines)) = Ok exc ->
  start fs (replaceExtension fs file ".qgd" +:+ "_") Builder.new
    = (true, b0) ->
  buildProject fs file last
  = buildFiles fs (replaceExtension fs file ".qgd" +:+ "_")
      (replaceExtension fs file ".qgd")
      (projectFiles fs inc exc (paths (parseInput lines))
         (files_in (parseInput lines)))
      b0 last.
Proof.
  intros Hl Hi He Hst. unfold buildProject.
  rewrite Hl, Hi, He. cbn [bind]. rewrite Hst. reflexivity.
Qed.

(** [buildProject] is [fatal] when its set-up fails. *)
Lemma buildProject_no_setup fs file last :
  ~ setupOk fs file -> buildProject fs file last = Fatal.
Proof.
  intros Hno. unfold buildProject.
  destruct (readLines fs file) as [lines|] eqn:Hl; [|reflexivity].
  destruct (constructOrRE_Ok_or_Fatal (include (parseInput lines)))
    as [[inc Hi] | Hi]; rewrite Hi; [|reflexivity].
  destruct (constructOrRE_Ok_or_Fatal (exclude (parseInput lines)))
    as [[exc He] | He]; rewrite He; [|reflexivity].
  cbn [bind]. rewrite start_new_fst.
  destruct (canWrite fs _) eqn:Hw; [|reflexivity].
  exfalso. apply Hno. exists lines, inc, exc. auto.
Qed.

(** The end of a build with no file. *)
Lemma buildFiles_nil fs temp target b0 last :
  Chunk.files (Builder.currentChunk b0) = [] ->
  Statistics.resultSize (Builder.statistics b0) = 0 ->
  buildFiles fs temp target [] b0 last
  = if last =? 0
    then if renameFile fs temp target
         then Ok {| Run.builder := b0; Run.lastResultSize := 0 |}
         else Fatal
    else Undefined.
Proof.
  intros Hnil Hrs. unfold buildFiles, appendLoop, flush, destroy, flush.
  cbn [fold_left bind Run.builder Run.lastResultSize].
  rewrite (flushChunk_empty b0 Hnil). cbn [bind].
  change (to_uint32 (size [])) with 0. rewrite report_zero, Hrs.
  destruct (Z.eqb_spec last 0) as [-> | _]; [|reflexivity].
  cbn [bind]. rewrite (flushChunk_empty b0 Hnil). cbn [bind].
  destruct (renameFile fs temp target); reflexivity.
Qed.

(** The end of a build whose file count is not zero as a 32-bit
    number. *)
Lemma buildFiles_nonzero fs temp target files b0 last :
  to_uint32 (size files) <> 0 ->
  buildFiles fs temp target files b0 last
  = do b <- (do b1 <- appendAll fs files b0; flush b1);
    if renameFile fs temp target
    then Ok {| Run.builder := b;
               Run.lastResultSize :=
                 Statistics.resultSize (Builder.statistics b) |}
    else Fatal.
Proof.
  intros Hn. unfold buildFiles.
  destruct files as [|p ps]; [exfalso; apply Hn; reflexivity|].
  rewrite appendLoop_nonzero by exact Hn.
  cbn [Run.builder].
  destruct (appendAll fs (p :: ps) b0) as [b1| | | |]; cbn [bind];
    try reflexivity.
  cbn [Run.builder Run.lastResultSize].
  unfold flush at 1 2.
  destruct (flushChunk b1) as [b2| | | |] eqn:Hfl; cbn [bind];
    try reflexivity.
  rewrite report_nonzero by exact Hn. cbn [bind].
  unfold destroy, flush.
  rewrite (flushChunk_empty b2) by (eapply flushChunk_result_empty, Hfl).
  cbn [bind]. destruct (renameFile fs temp target); reflexivity.
Qed.

(** X5. With a compressor that keeps its bound, [buildProject] ends with
    [fatal] when the project file cannot be read, a pattern list does not
    compile or the temporary output cannot be opened.  Otherwise, with no
    file selected, it divides by zero in its last progress report unless
    the size reported last is 0.  With files selected (their number not
    a multiple of [2^32]) it never returns when one of them opens and
    cannot be read, like a folder; else the run of appends over the
    selected files and the final [flush] return a builder with an empty
    chunk and an open stream, and [buildProject] returns it, with its
    compressed size as the size reported last, or ends with [fatal] when
    the renaming fails.  A source file that cannot be opened or has no
    attributes never ends the build. *)
Theorem buildProject_outcome (fs : FileSystem) (file : string) (last : Z) :
  codec_keeps_bound ->
  (~ setupOk fs file -> buildProject fs file last = Fatal)
  /\ (forall lines inc exc,
        readLines fs file = Some lines ->
        constructOrRE (include (parseInput lines)) = Ok inc ->
        constructOrRE (exclude (parseInput lines)) = Ok exc ->
        canWrite fs (replaceExtension fs file ".qgd" +:+ "_") = true ->
        let files := projectFiles fs inc exc (paths (parseInput lines))
                       (files_in (parseInput lines)) in
        let renamed := renameFile fs (replaceExtension fs file ".qgd" +:+ "_")
                         (replaceExtension fs file ".qgd") in
        exists b0,
          start fs (replaceExtension fs file ".qgd" +:+ "_") Builder.new
            = (true, b0)
          /\ (files = [] ->
              buildProject fs file last
              = if last =? 0
                then if renamed
                     then Ok {| Run.builder := b0; Run.lastResultSize := 0 |}
                     else Fatal
                else Undefined)
          /\ (to_uint32 (size files) <> 0 -> settled fs files = false ->
              buildProject fs file last = Diverges)
          /\ (to_uint32 (size files) <> 0 -> settled fs files = true ->
              exists b,
                (do b1 <- appendAll fs files b0; flush b1) = Ok b
                /\ Chunk.files (Builder.currentChunk b) = []
                /\ stream_ok (Builder.outData b)
                /\ buildProject fs file last
                   = if renamed
                     then Ok {| Run.builder := b;
                                Run.lastResultSize :=
                                  Statistics.resultSize
                                    (Builder.statistics b) |}
                     else Fatal)).
Proof.
  intros Hcodec. split; [apply buildProject_no_setup|].
  intros lines inc exc Hl Hi He Hw files renamed.
  destruct (start_canWrite fs _ Hw) as [b0 Hst].
  exists b0. split; [exact Hst|].
  rewrite (buildProject_after_setup fs file last lines inc exc b0
             Hl Hi He Hst).
  fold files.
  pose proof (start_new fs _ b0 Hst) as Hb0.
  split; [|split].
  - intros ->. apply buildFiles_nil; rewrite Hb0; reflexivity.
  - intros Hn Hs. rewrite buildFiles_nonzero by exact Hn.
    pose proof (appendAll_total fs files b0 Hcodec) as Hrun.
    rewrite Hs in Hrun. rewrite Hrun. reflexivity.
  - intros Hn Hs. rewrite buildFiles_nonzero by exact Hn.
    pose proof (appendAll_total fs files b0 Hcodec) as Hrun.
    rewrite Hs in Hrun. destruct Hrun as [b1 Hb1].
    destruct (flushChunk_total b1 Hcodec) as [b Hb].
    exists b. rewrite Hb1. cbn [bind]. unfold flush. rewrite Hb.
    split; [reflexivity|].
    split; [eapply flushChunk_result_empty, Hb|]. split.
    + eapply flushChunk_stream_ok; [exact Hb|].
      eapply (appendAll_invariant (fun b => stream_ok (Builder.outData b)));
        [| |exact Hb1].
      * intros b3 p b4. apply appendOne_stream_ok.
      * rewrite Hb0. split; reflexivity.
    + reflexivity.
Qed.

(** C7. The list [buildProject] hands to the builder, file by file and
    in the order of the list, is the list [projectFiles] makes of the
    explicit files and the scans: after its set-up [buildProject] is the
    loop of [builderAppend] over that list, the last flush and report,
    the destruction of the builder and the renaming.  The list is sorted
    in the lexicographic order of [std::string] and holds no string
    twice.  Its members are the explicit files and the accepted
    candidates of the scans.  The list, and so the whole build, is the
    same for every order in which the scans yield their candidates, and
    a path that is both an explicit file and a candidate of a scan occurs
    in the list exactly once. *)
Theorem buildProject_file_list (fs : FileSystem) (file : string) (last : Z)
    (lines : list string) (inc exc : option RE2) (b0 : Builder.t) :
  readLines fs file = Some lines ->
  constructOrRE (include (parseInput lines)) = Ok inc ->
  constructOrRE (exclude (parseInput lines)) = Ok exc ->
  start fs (replaceExtension fs file ".qgd" +:+ "_") Builder.new
    = (true, b0) ->
  let pathSet := paths (parseInput lines) in
  let fileSet := files_in (parseInput lines) in
  let files := projectFiles fs inc exc pathSet fileSet in
  let temp := replaceExtension fs file ".qgd" +:+ "_" in
  buildProject fs file last
  = (do st <- appendLoop fs files files
                {| Run.builder := b0; Run.lastResultSize := last |};
     do b <- flush (Run.builder st);
     do last' <- report (Run.lastResultSize st) (to_uint32 (size files))
                        (Builder.statistics b);
     do b <- destroy b;
     if negb (renameFile fs temp (replaceExtension fs file ".qgd"))
     then Fatal
     else Ok {| Run.builder := b; Run.lastResultSize := last' |})
  /\ (forall before p after st,
        files = before ++ p :: after ->
        appendLoop fs files files st
        = (do st1 <- appendLoop fs files before st;
           do st2 <- builderAppend fs files st1 p;
           appendLoop fs files after st2))
  /\ StronglySorted String.le files
  /\ StronglySorted string_lt files
  /\ NoDup files
  /\ (forall p,
        p ∈ files <->
        p ∈ fileSet
        \/ (p ∈ candidates fs pathSet /\ isFileAcceptable inc exc p = true))
  /\ (forall fs',
        candidates fs' pathSet ≡ₚ candidates fs pathSet ->
        projectFiles fs' inc exc pathSet fileSet = files)
  /\ (forall scan,
        candidates (withScan fs scan) pathSet ≡ₚ candidates fs pathSet ->
        buildProject (withScan fs scan) file last
        = buildProject fs file last)
  /\ (forall p,
        p ∈ fileSet -> p ∈ candidates fs pathSet ->
        count_occ String.string_dec files p = 1%nat).
Proof.
  intros Hl Hi He Hst pathSet fileSet files temp.
  destruct (projectFiles_strictly_sorted fs inc exc pathSet fileSet)
    as (Hle & Hlt & Hnd & Hmem & Hperm & Hocc).
  split; [apply buildProject_after_setup; assumption|].
  split.
  { intros before p after st Hfiles. rewrite Hfiles at 2.
    rewrite appendLoop_app.
    destruct (appendLoop fs files before st) as [st1| | | |]; cbn [bind];
      [apply appendLoop_cons | reflexivity ..]. }
  split; [exact Hle|]. split; [exact Hlt|]. split; [exact Hnd|].
  split; [exact Hmem|]. split; [exact Hperm|]. split; [|exact Hocc].
  intros scan Hscan.
  rewrite (buildProject_after_setup fs file last lines inc exc b0
             Hl Hi He Hst).
  rewrite (buildProject_after_setup (withScan fs scan) file last lines
             inc exc b0 Hl Hi He Hst).
  fold pathSet fileSet. rewrite (Hperm (withScan fs scan) Hscan).
  reflexivity.
Qed.

End BuildProjectTheorems.

Lemma safeStoreCodec_keeps_bound : @codec_keeps_bound safeStoreCodec.
Proof.
  intros data. unfold compressData, compressedSizeOf, compressedScratch.
  cbn [LZ4_compressHC safeStoreCodec fst snd].
  set (i := to_int (size data)).
  assert (Hi : - 2 ^ 31 <= i <= INT_MAX).
  { unfold i, to_int, INT_MAX.
    pose proof (Z.mod_pos_bound (size data + 2 ^ 31) (2 ^ 32)). lia. }
  assert (Hsz : size (copy_at (take (Z.to_nat i) data) 0
                        (@scratch safeStoreCodec data))
                = wrap (i + Z.quot i 255 + 16)).
  { unfold size. rewrite copy_at_length. unfold scratch, scratchSize.
    rewrite length_replicate. cbn [LZ4_compressBound safeStoreCodec].
    fold i. unfold to_size_t. rewrite Z2Nat.id; [reflexivity|].
    apply wrap_range. }
  rewrite Hsz.
  assert (Hle : to_size_t (Z.max 0 i) <= wrap (i + Z.quot i 255 + 16)).
  { unfold to_size_t. destruct (Z.max_spec 0 i) as [[Hlt ->] | [Hge ->]].
    - rewrite (Z.quot_div_nonneg i 255) by lia.
      assert (0 <= i / 255) by (apply Z.div_pos; lia).
      assert (i / 255 <= i) by (apply Z.div_le_upper_bound; lia).
      unfold INT_MAX in Hi.
      rewrite (wrap_small i) by (unfold size_max; lia).
      rewrite (wrap_small (i + _ + 16)) by (unfold size_max; lia). lia.
    - rewrite (wrap_small 0) by (unfold size_max; lia). apply wrap_range. }
  destruct (Z.leb_spec 0 (Z.max 0 i)); [|lia].
  destruct (Z.leb_spec (to_size_t (Z.max 0 i)) (wrap (i + Z.quot i 255 + 16)));
    [|lia].
  cbn. eexists. reflexivity.
Qed.

(** The example projects, with the codec that keeps its bound: [x.cfg]
    is built, the build of [dir.cfg], which lists a folder as a file,
    never returns, and the build of the empty project divides by zero
    when the size reported last is not 0. *)
Lemma buildProject_outcome_witness :
  (exists b,
     @buildProject (packedFormat 15) safeStoreCodec literalRegex exampleFS
       "x.cfg" 0
     = Ok {| Run.builder := b;
             Run.lastResultSize :=
               Statistics.resultSize (Builder.statistics b) |}
     /\ Chunk.files (Builder.currentChunk b) = [])
  /\ @buildProject (packedFormat 15) safeStoreCodec literalRegex exampleFS
       "dir.cfg" 0 = Diverges
  /\ @buildProject (packedFormat 15) safeStoreCodec literalRegex exampleFS
       "empty.cfg" 7 = Undefined.
Proof.
  split; [|split].
  - destruct (proj2 (@buildProject_outcome (packedFormat 15) safeStoreCodec
                       literalRegex exampleFS "x.cfg"%string 0
                       safeStoreCodec_keeps_bound)
                _ None None eq_refl eq_refl eq_refl eq_refl)
      as (b0 & _ & _ & _ & Hok).
    destruct (Hok ltac:(vm_compute; discriminate) eq_refl)
      as (b & _ & Hnil & _ & Hbp).
    exists b. split; [exact Hbp | exact Hnil].
  - destruct (proj2 (@buildProject_outcome (packedFormat 15) safeStoreCodec
                       literalRegex exampleFS "dir.cfg"%string 0
                       safeStoreCodec_keeps_bound)
                _ None None eq_refl eq_refl eq_refl eq_refl)
      as (b0 & _ & _ & Hhang & _).
    apply Hhang; [vm_compute; discriminate | reflexivity].
  - destruct (proj2 (@buildProject_outcome (packedFormat 15) safeStoreCodec
                       literalRegex exampleFS "empty.cfg"%string 7
                       safeStoreCodec_keeps_bound)
                _ None None eq_refl eq_refl eq_refl eq_refl)
      as (b0 & _ & Hnone & _).
    apply Hnone. reflexivity.
Defined.

(** The example project [x.cfg]: the builder gets [a.txt], [b.txt] and
    [c.txt], sorted, [a.txt] once though it is listed and found by the
    scan. *)
Lemma buildProject_file_list_witness :
  @buildProject (packedFormat 15) storeCodec literalRegex exampleFS "x.cfg" 0
  = @buildFiles (packedFormat 15) storeCodec exampleFS "x.cfg.qgd_"
      "x.cfg.qgd" ["a.txt"%string; "b.txt"%string; "c.txt"%string]
      exampleStarted 0.
Proof.
  exact (proj1 (@buildProject_file_list (packedFormat 15) storeCodec
                  literalRegex exampleFS "x.cfg"%string 0
                  ["path src"%string; "c.txt"%string; "a.txt"%string]
                  None None exampleStarted
                  eq_refl eq_refl eq_refl eq_refl)).
Defined.

(* ===================================================================== *)
(** * The body determines the files *)
(* ===================================================================== *)

Lemma chars_inj s1 s2 : chars s1 = chars s2 -> s1 = s2.
Proof.
  unfold chars. intros Heq.
  rewrite <- (string_of_list_byte_of_string s1),
          <- (string_of_list_byte_of_string s2), Heq.
  reflexivity.
Qed.

Section Decodable.
Context `{Format}.

(** X6. The layout loses nothing: two chunks with the same number of
    files whose bodies fit [size_t] and are equal hold the same files
    (names, contents, sizes and timestamps), provided the bytes of a header
    entry determine the entry for the entries of these chunks.  So a
    reader that knows the file count can recover the files from the
    body. *)
Theorem layout_decodable (c1 c2 : Chunk.t) :
  entries_sized ->
  Z.of_nat (bodyBytes (Chunk.files c1)) < size_max ->
  Z.of_nat (bodyBytes (Chunk.files c2)) < size_max ->
  length (Chunk.files c1) = length (Chunk.files c2) ->
  (forall i f1 f2,
      Chunk.files c1 !! i = Some f1 -> Chunk.files c2 !! i = Some f2 ->
      chunkFileHeaderBytes (entryAt (Chunk.files c1) i f1)
      = chunkFileHeaderBytes (entryAt (Chunk.files c2) i f2) ->
      entryAt (Chunk.files c1) i f1 = entryAt (Chunk.files c2) i f2) ->
  prepareChunkData c1 = prepareChunkData c2 ->
  Chunk.files c1 = Chunk.files c2.
Proof.
  intros Hsz Hfit1 Hfit2 Hlen Hinj Heq.
  rewrite !prepareChunkData_ok in Heq.
  rewrite (layoutWalk_exact c1 Hsz Hfit1), (layoutWalk_exact c2 Hsz Hfit2)
    in Heq.
  cbn [data] in Heq. injection Heq as Hbody.
  apply list_eq. intros i.
  destruct (Chunk.files c1 !! i) as [f1|] eqn:H1;
    destruct (Chunk.files c2 !! i) as [f2|] eqn:H2.
  - destruct (encodedBody_slices _ i f1 Hsz H1) as (Hh1 & Hn1 & Hd1).
    destruct (encodedBody_slices _ i f2 Hsz H2) as (Hh2 & Hn2 & Hd2).
    assert (He : entryAt (Chunk.files c1) i f1 = entryAt (Chunk.files c2) i f2).
    { apply (Hinj i f1 f2 H1 H2). rewrite <- Hh1, <- Hh2, Hbody.
      reflexivity. }
    assert (Hname : File.name f1 = File.name f2).
    { apply chars_inj. rewrite <- Hn1, <- Hn2, He, Hbody. reflexivity. }
    assert (Hcont : File.contents f1 = File.contents f2).
    { rewrite <- Hd1, <- Hd2, He, Hbody. reflexivity. }
    unfold entryAt in He. injection He as _ _ _ _ Hfs Hts.
    destruct f1, f2. cbn in Hname, Hcont, Hfs, Hts. congruence.
  - apply lookup_lt_Some in H1. apply lookup_ge_None in H2. lia.
  - apply lookup_ge_None in H1. apply lookup_lt_Some in H2. lia.
  - reflexivity.
Qed.

End Decodable.

(** Two chunks that differ in their running total only: same body, same
    files. *)
Lemma layout_decodable_witness :
  @prepareChunkData (packedFormat 15) exampleChunk
    = @prepareChunkData (packedFormat 15) exampleChunk'
  /\ Chunk.files exampleChunk = Chunk.files exampleChunk'.
Proof.
  assert (Heq : @prepareChunkData (packedFormat 15) exampleChunk
                = @prepareChunkData (packedFormat 15) exampleChunk')
    by (vm_compute; reflexivity).
  split; [exact Heq|].
  apply (@layout_decodable (packedFormat 15) exampleChunk exampleChunk'
           (packedFormat_entries_sized 15)
           ltac:(vm_compute; reflexivity) ltac:(vm_compute; reflexivity)
           eq_refl).
  - intros i f1 f2 H1 H2 _. cbn in H1, H2. rewrite H1 in H2.
    injection H2 as <-. reflexivity.
  - exact Heq.
Defined.

(* ===================================================================== *)
(** * The progress report *)
(* ===================================================================== *)

(** X7. [printStatistics] prints only when the compressed size differs
    from the one it reported last, and remembers the size it reports: a
    call that returns is followed by silence when repeated with the same
    statistics.  It divides by the file count exactly when it prints, so
    with a file count of 0 it is undefined unless the size is the one
    reported last; at its call sites the count is the size of the file
    list modulo [2^32].  With [0 < fileCount < 2^32] and no more files
    done than [fileCount], the percentage printed is
    [s.fileCount * 100 / fileCount], between 0 and 100. *)
Theorem printStatistics_report (lastResultSize fileCount : Z)
    (s : Statistics.t) :
  (forall last' out,
      printStatistics lastResultSize fileCount s = Some (last', out) ->
      last' = Statistics.resultSize s
      /\ (out = None <-> lastResultSize = Statistics.resultSize s)
      /\ printStatistics last' fileCount s = Some (last', None))
  /\ (printStatistics lastResultSize fileCount s = None <->
      fileCount = 0 /\ lastResultSize <> Statistics.resultSize s)
  /\ (0 < fileCount < 2 ^ 32 ->
      0 <= Statistics.fileCount s <= fileCount ->
      lastResultSize <> Statistics.resultSize s ->
      exists p,
        printStatistics lastResultSize fileCount s
          = Some (Statistics.resultSize s, Some p)
        /\ percent p = Statistics.fileCount s * 100 / fileCount
        /\ 0 <= percent p <= 100)
  /\ (forall (files : list string) (b : Builder.t),
        printProgress lastResultSize files b = None <->
        size files mod 2 ^ 32 = 0
        /\ lastResultSize <> Statistics.resultSize (Builder.statistics b)).
Proof.
  unfold printProgress, to_uint32, printStatistics.
  split; [|split; [|split]]; cycle 3.
  { intros files b.
    destruct (Z.eqb_spec lastResultSize
                (Statistics.resultSize (Builder.statistics b))) as [He|Hn].
    - split; [discriminate | intros [_ Hx]; contradiction].
    - destruct (Z.eqb_spec (size files mod 2 ^ 32) 0) as [Hz|Hnz].
      + split; [intros _; split; assumption | reflexivity].
      + split; [discriminate | intros [Hx _]; contradiction]. }
  - intros last' out.
    destruct (Z.eqb_spec lastResultSize (Statistics.resultSize s)) as [He|Hn].
    + intros [= <- <-]. split; [exact He|]. split; [tauto|].
      rewrite He, Z.eqb_refl. reflexivity.
    + destruct (Z.eqb_spec fileCount 0); [discriminate|].
      intros [= <- <-]. split; [reflexivity|]. split.
      * split; [discriminate | contradiction].
      * rewrite Z.eqb_refl. reflexivity.
  - destruct (Z.eqb_spec lastResultSize (Statistics.resultSize s)) as [He|Hn].
    + split; [discriminate | intros [_ Hx]; contradiction].
    + destruct (Z.eqb_spec fileCount 0) as [Hz|Hnz].
      * split; [intros _; split; assumption | reflexivity].
      * split; [discriminate | intros [Hx _]; contradiction].
  - intros Hn Hfc Hne.
    destruct (Z.eqb_spec lastResultSize (Statistics.resultSize s));
      [contradiction|].
    destruct (Z.eqb_spec fileCount 0); [lia|].
    eexists. split; [reflexivity|]. cbn [percent].
    assert (Hmul : size_mul (Statistics.fileCount s) 100
                   = Statistics.fileCount s * 100).
    { unfold size_mul. apply wrap_small. unfold size_max. lia. }
    rewrite Hmul.
    assert (Hq : 0 <= Statistics.fileCount s * 100 / fileCount <= 100).
    { split; [apply Z.div_pos; lia|].
      apply Z.div_le_upper_bound; lia. }
    rewrite to_int_small by (unfold INT_MAX; lia).
    split; [reflexivity | exact Hq].
Qed.

(* ===================================================================== *)
(** * The selected list depends on the set of paths only *)
(* ===================================================================== *)

Lemma string_lt_irrefl_trans a b : string_lt a b -> string_lt b a -> False.
Proof.
  intros [Hab Hne] [Hba _]. apply Hne.
  apply (anti_symm String.le); assumption.
Qed.

(** Two strictly ascending lists with the same members are equal. *)
Lemma strictly_sorted_ext l1 : forall l2,
  StronglySorted string_lt l1 -> StronglySorted string_lt l2 ->
  (forall x, x ∈ l1 <-> x ∈ l2) -> l1 = l2.
Proof.
  induction l1 as [|a l1 IH]; intros l2 Hs1 Hs2 Hmem.
  - destruct l2 as [|b l2]; [reflexivity|].
    exfalso. apply (not_elem_of_nil b), Hmem. left.
  - destruct l2 as [|b l2].
    { exfalso. apply (not_elem_of_nil a), Hmem. left. }
    apply StronglySorted_inv in Hs1 as [Hs1 Ha].
    apply StronglySorted_inv in Hs2 as [Hs2 Hb].
    rewrite Forall_forall in Ha, Hb.
    assert (Hab : a = b).
    { assert (Hain : a ∈ b :: l2) by (apply Hmem; left).
      assert (Hbin : b ∈ a :: l1) by (apply Hmem; left).
      apply elem_of_cons in Hain as [Hx|Hx]; [exact Hx|].
      apply elem_of_cons in Hbin as [Hy|Hy]; [symmetry; exact Hy|].
      exfalso. apply (string_lt_irrefl_trans a b); [apply Ha, Hy|apply Hb, Hx]. }
    subst b. f_equal. apply IH; [exact Hs1 | exact Hs2 |].
    intros x. split; intros Hx.
    + assert (Hin : x ∈ a :: l2) by (apply Hmem; right; exact Hx).
      apply elem_of_cons in Hin as [->|Hin]; [|exact Hin].
      exfalso. destruct (Ha a Hx) as [_ Hne]. apply Hne. reflexivity.
    + assert (Hin : x ∈ a :: l1) by (apply Hmem; right; exact Hx).
      apply elem_of_cons in Hin as [->|Hin]; [|exact Hin].
      exfalso. destruct (Hb a Hx) as [_ Hne]. apply Hne. reflexivity.
Qed.

Section CanonicalList.
Context `{Regex}.

(** X8. The list handed to the builder depends only on the set of
    selected paths: two projects (explicit files, scan roots, file
    systems) that select the same paths, however often and in whatever
    order each occurs, yield the same list.  Listing a file twice or
    scanning overlapping folders changes nothing. *)
Theorem projectFiles_canonical (fs fs' : FileSystem)
    (include exclude : option RE2) (pathSet pathSet' fileSet fileSet'
    : list string) :
  (forall p,
      (p ∈ fileSet
       \/ (p ∈ candidates fs pathSet
           /\ isFileAcceptable include exclude p = true))
      <-> (p ∈ fileSet'
           \/ (p ∈ candidates fs' pathSet'
               /\ isFileAcceptable include exclude p = true))) ->
  projectFiles fs include exclude pathSet fileSet
  = projectFiles fs' include exclude pathSet' fileSet'.
Proof.
  intros Hsame. unfold projectFiles.
  apply strictly_sorted_ext.
  - apply unique_strictly_sorted, std_sort_sorted.
  - apply unique_strictly_sorted, std_sort_sorted.
  - intros x.
    rewrite !unique_elem_of, !std_sort_perm, !scanFolders_filter.
    rewrite !elem_of_app, !list_elem_of_filter.
    specialize (Hsame x). tauto.
Qed.

End CanonicalList.

(** The same two files, listed twice and in another order. *)
Lemma projectFiles_canonical_witness :
  @projectFiles literalRegex exampleFS None None []
    ["b.txt"%string; "a.txt"%string; "b.txt"%string]
  = @projectFiles literalRegex exampleFS None None ["src"%string] [].
Proof.
  apply (@projectFiles_canonical literalRegex).
  intros p. cbn. rewrite !elem_of_cons, !elem_of_nil. tauto.
Defined.

(* ===================================================================== *)
(** * Parsing: comments, blank lines and directives *)
(* ===================================================================== *)

Lemma string_app_cons c (s t : string) :
  String c s +:+ t = String c (s +:+ t).
Proof. reflexivity. Qed.

Lemma string_app_length (s t : string) :
  String.length (s +:+ t) = (String.length s + String.length t)%nat.
Proof.
  induction s as [|c s IH]; [reflexivity|].
  rewrite string_app_cons. cbn [String.length]. rewrite IH. reflexivity.
Qed.

Lemma prefix_empty s : String.prefix "" s = true.
Proof. destruct s; reflexivity. Qed.

Lemma prefix_single a c s :
  String.prefix (String a "") (String c s)
  = if Ascii.ascii_dec a c then true else false.
Proof.
  change (String.prefix (String a "") (String c s))
    with (match Ascii.ascii_dec a c with
          | left _ => String.prefix "" s
          | right _ => false
          end).
  destruct (Ascii.ascii_dec a c); [apply prefix_empty | reflexivity].
Qed.

Lemma index_cons_single a c s :
  index 0 (String a "") (String c s)
  = if Ascii.ascii_dec a c then Some 0%nat
    else option_map S (index 0 (String a "") s).
Proof.
  change (index 0 (String a "") (String c s))
    with (if String.prefix (String a "") (String c s) then Some 0%nat
          else match index 0 (String a "") s with
               | Some n => Some (S n)
               | None => None
               end).
  rewrite prefix_single.
  destruct (Ascii.ascii_dec a c); [reflexivity|].
  destruct (index 0 (String a "") s); reflexivity.
Qed.

(** The first occurrence of a character that follows a string without
    it. *)
Lemma index_first a s t :
  index 0 (String a "") s = None ->
  index 0 (String a "") (s +:+ String a t) = Some (String.length s).
Proof.
  induction s as [|c s IH]; intros Hnone.
  - change ("" +:+ String a t) with (String a t).
    rewrite index_cons_single.
    destruct (Ascii.ascii_dec a a); [reflexivity | congruence].
  - rewrite index_cons_single in Hnone. rewrite string_app_cons.
    rewrite index_cons_single.
    destruct (Ascii.ascii_dec a c); [discriminate|].
    destruct (index 0 (String a "") s); [discriminate|].
    rewrite IH by reflexivity. reflexivity.
Qed.

Lemma substring_app_l (s t : string) :
  substring 0 (String.length s) (s +:+ t) = s.
Proof.
  induction s as [|c s IH].
  - destruct t; reflexivity.
  - rewrite string_app_cons. cbn [String.length substring].
    rewrite IH. reflexivity.
Qed.

Lemma substring_all (s : string) (m : nat) :
  (String.length s <= m)%nat -> substring 0 m s = s.
Proof.
  revert m. induction s as [|c s IH]; intros m Hm.
  - destruct m; reflexivity.
  - destruct m as [|m]; [cbn in Hm; lia|].
    cbn [substring]. rewrite IH by (cbn in Hm; lia). reflexivity.
Qed.

Lemma substring_app_r (s t : string) (m : nat) :
  substring (String.length s) m (s +:+ t) = substring 0 m t.
Proof.
  induction s as [|c s IH]; [reflexivity|].
  rewrite string_app_cons. cbn [String.length substring]. exact IH.
Qed.

Lemma get_app_r (s t : string) :
  String.get (String.length s) (s +:+ t) = String.get 0 t.
Proof.
  induction s as [|c s IH]; [reflexivity|].
  rewrite string_app_cons. cbn [String.length String.get]. exact IH.
Qed.

Lemma blank_char c :
  char_in c (String " " (String tab EmptyString)) = true ->
  c = " "%char \/ c = tab.
Proof.
  cbn [char_in]. rewrite orb_false_r. intros Hc.
  apply orb_prop in Hc as [Hc|Hc]; apply Ascii.eqb_eq in Hc; auto.
Qed.

Lemma find_first_None_cons set c s :
  find_first_not_of set (String c s) = None ->
  char_in c set = true /\ find_first_not_of set s = None.
Proof.
  cbn [find_first_not_of]. destruct (char_in c set); [|discriminate].
  destruct (find_first_not_of set s); [discriminate|]. auto.
Qed.

(** A string of blanks holds no [#]. *)
Lemma blank_no_hash s :
  find_first_not_of (String " " (String tab EmptyString)) s = None ->
  index 0 "#" s = None.
Proof.
  induction s as [|c s IH]; intros Hb; [reflexivity|].
  apply find_first_None_cons in Hb as [Hc Hs].
  rewrite index_cons_single, (IH Hs).
  apply blank_char in Hc as [-> | ->]; reflexivity.
Qed.

(** A string of blanks is no directive. *)
Lemma blank_no_directive s kw k :
  find_first_not_of (String " " (String tab EmptyString)) s = None ->
  Ascii.eqb " " k = false -> Ascii.eqb tab k = false ->
  forall kw', kw = String k kw' -> extractSuffix s kw = None.
Proof.
  intros Hb Hsp Htab kw' ->. unfold extractSuffix, compare_prefix, substr.
  destruct s as [|c s]; [reflexivity|].
  apply find_first_None_cons in Hb as [Hc _].
  cbn [String.length substring String.eqb].
  apply blank_char in Hc as [-> | ->]; [rewrite Hsp | rewrite Htab];
    reflexivity.
Qed.

(** X9. In [parseInput] a line is read up to its first [#]: what
    follows is ignored.  A line that holds only spaces and tabs, before
    a comment or alone, changes nothing. *)
Theorem parseLine_comments_blanks (acc : ProjectInput) (s t : string) :
  index 0 "#" s = None ->
  parseLine acc (s +:+ String "#" t) = parseLine acc s
  /\ (find_first_not_of (String " " (String tab EmptyString)) s = None ->
      parseLine acc s = acc
      /\ parseLine acc (s +:+ String "#" t) = acc).
Proof.
  intros Hnone.
  assert (Hcut : parseLine acc (s +:+ String "#" t) = parseLine acc s).
  { unfold parseLine. rewrite (index_first "#" s t Hnone), Hnone.
    unfold substr. rewrite substring_app_l. reflexivity. }
  split; [exact Hcut|]. intros Hb.
  assert (Hacc : parseLine acc s = acc).
  { unfold parseLine. rewrite Hnone.
    rewrite (blank_no_directive s "path" "p" Hb eq_refl eq_refl _ eq_refl).
    rewrite (blank_no_directive s "include" "i" Hb eq_refl eq_refl _ eq_refl).
    rewrite (blank_no_directive s "exclude" "e" Hb eq_refl eq_refl _ eq_refl).
    unfold trim. rewrite Hb. reflexivity. }
  split; [exact Hacc|]. rewrite Hcut. exact Hacc.
Qed.

(** A directive with a comment: the comment is cut, and so is the blank
    before it only by [trim]. *)
Lemma parseLine_comments_blanks_witness :
  parseLine (parseInput []) ("include \.h$" +:+ String "#" " headers")
  = parseLine (parseInput []) "include \.h$".
Proof.
  exact (proj1 (parseLine_comments_blanks (parseInput []) "include \.h$"
                  " headers" eq_refl)).
Defined.

Lemma string_app_empty_l (s : string) : "" +:+ s = s.
Proof. reflexivity. Qed.

Lemma substring_empty n m : substring n m "" = ""%string.
Proof. destruct n, m; reflexivity. Qed.

(** A substring splits after its first [m] characters. *)
Lemma substring_split n m k s :
  substring n (m + k) s = substring n m s +:+ substring (n + m) k s.
Proof.
  revert n m. induction s as [|c s IH]; intros n m.
  - rewrite !substring_empty. reflexivity.
  - destruct n as [|n].
    + destruct m as [|m].
      * cbn [Nat.add]. destruct k; reflexivity.
      * cbn [Nat.add substring]. rewrite (IH 0%nat m).
        rewrite string_app_cons. reflexivity.
    + cbn [Nat.add substring]. apply IH.
Qed.

Lemma get_substring n k s c :
  String.get n s = Some c ->
  substring n (S k) s = String c (substring (S n) k s).
Proof.
  revert n. induction s as [|c' s IH]; intros n Hget.
  - destruct n; discriminate.
  - destruct n as [|n].
    + cbn in Hget. injection Hget as ->. reflexivity.
    + cbn [String.get] in Hget. cbn [substring]. apply IH, Hget.
Qed.

Lemma find_last_None_cons set c s :
  find_last_not_of set (String c s) = None ->
  char_in c set = true /\ find_last_not_of set s = None.
Proof.
  cbn [find_last_not_of]. destruct (find_last_not_of set s); [discriminate|].
  destruct (char_in c set); [auto | discriminate].
Qed.

(** Where no character is kept, every part is blank. *)
Lemma find_last_None_substring set s n k :
  find_last_not_of set s = None ->
  find_first_not_of set (substring n k s) = None.
Proof.
  revert n k. induction s as [|c s IH]; intros n k Hl.
  - rewrite substring_empty. reflexivity.
  - apply find_last_None_cons in Hl as [Hc Hs].
    destruct n as [|n]; [|cbn [substring]; apply IH, Hs].
    destruct k as [|k]; [reflexivity|].
    cbn [substring find_first_not_of]. rewrite Hc, (IH 0%nat k Hs).
    reflexivity.
Qed.

(** What follows the last kept character is blank. *)
Lemma after_last_blank set s e k :
  find_last_not_of set s = Some e ->
  find_first_not_of set (substring (S e) k s) = None.
Proof.
  revert e. induction s as [|c s IH]; intros e; [discriminate|].
  cbn [find_last_not_of].
  destruct (find_last_not_of set s) as [i|] eqn:Hl.
  - intros [= <-]. cbn [substring]. apply IH. reflexivity.
  - destruct (char_in c set); [discriminate|]. intros [= <-].
    cbn [substring]. apply find_last_None_substring, Hl.
Qed.

(** The substring taken at the first kept character starts with it. *)
Lemma at_first_kept set s b m :
  find_first_not_of set s = Some b ->
  exists c r, substring b (S m) s = String c r /\ char_in c set = false.
Proof.
  revert b. induction s as [|c s IH]; intros b; [discriminate|].
  cbn [find_first_not_of]. destruct (char_in c set) eqn:Hc.
  - destruct (find_first_not_of set s) as [b'|]; [|discriminate].
    intros [= <-]. cbn [substring]. apply IH. reflexivity.
  - intros [= <-]. cbn [substring]. eauto.
Qed.

Lemma string_app_nil_inv (s t : string) : s +:+ t = s -> t = ""%string.
Proof.
  intros Heq. apply (f_equal String.length) in Heq.
  rewrite string_app_length in Heq.
  destruct t; [reflexivity | cbn [String.length] in Heq; lia].
Qed.

(** X10. What [trim] returns, on every string: the part from the first
    character that is neither a space nor a tab, at index [b], to the last,
    at index [e], followed by the [b] characters of the string that come
    right after index [e] (fewer when the string ends before).  These are
    blanks, as many as the smaller of the numbers of leading and of
    trailing blanks.  So the result never starts with a blank, and it is
    the trimmed string exactly when the string has no leading blank or
    nothing after its last character that is no blank. *)
Theorem trim_shape (s : string) :
  trim s = trimmed s +:+ trimTail s
  /\ (forall b e,
        find_first_not_of (String " " (String tab EmptyString)) s = Some b ->
        find_last_not_of (String " " (String tab EmptyString)) s = Some e ->
        trim s = substring b (S e - b) s +:+ substring (S e) b s)
  /\ find_first_not_of (String " " (String tab EmptyString)) (trimTail s)
     = None
  /\ String.length (trimTail s)
     = Nat.min (leadingBlanks s) (trailingBlanks s)
  /\ (trim s = trimmed s <-> leadingBlanks s = 0%nat \/ trailingBlanks s = 0%nat)
  /\ (forall c r, trim s = String c r ->
      char_in c (String " " (String tab EmptyString)) = false).
Proof.
  assert (Hsplit : forall b e,
            find_first_not_of (String " " (String tab EmptyString)) s
              = Some b ->
            find_last_not_of (String " " (String tab EmptyString)) s
              = Some e ->
            trim s = substring b (S e - b) s +:+ substring (S e) b s).
  { intros b e Hb He. destruct (trim_unfold s b e Hb He) as [Ht _].
    pose proof (find_first_le_last _ s b e Hb He) as Hbe.
    rewrite Ht.
    replace (e + 1)%nat with ((S e - b) + b)%nat by lia.
    rewrite substring_split.
    replace (b + (S e - b))%nat with (S e) by lia. reflexivity. }
  assert (Hlen : String.length (trimTail s)
                 = Nat.min (leadingBlanks s) (trailingBlanks s)).
  { unfold trimTail, leadingBlanks, trailingBlanks.
    destruct (find_first_not_of _ s) as [b|]; [|reflexivity].
    change (default 0%nat (Some b)) with b.
    destruct (find_last_not_of _ s) as [e|];
      [apply substring_length | cbn [String.length]; lia]. }
  assert (Heq : trim s = trimmed s +:+ trimTail s).
  { unfold trimTail.
    destruct (find_first_not_of (String " " (String tab EmptyString)) s)
      as [b|] eqn:Hb;
      [destruct (find_last_not_of (String " " (String tab EmptyString)) s)
         as [e|] eqn:He|].
    - rewrite (Hsplit b e eq_refl eq_refl).
      destruct (trim_unfold s b e Hb He) as [_ ->].
      replace (e + 1 - b)%nat with (S e - b)%nat by lia. reflexivity.
    - unfold trim, trimmed. rewrite Hb, He. reflexivity.
    - unfold trim, trimmed. rewrite Hb. reflexivity. }
  split; [exact Heq|]. split; [exact Hsplit|]. split; [|split; [exact Hlen|]].
  - unfold trimTail.
    destruct (find_first_not_of (String " " (String tab EmptyString)) s)
      as [b|]; [|reflexivity].
    destruct (find_last_not_of (String " " (String tab EmptyString)) s)
      as [e|] eqn:He; [|reflexivity].
    apply after_last_blank, He.
  - split.
    + split.
      * intros Ht. rewrite Heq in Ht.
        apply string_app_nil_inv in Ht.
        rewrite Ht in Hlen. cbn [String.length] in Hlen. lia.
      * intros Hz. rewrite Heq.
        assert (Hnil : trimTail s = ""%string).
        { destruct (trimTail s); [reflexivity|].
          cbn [String.length] in Hlen. lia. }
        rewrite Hnil. apply string_app_empty_r.
    + intros c r Hcr.
      destruct (find_first_not_of (String " " (String tab EmptyString)) s)
        as [b|] eqn:Hb; cycle 1.
      { unfold trim in Hcr. rewrite Hb in Hcr. discriminate. }
      destruct (find_last_not_of (String " " (String tab EmptyString)) s)
        as [e|] eqn:He; cycle 1.
      { unfold trim in Hcr. rewrite Hb, He in Hcr. discriminate. }
      destruct (trim_unfold s b e Hb He) as [Ht _].
      destruct (at_first_kept _ s b e Hb) as (c' & r' & Hsub & Hc').
      rewrite Ht in Hcr. replace (e + 1)%nat with (S e) in Hcr by lia.
      rewrite Hsub in Hcr. injection Hcr as <- _. exact Hc'.
Qed.

Lemma substring_prefix_eq (kw s : string) :
  substring 0 (String.length kw) s = kw ->
  s = kw +:+ substring (String.length kw) (String.length s) s.
Proof.
  intros Hk.
  transitivity (substring 0 (String.length kw + String.length s) s).
  - symmetry. apply substring_all. lia.
  - rewrite substring_split. cbn [Nat.add]. rewrite Hk. reflexivity.
Qed.

(** X11. [extractSuffix] answers true exactly on a string made of the
    keyword, one white-space character of the C locale, and a rest; the
    suffix it gives is [trim] of that character and the rest. *)
Theorem extractSuffix_iff (s kw v : string) :
  extractSuffix s kw = Some v
  <-> exists c rest, s = kw +:+ String c rest
                     /\ isspace c = true
                     /\ v = trim (String c rest).
Proof.
  unfold extractSuffix, compare_prefix, substr, substr_from. split.
  - destruct (String.eqb (substring 0 (String.length kw) s) kw) eqn:Heq;
      [|discriminate].
    apply String.eqb_eq in Heq.
    destruct (String.length kw <? String.length s)%nat eqn:Hlt;
      [|discriminate].
    destruct (String.get (String.length kw) s) as [c|] eqn:Hget;
      [|discriminate].
    cbn [andb]. destruct (isspace c) eqn:Hsp; [|discriminate].
    intros [= <-].
    apply Nat.ltb_lt in Hlt.
    destruct (String.length s) as [|n] eqn:Hs; [lia|].
    pose proof (substring_prefix_eq kw s Heq) as Hsplit.
    rewrite Hs, (get_substring _ n _ _ Hget) in Hsplit.
    exists c, (substring (S (String.length kw)) n s).
    split; [exact Hsplit|]. split; [exact Hsp|].
    rewrite (get_substring _ n _ _ Hget). reflexivity.
  - intros (c & rest & -> & Hsp & ->).
    rewrite substring_app_l, String.eqb_refl, string_app_length, get_app_r.
    cbn [String.length String.get andb].
    replace (String.length kw <? String.length kw + S (String.length rest))%nat
      with true by (symmetry; apply Nat.ltb_lt; lia).
    rewrite Hsp. rewrite substring_app_r.
    rewrite substring_all by (cbn [String.length]; lia). reflexivity.
Qed.

(** Two keywords that start differently are never read from one line. *)
Lemma extractSuffix_exclusive s a k1 b k2 v :
  extractSuffix s (String a k1) = Some v ->
  Ascii.eqb a b = false ->
  extractSuffix s (String b k2) = None.
Proof.
  unfold extractSuffix, compare_prefix, substr. intros Hv Hab.
  destruct s as [|c s]; [discriminate|].
  cbn [String.length substring String.eqb] in *.
  destruct (Ascii.eqb c a) eqn:Hca; [|discriminate].
  apply Ascii.eqb_eq in Hca. subst c. rewrite Hab. reflexivity.
Qed.

Lemma option_list_None {A} : option_list (@None A) = [].
Proof. reflexivity. Qed.

Lemma parseLine_fields (acc : ProjectInput) (line : string) :
  paths (parseLine acc line)
  = paths acc ++ option_list (directive "path" line)
  /\ include (parseLine acc line)
     = include acc ++ option_list (directive "include" line)
  /\ exclude (parseLine acc line)
     = exclude acc ++ option_list (directive "exclude" line)
  /\ files_in (parseLine acc line)
     = files_in acc ++ option_list (plainFile line).
Proof.
  unfold plainFile, directive.
  change (parseLine acc line) with
    (match extractSuffix (uncomment line) "path" with
     | Some suffix =>
         {| paths := paths acc ++ [suffix]; include := include acc;
            exclude := exclude acc; files_in := files_in acc |}
     | None =>
     match extractSuffix (uncomment line) "include" with
     | Some suffix =>
         {| paths := paths acc; include := include acc ++ [suffix];
            exclude := exclude acc; files_in := files_in acc |}
     | None =>
     match extractSuffix (uncomment line) "exclude" with
     | Some suffix =>
         {| paths := paths acc; include := include acc;
            exclude := exclude acc ++ [suffix]; files_in := files_in acc |}
     | None =>
         if String.eqb (trim (uncomment line)) "" then acc
         else {| paths := paths acc; include := include acc;
                 exclude := exclude acc;
                 files_in := files_in acc ++ [trim (uncomment line)] |}
     end end end).
  destruct (extractSuffix (uncomment line) "path") as [p|] eqn:Hp.
  - rewrite (extractSuffix_exclusive _ "p" _ "i" _ _ Hp eq_refl).
    rewrite (extractSuffix_exclusive _ "p" _ "e" _ _ Hp eq_refl).
    cbn. rewrite !app_nil_r. auto.
  - destruct (extractSuffix (uncomment line) "include") as [i|] eqn:Hi.
    + rewrite (extractSuffix_exclusive _ "i" _ "e" _ _ Hi eq_refl).
      cbn. rewrite !app_nil_r. auto.
    + destruct (extractSuffix (uncomment line) "exclude") as [e|] eqn:He.
      * cbn. rewrite !app_nil_r. auto.
      * destruct (String.eqb (trim (uncomment line)) "");
          cbn; rewrite !app_nil_r; auto.
Qed.

Lemma parseInput_fold (lines : list string) (acc : ProjectInput) :
  paths (fold_left parseLine lines acc)
  = paths acc ++ omap (directive "path") lines
  /\ include (fold_left parseLine lines acc)
     = include acc ++ omap (directive "include") lines
  /\ exclude (fold_left parseLine lines acc)
     = exclude acc ++ omap (directive "exclude") lines
  /\ files_in (fold_left parseLine lines acc)
     = files_in acc ++ omap plainFile lines.
Proof.
  revert acc. induction lines as [|line lines IH]; intros acc.
  - cbn. rewrite !app_nil_r. auto.
  - cbn [fold_left].
    destruct (IH (parseLine acc line)) as (Hp & Hi & He & Hf).
    destruct (parseLine_fields acc line) as (Hp1 & Hi1 & He1 & Hf1).
    rewrite Hp, Hi, He, Hf, Hp1, Hi1, He1, Hf1.
    rewrite <- !app_assoc.
    repeat split; f_equal; cbn [omap list_omap];
      match goal with |- context [option_list ?o] => destruct o end;
      reflexivity.
Qed.

(** X12. The four lists [parseInput] fills are four independent
    selections of the lines, each in the order of the file: a line is a
    directive of at most one keyword, so the order of the tests in the
    loop plays no part, and a line adds a file only when it is no
    directive and has a character that is no blank before its comment. *)
Theorem parseInput_lists (lines : list string) :
  paths (parseInput lines) = omap (directive "path") lines
  /\ include (parseInput lines) = omap (directive "include") lines
  /\ exclude (parseInput lines) = omap (directive "exclude") lines
  /\ files_in (parseInput lines) = omap plainFile lines
  /\ Forall (fun line =>
       (List.length (option_list (directive "path" line))
        + List.length (option_list (directive "include" line))
        + List.length (option_list (directive "exclude" line))
        + List.length (option_list (plainFile line)) <= 1)%nat) lines.
Proof.
  destruct (parseInput_fold lines
              {| paths := []; include := []; exclude := []; files_in := [] |})
    as (Hp & Hi & He & Hf).
  unfold parseInput. rewrite Hp, Hi, He, Hf. repeat split.
  apply Forall_forall. intros line _.
  unfold plainFile, directive.
  destruct (extractSuffix (uncomment line) "path") as [p|] eqn:Ep.
  - rewrite (extractSuffix_exclusive _ "p" _ "i" _ _ Ep eq_refl).
    rewrite (extractSuffix_exclusive _ "p" _ "e" _ _ Ep eq_refl).
    cbn. lia.
  - destruct (extractSuffix (uncomment line) "include") as [i|] eqn:Ei.
    + rewrite (extractSuffix_exclusive _ "i" _ "e" _ _ Ei eq_refl).
      cbn. lia.
    + destruct (extractSuffix (uncomment line) "exclude") as [e|] eqn:Ee.
      * cbn. lia.
      * destruct (String.eqb (trim (uncomment line)) ""); cbn; lia.
Qed.

(* ===================================================================== *)
(** * The read loop and the progress reports *)
(* ===================================================================== *)

(** X13. The loop [while (!in.eof())] of [appendFile] on a stream just
    opened: when no read fails it ends, after at most one iteration more
    than the file has bytes, and has collected every byte of the file in
    order, whatever the number of iterations allowed; when a read fails
    before the end of the file, no number of iterations ends it. *)
Theorem readAll_outcome (bytes : list byte) (breaks : bool) :
  readAll (ifstream.opened bytes breaks)
  = (if breaks then Diverges else Ok bytes)
  /\ (breaks = true ->
      forall fuel, readLoop fuel (ifstream.opened bytes breaks) [] = None)
  /\ (breaks = false ->
      readLoop (S (length bytes)) (ifstream.opened bytes breaks) []
      = Some bytes
      /\ forall fuel contents,
           readLoop fuel (ifstream.opened bytes breaks) [] = Some contents ->
           contents = bytes).
Proof.
  split; [|split].
  - destruct breaks; [apply readAll_hangs | apply readAll_all].
  - intros -> fuel. apply readLoop_breaks; reflexivity.
  - intros ->.
    assert (Hall : readLoop (S (length bytes)) (ifstream.opened bytes false) []
                   = Some bytes)
      by (apply (readLoop_reads (length bytes) (ifstream.opened bytes false));
          reflexivity || (cbn; lia)).
    split; [exact Hall|]. intros fuel contents Hr.
    apply readLoop_bound in Hr. cbn [ifstream.opened ifstream.pending] in Hr.
    change (readLoop (S (length bytes)) (ifstream.opened bytes false) []
            = Some contents) in Hr.
    congruence.
Qed.

Section ProgressReports.
Context `{Format} `{Codec}.

(** X14. [builderAppend] is the call of [appendFile] followed by the
    progress report, which leaves the builder as it is.  With a file
    count that is not zero as a [uint32_t] the report does not divide by
    zero and remembers the compressed size: the loop of [buildProject] is
    then the run of appends.  With a file count that is zero as a
    [uint32_t] the call divides by zero as soon as the compressed size is
    not the one remembered. *)
Theorem builderAppend_report (fs : FileSystem) (files : list string)
    (st : Run.t) (p : string) :
  (to_uint32 (size files) <> 0 ->
   builderAppend fs files st p
   = (do b <- appendOne fs (Run.builder st) p;
      Ok {| Run.builder := b;
            Run.lastResultSize :=
              Statistics.resultSize (Builder.statistics b) |})
   /\ forall todo,
        appendLoop fs files (p :: todo) st
        = (do b <- appendAll fs (p :: todo) (Run.builder st);
           Ok {| Run.builder := b;
                 Run.lastResultSize :=
                   Statistics.resultSize (Builder.statistics b) |}))
  /\ (to_uint32 (size files) = 0 ->
      builderAppend fs files st p
      = (do b <- appendOne fs (Run.builder st) p;
         if Run.lastResultSize st
            =? Statistics.resultSize (Builder.statistics b)
         then Ok {| Run.builder := b;
                    Run.lastResultSize := Run.lastResultSize st |}
         else Undefined)).
Proof.
  split.
  - intros Hn. split; [apply builderAppend_nonzero, Hn|].
    intros todo. apply appendLoop_nonzero, Hn.
  - intros Hz. unfold builderAppend, appendOne. rewrite Hz.
    destruct (appendFile fs p (Run.builder st)) as [[r b]| | | |];
      cbn [bind snd]; try reflexivity.
    rewrite report_zero.
    destruct (_ =? _); reflexivity.
Qed.

End ProgressReports.
